(** * Tender OCR extractor: a shallow embedding of the text parser

    Embeds [server/ocr/tender_extractor.py] (classes [TenderParser],
    [OCREngine], [TenderExtractor], the dependency checks and [main]) and
    [server/rapidocr_service.py] ([extract_text_from_image] and [main]).

    Python [str] values are sequences of Unicode code points and are modelled
    as [list N].  The regular expressions of the source are written as terms
    of a small regex syntax and run by a backtracking matcher with the
    priorities of Python's [re] (leftmost, alternatives in order, greedy and
    lazy repetition, capture groups).

    [TenderParser] holds the parser as pure functions: what each function
    returns.  The one place where the parser can raise, [int(item_no)] in
    [extract_items], is followed in [Checked], and [process_pdf] runs the
    scan of [Checked].  [TenderExtractor.main] is [main] after a dependency
    check that returned, with a standard output that takes every object;
    [CommandLine.main] is [main] with the command line parser, the
    dependency checks of [Dependencies] and a [print] that may raise. *)

From Stdlib Require Import Ascii String.
From Stdlib Require Import List NArith ZArith QArith Bool Arith Lia.
Import ListNotations.

Local Open Scope N_scope.
Local Open Scope list_scope.

Set Implicit Arguments.

(** ** Strings *)

Definition str := list N.

(** An ASCII literal as a sequence of code points. *)
Definition lit (s : string) : str := map N_of_ascii (list_ascii_of_string s).

Definition str_eqb (a b : str) : bool :=
  if list_eq_dec N.eq_dec a b then true else false.

Definition in_range (lo hi c : N) : bool := (lo <=? c) && (c <=? hi).

Definition is_ascii (c : N) : bool := c <? 128.
Definition is_ascii_upper (c : N) : bool := in_range 65 90 c.
Definition is_ascii_lower (c : N) : bool := in_range 97 122 c.
Definition ascii_lower (c : N) : N := if is_ascii_upper c then c + 32 else c.
Definition ascii_upper (c : N) : N := if is_ascii_lower c then c - 32 else c.

(** The interpreter's whitespace table ([str.isspace], [str.strip] and the
    regex class [\s] on [str] patterns all use it). *)
Definition is_space (c : N) : bool :=
  in_range 9 13 c || in_range 28 32 c || (c =? 133) || (c =? 160)
  || (c =? 5760) || in_range 8192 8202 c || (c =? 8232) || (c =? 8233)
  || (c =? 8239) || (c =? 8287) || (c =? 12288).

(** The part of the interpreter's Unicode database that the source reaches
    only through non-ASCII characters.  It is kept abstract: every theorem
    below holds for any such tables, and on ASCII input none is consulted. *)
Record Unicode : Type := {
  uni_decimal : N -> bool;        (* category Nd, beyond 0-9 *)
  uni_digit_val : N -> N;         (* decimal value of such a digit *)
  uni_alnum : N -> bool;          (* str.isalnum, beyond ASCII *)
  uni_variants : N -> list N;     (* case equivalents of a non-ASCII char *)
  uni_lower : str -> str;         (* str.lower on a non-ASCII string *)
  uni_upper : str -> str          (* str.upper on a non-ASCII string *)
}.

Section Chars.
Variable U : Unicode.

Definition is_digit (c : N) : bool :=
  in_range 48 57 c || ((128 <=? c) && uni_decimal U c).

Definition digit_val (c : N) : N :=
  if is_ascii c then c - 48 else uni_digit_val U c.

Definition is_word (c : N) : bool :=
  if is_ascii c
  then in_range 48 57 c || is_ascii_upper c || is_ascii_lower c || (c =? 95)
  else uni_alnum U c.

(** Characters that compare equal to [c] when case is ignored.  For an
    ASCII letter only its ASCII counterpart is listed: the patterns of the
    source contain no cased non-ASCII character. *)
Definition case_variants (c : N) : list N :=
  if is_ascii c then
    (if is_ascii_upper c then [c + 32]
     else if is_ascii_lower c then [c - 32] else [])
  else uni_variants U c.

(** [str.lower()] and [str.upper()]. *)
Definition lower (s : str) : str :=
  if forallb is_ascii s then map ascii_lower s else uni_lower U s.
Definition upper (s : str) : str :=
  if forallb is_ascii s then map ascii_upper s else uni_upper U s.

(** The value of [int(s)] on a string of decimal digits; whether [int]
    accepts the string is told by [Checked.int]. *)
Definition int_of_str (s : str) : N :=
  fold_left (fun acc c => acc * 10 + digit_val c) s 0.
End Chars.

(** [str(n)] for a non-negative integer. *)
Fixpoint uint_digits (d : Decimal.uint) : str :=
  match d with
  | Decimal.Nil => []
  | Decimal.D0 r => 48 :: uint_digits r
  | Decimal.D1 r => 49 :: uint_digits r
  | Decimal.D2 r => 50 :: uint_digits r
  | Decimal.D3 r => 51 :: uint_digits r
  | Decimal.D4 r => 52 :: uint_digits r
  | Decimal.D5 r => 53 :: uint_digits r
  | Decimal.D6 r => 54 :: uint_digits r
  | Decimal.D7 r => 55 :: uint_digits r
  | Decimal.D8 r => 56 :: uint_digits r
  | Decimal.D9 r => 57 :: uint_digits r
  end.

Definition str_of_N (n : N) : str := uint_digits (N.to_uint n).

(** [s.strip()]. *)
Fixpoint lstrip (s : str) : str :=
  match s with
  | c :: r => if is_space c then lstrip r else s
  | [] => []
  end.
Definition rstrip (s : str) : str := rev (lstrip (rev s)).
Definition strip (s : str) : str := rstrip (lstrip s).

(** [s.split(sep)] for a one-character separator. *)
Fixpoint split_on (sep : N) (s : str) : list str :=
  match s with
  | [] => [[]]
  | c :: r =>
      if c =? sep then [] :: split_on sep r
      else match split_on sep r with
           | w :: ws => (c :: w) :: ws
           | [] => [[c]]
           end
  end.

(** [s.replace(a, b)] for one-character [a] and [b]. *)
Definition replace_char (a b : N) (s : str) : str :=
  map (fun c => if c =? a then b else c) s.

(** [sep.join(parts)]. *)
Fixpoint join (sep : str) (parts : list str) : str :=
  match parts with
  | [] => []
  | [p] => p
  | p :: ps => p ++ sep ++ join sep ps
  end.

(** ** Regular expressions *)

Module Re.

Inductive citem : Type :=
| CRange (lo hi : N)
| CDigit                         (* \d *)
| CSpace.                        (* \s *)

Record cset : Type := { cneg : bool; citems : list citem }.

Inductive regex : Type :=
| Eps
| Chr (cs : cset)
| Seq (a b : regex)
| Alt (a b : regex)
| Rep (greedy : bool) (lo : nat) (hi : option nat) (a : regex)
| Grp (i : nat) (a : regex)      (* capturing group number i *)
| Bol                            (* ^ *)
| Eol                            (* $ *)
| Eos                            (* \Z *)
| WordB.                         (* \b *)

(** A position in the subject: the consumed prefix (reversed) and the rest. *)
Record input : Type := { before : str; after : str }.

Definition caps := list (nat * str).
Definition mres := (input * caps)%type.
Definition cont := input -> caps -> option mres.

Definition between (s s' : input) : str :=
  firstn (length (after s) - length (after s')) (after s).

(** Repetition of a body matcher.  [fuel] bounds the number of iterations;
    an iteration must consume input to be repeated (every repeated body in
    the source's patterns does), so with [fuel = S (length (after s))] it
    never runs out: see [ReFacts.rep_fuel_enough]. *)
Fixpoint rep_loop (body : input -> caps -> cont -> option mres)
    (greedy : bool) (lo : nat) (hi : option nat) (k : cont)
    (fuel n : nat) (s : input) (c : caps) : option mres :=
  match fuel with
  | O => None
  | S f =>
      let more (_ : unit) :=
        if match hi with Some h => Nat.ltb n h | None => true end
        then body s c (fun s' c' =>
               if Nat.ltb (length (after s')) (length (after s))
               then rep_loop body greedy lo hi k f (S n) s' c'
               else None)
        else None in
      let stop (_ : unit) := if Nat.leb lo n then k s c else None in
      if greedy
      then match more tt with Some r => Some r | None => stop tt end
      else match stop tt with Some r => Some r | None => more tt end
  end.

Section Matcher.
Variable U : Unicode.
Variable ic : bool.            (* re.IGNORECASE *)

Definition citem_mem (it : citem) (c : N) : bool :=
  match it with
  | CRange lo hi => in_range lo hi c
  | CDigit => is_digit U c
  | CSpace => is_space c
  end.

Definition citem_mem_ci (it : citem) (c : N) : bool :=
  citem_mem it c ||
  match it with
  | CRange _ _ => ic && existsb (citem_mem it) (case_variants U c)
  | _ => false
  end.

Definition cset_mem (cs : cset) (c : N) : bool :=
  xorb (cneg cs) (existsb (fun it => citem_mem_ci it c) (citems cs)).

Fixpoint rmatch (r : regex) (s : input) (c : caps) (k : cont)
    {struct r} : option mres :=
  match r with
  | Eps => k s c
  | Chr cs =>
      match after s with
      | x :: xs =>
          if cset_mem cs x
          then k {| before := x :: before s; after := xs |} c
          else None
      | [] => None
      end
  | Seq a b => rmatch a s c (fun s' c' => rmatch b s' c' k)
  | Alt a b =>
      match rmatch a s c k with
      | Some r => Some r
      | None => rmatch b s c k
      end
  | Rep g lo hi a =>
      rep_loop (rmatch a) g lo hi k (S (length (after s))) 0 s c
  | Grp i a => rmatch a s c (fun s' c' => k s' ((i, between s s') :: c'))
  | Bol => match before s with [] => k s c | _ => None end
  | Eol =>
      match after s with
      | [] => k s c
      | [x] => if x =? 10 then k s c else None
      | _ => None
      end
  | Eos => match after s with [] => k s c | _ => None end
  | WordB =>
      let l := match before s with x :: _ => is_word U x | [] => false end in
      let r := match after s with x :: _ => is_word U x | [] => false end in
      if xorb l r then k s c else None
  end.

Definition accept : cont := fun s c => Some (s, c).

(** A match object: the matched text, its groups and where it ends. *)
Record rmatch_obj : Type := {
  m_text : str;
  m_caps : caps;
  m_end : input
}.

Definition match_at (r : regex) (s : input) : option rmatch_obj :=
  match rmatch r s [] accept with
  | Some (s', c) =>
      Some {| m_text := between s s'; m_caps := c; m_end := s' |}
  | None => None
  end.

(** [m.group(i)]: [None] when the group did not take part. *)
Fixpoint cap_lookup (i : nat) (c : caps) : option str :=
  match c with
  | [] => None
  | (j, v) :: r => if Nat.eqb i j then Some v else cap_lookup i r
  end.
Definition group (m : rmatch_obj) (i : nat) : option str :=
  cap_lookup i (m_caps m).
(** A group that is known to take part in every match. *)
Definition group_str (m : rmatch_obj) (i : nat) : str :=
  match group m i with Some v => v | None => [] end.

(** [re.match(r, text)]. *)
Definition re_match (r : regex) (text : str) : option rmatch_obj :=
  match_at r {| before := []; after := text |}.

(** [re.search(r, text)]: the leftmost position with a match. *)
Fixpoint search_from (r : regex) (pre rest : str) : option rmatch_obj :=
  match match_at r {| before := pre; after := rest |} with
  | Some m => Some m
  | None =>
      match rest with
      | [] => None
      | x :: xs => search_from r (x :: pre) xs
      end
  end.
Definition re_search (r : regex) (text : str) : option rmatch_obj :=
  search_from r [] text.

(** Successive non-overlapping matches, left to right.  [skip] counts the
    characters of the previous match still to be passed over. *)
Fixpoint finditer_from (r : regex) (pre rest : str) (skip : nat)
    : list rmatch_obj :=
  match skip, rest with
  | S n, x :: xs => finditer_from r (x :: pre) xs n
  | S _, [] => []
  | O, _ =>
      match match_at r {| before := pre; after := rest |}, rest with
      | Some m, x :: xs =>
          m :: finditer_from r (x :: pre) xs (Nat.pred (length (m_text m)))
      | Some m, [] => [m]
      | None, x :: xs => finditer_from r (x :: pre) xs O
      | None, [] => []
      end
  end.

(** [re.findall] for a pattern without groups, and for one with exactly
    one group (a group that did not take part gives the empty string). *)
Definition findall0 (r : regex) (text : str) : list str :=
  map m_text (finditer_from r [] text O).
Definition findall1 (r : regex) (text : str) : list str :=
  map (fun m => group_str m 1) (finditer_from r [] text O).

(** [re.sub(r, repl, text)] for a replacement without group references. *)
Fixpoint sub_from (r : regex) (repl : str) (pre rest : str) (skip : nat)
    : str :=
  match skip, rest with
  | S n, x :: xs => sub_from r repl (x :: pre) xs n
  | S _, [] => []
  | O, _ =>
      match match_at r {| before := pre; after := rest |}, rest with
      | Some m, x :: xs =>
          match length (m_text m) with
          | O => repl ++ x :: sub_from r repl (x :: pre) xs O
          | S n => repl ++ sub_from r repl (x :: pre) xs n
          end
      | Some m, [] => repl
      | None, x :: xs => x :: sub_from r repl (x :: pre) xs O
      | None, [] => []
      end
  end.
Definition re_sub (r : regex) (repl text : str) : str :=
  sub_from r repl [] text O.
End Matcher.

(** *** Pattern syntax helpers *)

Definition chr (c : string) : citem :=
  match lit c with x :: _ => CRange x x | [] => CRange 1 0 end.
Definition rng (a b : string) : citem :=
  match lit a, lit b with
  | x :: _, y :: _ => CRange x y
  | _, _ => CRange 1 0
  end.
Definition set (l : list citem) : regex := Chr {| cneg := false; citems := l |}.
Definition nset (l : list citem) : regex := Chr {| cneg := true; citems := l |}.
Definition digit : regex := set [CDigit].
Definition space : regex := set [CSpace].
(** [.] without and with re.DOTALL. *)
Definition dot : regex := nset [CRange 10 10].
Definition dotall : regex := nset [].

Fixpoint seq (l : list regex) : regex :=
  match l with
  | [] => Eps
  | [r] => r
  | r :: rs => Seq r (seq rs)
  end.
Fixpoint alt (l : list regex) : regex :=
  match l with
  | [] => Eps
  | [r] => r
  | r :: rs => Alt r (alt rs)
  end.
(** A literal ASCII word. *)
Definition word (w : string) : regex :=
  seq (map (fun x => set [CRange x x]) (lit w)).

Definition star r := Rep true 0 None r.
Definition plus r := Rep true 1 None r.
Definition opt r := Rep true 0 (Some 1%nat) r.
Definition lazy_plus r := Rep false 1 None r.
Definition times (lo hi : nat) r := Rep true lo (Some hi) r.
Definition lazy_atleast (lo : nat) r := Rep false lo None r.

End Re.

(** ** Data models *)

Inductive language_tag : Type := Unknown | English | Arabic | Mixed.

(** [TenderItem]; the defaults of the dataclass are [default_item]. *)
Record TenderItem : Type := {
  item_number : str;
  description : str;
  quantity : str;
  unit_ : str;
  specifications : str;
  language : language_tag;
  has_arabic : bool
}.

Definition default_item : TenderItem :=
  {| item_number := []; description := []; quantity := []; unit_ := [];
     specifications := []; language := Unknown; has_arabic := false |}.

(** [TenderData]; confidences are kept as exact rationals. *)
Record TenderData : Type := {
  reference_number : str;
  title : str;
  closing_date : str;
  posting_date : str;
  department : str;
  items : list TenderItem;
  specifications_text : str;
  items_count : nat;
  ocr_confidence : Q;
  source_files : list str;
  extraction_timestamp : str;
  extraction_method : str;
  td_language : language_tag;
  has_arabic_content : bool;
  raw_text : str;
  errors : list str
}.

Definition default_data : TenderData :=
  {| reference_number := []; title := []; closing_date := [];
     posting_date := []; department := []; items := [];
     specifications_text := []; items_count := 0; ocr_confidence := 0%Q;
     source_files := []; extraction_timestamp := [];
     extraction_method := lit "ocr"; td_language := Unknown;
     has_arabic_content := false; raw_text := []; errors := [] |}.

(** ** TenderParser *)

Module TenderParser.
Import Re.

(** *** The patterns of the source, in its order *)

(** [[\u0600-\u06FF\u0750-\u077F\u08A0-\u08FF\uFB50-\uFDFF\uFE70-\uFEFF]] *)
Definition arabic_set : cset :=
  {| cneg := false;
     citems := [CRange 0x0600 0x06FF; CRange 0x0750 0x077F;
                CRange 0x08A0 0x08FF; CRange 0xFB50 0xFDFF;
                CRange 0xFE70 0xFEFF] |}.
Definition arabic_pattern : regex := Chr arabic_set.

(** [\s+] *)
Definition spaces : regex := plus space.

(** [\d{1,2}[A-Z]{2,3}\d{2,4}] *)
Definition ref_core : regex :=
  seq [times 1 2 digit; times 2 3 (set [rng "A" "Z"]); times 2 4 digit].

(** [(\d{1,2}[A-Z]{2,3}\d{2,4})] *)
Definition filename_pattern : regex := Grp 1 ref_core.

Definition reference_patterns : list regex :=
  [ (* (?: Tender \s* (?: No\.? | Number | Ref\.? )? [:\s]* )? ( \d{1,2}[A-Z]{2,3}\d{2,4} ) *)
    seq [opt (seq [word "Tender"; star space;
                   opt (alt [Seq (word "No") (opt (set [chr "."]));
                             word "Number";
                             Seq (word "Ref") (opt (set [chr "."]))]);
                   star (set [chr ":"; CSpace])]);
         Grp 1 ref_core];
    (* (?: Reference [:\s]* )? ( \d{1,2}[A-Z]{2,3}\d{2,4} ) *)
    seq [opt (seq [word "Reference"; star (set [chr ":"; CSpace])]);
         Grp 1 ref_core];
    (* \b(\d{1,2}(?:TN|LB|AL|EQ|LS|MA|PS|PT|TE|TS|IC|RC|BM)\d{2,4})\b *)
    seq [WordB;
         Grp 1 (seq [times 1 2 digit;
                     alt (map word ["TN"; "LB"; "AL"; "EQ"; "LS"; "MA"; "PS";
                                    "PT"; "TE"; "TS"; "IC"; "RC"; "BM"]%string);
                     times 2 4 digit]);
         WordB] ].

(** [\d{1,2}[/\-\.]\d{1,2}[/\-\.]\d{2,4}] *)
Definition date_core : regex :=
  let sep := set [chr "/"; chr "-"; chr "."] in
  seq [times 1 2 digit; sep; times 1 2 digit; sep; times 2 4 digit].

(** [(\d{2}/\d{2}/\d{4})] *)
Definition bare_date : regex :=
  Grp 1 (seq [times 2 2 digit; set [chr "/"]; times 2 2 digit; set [chr "/"];
              times 4 4 digit]).

Definition label_tail : regex := star (set [chr ":"; CSpace]).

Definition closing_patterns : list regex :=
  [ (* (?: Closing\s*Date | Close\s*Date | Last\s*Date | Deadline ) [:\s]* ( date ) *)
    seq [alt [seq [word "Closing"; star space; word "Date"];
              seq [word "Close"; star space; word "Date"];
              seq [word "Last"; star space; word "Date"];
              word "Deadline"];
         label_tail; Grp 1 date_core];
    (* (?: close[sd]? \s* (?: on | by )? | deadline ) [:\s]* ( date ) *)
    seq [alt [seq [word "close"; opt (set [chr "s"; chr "d"]); star space;
                   opt (alt [word "on"; word "by"])];
              word "deadline"];
         label_tail; Grp 1 date_core];
    (* (\d{2}/\d{2}/\d{4}) *)
    bare_date ].

(** (?: Posted | Published | Posted\s*Date | Publication\s*Date ) [:\s]* ( date ) *)
Definition posting_patterns : list regex :=
  [ seq [alt [word "Posted"; word "Published";
              seq [word "Posted"; star space; word "Date"];
              seq [word "Publication"; star space; word "Date"]];
         label_tail; Grp 1 date_core] ].

Definition garbage_patterns : list regex :=
  [ (* ^page\s*\d+ *)
    seq [Bol; word "page"; star space; plus digit];
    (* ^\d+\s*of\s*\d+$ *)
    seq [Bol; plus digit; star space; word "of"; star space; plus digit; Eol];
    (* ^https?:// *)
    seq [Bol; word "http"; opt (word "s"); word "://"];
    (* ^\+?\d{3}[\s\-]?\d{4}[\s\-]?\d{4}$ *)
    seq [Bol; opt (set [chr "+"]); times 3 3 digit;
         opt (set [CSpace; chr "-"]); times 4 4 digit;
         opt (set [CSpace; chr "-"]); times 4 4 digit; Eol];
    (* ^ministry\s+of\s+health *)
    seq [Bol; word "ministry"; plus space; word "of"; plus space; word "health"];
    (* ^state\s+of\s+kuwait *)
    seq [Bol; word "state"; plus space; word "of"; plus space; word "kuwait"];
    (* ^medical\s+stores *)
    seq [Bol; word "medical"; plus space; word "stores"];
    (* ^tender\s+department *)
    seq [Bol; word "tender"; plus space; word "department"] ].

(** [^[\d\s\-\.\,]+$] *)
Definition digits_punct_line : regex :=
  seq [Bol; plus (set [CDigit; CSpace; chr "-"; chr "."; chr ","]); Eol].

(** [pieces?|pcs?|units?|each|nos?|sets?|qty] *)
Definition unit_words : regex :=
  alt [Seq (word "piece") (opt (word "s")); Seq (word "pc") (opt (word "s"));
       Seq (word "unit") (opt (word "s")); word "each";
       Seq (word "no") (opt (word "s")); Seq (word "set") (opt (word "s"));
       word "qty"].

(** [pieces?|pcs?|units?] *)
Definition unit_words_short : regex :=
  alt [Seq (word "piece") (opt (word "s")); Seq (word "pc") (opt (word "s"));
       Seq (word "unit") (opt (word "s"))].

(** [\d+(?:[.,]\d+)?] *)
Definition decimal_number : regex :=
  Seq (plus digit) (opt (Seq (set [chr "."; chr ","]) (plus digit))).

(** The four structural patterns, each with its number of groups. *)
Definition item_patterns : list (regex * nat) :=
  [ (* ^ [\s]* ( \d+ ) [.):\-\s]+ ( [^0-9]+? ) \s* [-\u2013:] \s*
       ( \d+ (?: [.,]\d+ )? ) \s* ( pieces?|pcs?|units?|each|nos?|sets?|qty )? *)
    (seq [Bol; star (set [CSpace]); Grp 1 (plus digit);
          plus (set [chr "."; chr ")"; chr ":"; chr "-"; CSpace]);
          Grp 2 (lazy_plus (nset [rng "0" "9"]));
          star space; set [chr "-"; CRange 0x2013 0x2013; chr ":"];
          star space; Grp 3 decimal_number; star space;
          opt (Grp 4 unit_words)], 4%nat);
    (* ^ [\s]* ( \d+ ) \s+ ( [^\t]+? ) \t+ \s* ( \d+ (?: [.,]\d+ )? ) \s*
       ( pieces?|pcs?|units? )? *)
    (seq [Bol; star (set [CSpace]); Grp 1 (plus digit); plus space;
          Grp 2 (lazy_plus (nset [CRange 9 9])); plus (set [CRange 9 9]);
          star space; Grp 3 decimal_number; star space;
          opt (Grp 4 unit_words_short)], 4%nat);
    (* ^ [\s]* ( \d+ ) [.)\s]+ ( .+? ) \s+ ( \d+ ) \s*
       ( pieces?|pcs?|units?|each|nos?|sets?|qty )? [\s]* $ *)
    (seq [Bol; star (set [CSpace]); Grp 1 (plus digit);
          plus (set [chr "."; chr ")"; CSpace]);
          Grp 2 (lazy_plus dot); plus space; Grp 3 (plus digit); star space;
          opt (Grp 4 unit_words); star (set [CSpace]); Eol], 4%nat);
    (* ^ [\s]* ( \d+ ) \s* \|? \s* ( [A-Z] [A-Za-z\s\d\-\./]+ ) \s+
       (?: PFS|VIAL|AMP|TAB|CAP|TUBE|BTL|BOX|PKT|SET|UNIT|PCE ) \s+
       ( \d+ [\d,]* ) *)
    (seq [Bol; star (set [CSpace]); Grp 1 (plus digit); star space;
          opt (set [chr "|"]); star space;
          Grp 2 (Seq (set [rng "A" "Z"])
                     (plus (set [rng "A" "Z"; rng "a" "z"; CSpace; CDigit;
                                 chr "-"; chr "."; chr "/"])));
          plus space;
          alt (map word ["PFS"; "VIAL"; "AMP"; "TAB"; "CAP"; "TUBE"; "BTL";
                         "BOX"; "PKT"; "SET"; "UNIT"; "PCE"]%string);
          plus space;
          Grp 3 (Seq (plus digit) (star (set [CDigit; chr ","])))], 3%nat) ].

(** ( .{10,}? ) \s+ ( \d+ ) \s* ( pieces?|pcs?|units?|each|nos?|sets?|qty ) \s* $ *)
Definition fallback_pattern : regex :=
  seq [Grp 1 (lazy_atleast 10 dot); plus space; Grp 2 (plus digit);
       star space; Grp 3 unit_words; star space; Eol].

(** [^[\d\s\-\.]+] *)
Definition leading_remnants : regex :=
  seq [Bol; plus (set [CDigit; CSpace; chr "-"; chr "."])].

(** [[^\d.,]] *)
Definition not_quantity_char : regex := nset [CDigit; chr "."; chr ","].

Definition spec_patterns : list regex :=
  [ (* (?: Technical\s* )? Specifications? [:\s]* ( .+? ) (?: Terms|Conditions|Notes|\Z ) *)
    seq [opt (Seq (word "Technical") (star space)); word "Specification";
         opt (word "s"); label_tail; Grp 1 (lazy_plus dotall);
         alt [word "Terms"; word "Conditions"; word "Notes"; Eos]];
    (* Requirements? [:\s]* ( .+? ) (?: Terms|Notes|\Z ) *)
    seq [word "Requirement"; opt (word "s"); label_tail;
         Grp 1 (lazy_plus dotall); alt [word "Terms"; word "Notes"; Eos]];
    (* Description [:\s]* ( .+? ) (?: Quantity|Terms|\Z ) *)
    seq [word "Description"; label_tail; Grp 1 (lazy_plus dotall);
         alt [word "Quantity"; word "Terms"; Eos]] ].

Section Parser.
Variable U : Unicode.

(** *** detect_language *)

Record lang_info : Type := {
  li_language : language_tag;
  li_arabic_ratio : Q;
  li_has_arabic : bool
}.

Definition arabic_chars (text : str) : nat :=
  length (findall0 U false arabic_pattern text).
Definition total_chars (text : str) : nat :=
  length (re_sub U false spaces [] text).

(** [a / t] for character counts, [t > 0].  The quotient is kept exact;
    the source rounds it to a double, which compares with 0.3 and 0.05 in
    the same way for any text shorter than 10^15 characters. *)
Definition ratio (a t : nat) : Q := Z.of_nat a # Pos.of_nat t.

Definition Qgtb (x y : Q) : bool := negb (Qle_bool x y).

Definition detect_language (text : str) : lang_info :=
  let a := arabic_chars text in
  let t := total_chars text in
  if Nat.eqb t 0 then
    {| li_language := Unknown; li_arabic_ratio := 0; li_has_arabic := false |}
  else
    let arabic_ratio := ratio a t in
    let primary_language :=
      if Qgtb arabic_ratio (3 # 10) then Arabic
      else if Qgtb arabic_ratio (5 # 100) then Mixed
      else English in
    {| li_language := primary_language;
       li_arabic_ratio := arabic_ratio;
       li_has_arabic := Nat.ltb 0 a |}.

(** *** extract_reference_number *)

(** The loop [for pattern in patterns: m = re.search(...); if m: return f m]. *)
Fixpoint first_search (ps : list regex) (text : str) : option rmatch_obj :=
  match ps with
  | [] => None
  | p :: r =>
      match re_search U true p text with
      | Some m => Some m
      | None => first_search r text
      end
  end.

Definition filename_reference (filename : str) : option str :=
  match filename with
  | [] => None
  | _ =>
      match re_search U false filename_pattern filename with
      | Some m => Some (group_str m 1)
      | None => None
      end
  end.

Definition text_reference (text : str) : str :=
  match first_search reference_patterns text with
  | Some m => upper U (group_str m 1)
  | None => []
  end.

Definition extract_reference_number (text filename : str) : str :=
  match filename_reference filename with
  | Some r => r
  | None => text_reference text
  end.

(** *** extract_closing_date, extract_posting_date *)

(** [s.replace('-', '/').replace('.', '/')] *)
Definition normalize_date (s : str) : str :=
  replace_char 46 47 (replace_char 45 47 s).

(** [matches[-1] if len(matches) > 1 else matches[0]] *)
Definition pick_date (matches : list str) : str :=
  if Nat.ltb 1 (length matches) then last matches [] else hd [] matches.

Fixpoint closing_loop (ps : list regex) (text : str) : str :=
  match ps with
  | [] => []
  | p :: r =>
      match findall1 U true p text with
      | [] => closing_loop r text
      | matches => normalize_date (pick_date matches)
      end
  end.

Definition extract_closing_date (text : str) : str :=
  closing_loop closing_patterns text.

Definition extract_posting_date (text : str) : str :=
  match first_search posting_patterns text with
  | Some m => normalize_date (group_str m 1)
  | None => hd [] (findall1 U false bare_date text)
  end.

(** *** is_garbage_line *)

Definition is_garbage_line (line : str) : bool :=
  let line_lower := strip (lower U line) in
  if existsb (fun p => match re_match U false p line_lower with
                       | Some _ => true | None => false end)
             garbage_patterns
  then true
  else if Nat.ltb (length (strip line)) 5 then true
  else match re_match U false digits_punct_line line with
       | Some _ => true
       | None => false
       end.

(** *** extract_items *)

(** [match.groups()] of a pattern with [n] groups. *)
Definition groups (m : rmatch_obj) (n : nat) : list (option str) :=
  map (group m) (List.seq 1 n).

Definition opt_str (o : option str) : str :=
  match o with Some v => v | None => [] end.

(** The loop over [item_patterns] up to its [break]: the groups of the
    first pattern that matches the line. *)
Fixpoint first_item_match (ps : list (regex * nat)) (line : str)
    : option (list (option str)) :=
  match ps with
  | [] => None
  | (p, n) :: r =>
      match re_match U true p line with
      | Some m => Some (groups m n)
      | None => first_item_match r line
      end
  end.

(** What a structural match appends, with the value of [int(item_no)];
    [None] when no pattern matches or the cleaned description is too
    short. *)
Definition structural_item (line : str) : option (TenderItem * N) :=
  match first_item_match item_patterns line with
  | None => None
  | Some gs =>
      let item_no := opt_str (nth 0 gs None) in
      let description :=
        if Nat.ltb 1 (length gs) then strip (opt_str (nth 1 gs None))
        else [] in
      let quantity :=
        if Nat.ltb 2 (length gs) then opt_str (nth 2 gs None) else [] in
      let unit :=
        match (if Nat.ltb 3 (length gs) then nth 3 gs None else None) with
        | Some (x :: r) => x :: r
        | _ => lit "units"
        end in
      let description := strip (re_sub U false spaces (lit " ") description) in
      let description := re_sub U false leading_remnants [] description in
      let quantity :=
        match quantity with
        | [] => []
        | _ => re_sub U false not_quantity_char [] quantity
        end in
      if Nat.ltb 3 (length description) then
        let lang_info := detect_language description in
        Some ({| item_number := item_no;
                 description := firstn 500 description;
                 quantity := quantity;
                 unit_ := match unit with
                          | [] => lit "units"
                          | _ => lower U unit
                          end;
                 specifications := [];
                 language := li_language lang_info;
                 has_arabic := li_has_arabic lang_info |},
              int_of_str U item_no)
      else None
  end.

(** What the trailing-quantity fallback finds on a line: description,
    quantity and unit, when the pattern matches and the description
    passes its checks. *)
Definition fallback_parts (line : str) : option (str * str * str) :=
  match re_search U true fallback_pattern line with
  | None => None
  | Some qty_match =>
      let description := strip (group_str qty_match 1) in
      let quantity := group_str qty_match 2 in
      let unit := group_str qty_match 3 in
      if Nat.ltb 5 (length description) && negb (is_garbage_line description)
      then Some (description, quantity, unit)
      else None
  end.

(** The two variables the line loop updates. *)
Record scan_state : Type := {
  st_items : list TenderItem;
  current_item_number : N
}.

Definition scan_init : scan_state :=
  {| st_items := []; current_item_number := 0 |}.

Definition structural_step (st : scan_state) (line : str) : scan_state :=
  match structural_item line with
  | Some (it, n) =>
      {| st_items := st_items st ++ [it]; current_item_number := n |}
  | None => st
  end.

(** [not items or current_item_number == 0] *)
Definition fallback_guard (st : scan_state) : bool :=
  match st_items st with [] => true | _ => false end
  || (current_item_number st =? 0).

Definition fallback_item (n : N) (parts : str * str * str) : TenderItem :=
  let '(description, quantity, unit) := parts in
  let lang_info := detect_language description in
  {| item_number := str_of_N n;
     description := firstn 500 description;
     quantity := quantity;
     unit_ := lower U unit;
     specifications := [];
     language := li_language lang_info;
     has_arabic := li_has_arabic lang_info |}.

Definition fallback_step (st : scan_state) (line : str) : scan_state :=
  if fallback_guard st then
    match fallback_parts line with
    | Some parts =>
        let n := current_item_number st + 1 in
        {| st_items := st_items st ++ [fallback_item n parts];
           current_item_number := n |}
    | None => st
    end
  else st.

(** One iteration of [for line in lines]. *)
Definition scan_line (st : scan_state) (raw : str) : scan_state :=
  let line := strip raw in
  if is_garbage_line line then st
  else if Nat.ltb (length line) 5 then st
  else fallback_step (structural_step st line) line.

Definition scan_lines (st : scan_state) (lines : list str) : scan_state :=
  fold_left scan_line lines st.

(** The dedup key [item.description.lower()[:100]]. *)
Definition dedup_key (it : TenderItem) : str :=
  firstn 100 (lower U (description it)).

Definition seen_mem (key : str) (seen : list str) : bool :=
  existsb (str_eqb key) seen.

(** One iteration of the dedup loop over [(unique_items, seen)]. *)
Definition dedup_step (acc : list TenderItem * list str) (it : TenderItem)
    : list TenderItem * list str :=
  let '(unique_items, seen) := acc in
  let key := dedup_key it in
  if seen_mem key seen then acc
  else (unique_items ++ [it], key :: seen).

Definition remove_duplicates (its : list TenderItem) : list TenderItem :=
  fst (fold_left dedup_step its ([], [])).

(** The items before the dedup pass. *)
Definition scanned_items (text : str) : list TenderItem :=
  st_items (scan_lines scan_init (split_on 10 text)).

Definition extract_items (text : str) : list TenderItem :=
  remove_duplicates (scanned_items text).

(** *** extract_specifications *)

Fixpoint spec_loop (ps : list regex) (text : str) : str :=
  match ps with
  | [] => []
  | p :: r =>
      match re_search U true p text with
      | Some m =>
          let specs := strip (group_str m 1) in
          let specs := re_sub U false spaces (lit " ") specs in
          if Nat.ltb 50 (length specs) then firstn 2000 specs
          else spec_loop r text
      | None => spec_loop r text
      end
  end.

Definition extract_specifications (text : str) : str :=
  spec_loop spec_patterns text.
End Parser.
End TenderParser.

(** ** Effects: external calls that may raise *)

Module Eff.

(** A raised [Exception], with its [str(e)]. *)
Inductive exn : Type := Exception (message : str).

Definition message_of (e : exn) : str :=
  match e with Exception m => m end.

(** A computation over a state [S] (here: the log of external calls) that
    returns a value or raises. *)
Definition M (S A : Type) : Type := S -> S * (exn + A).

Definition ret {S A} (a : A) : M S A := fun s => (s, inr a).
Definition raise {S A} (e : exn) : M S A := fun s => (s, inl e).
Definition bind {S A B} (m : M S A) (f : A -> M S B) : M S B :=
  fun s =>
    match m s with
    | (s', inr a) => f a s'
    | (s', inl e) => (s', inl e)
    end.
(** [try: m except Exception as e: h e] *)
Definition catch {S A} (m : M S A) (h : exn -> M S A) : M S A :=
  fun s =>
    match m s with
    | (s', inl e) => h e s'
    | r => r
    end.
(** An external call: logged, then its outcome. *)
Definition call {C A} (c : C) (outcome : exn + A) : M (list C) A :=
  fun log => (log ++ [c], outcome).
Definition lift {S A} (r : exn + A) : M S A := fun s => (s, r).

Declare Scope eff_scope.
Delimit Scope eff_scope with eff.
Notation "x <- c ;; k" := (bind c (fun x => k))
  (at level 61, c at next level, right associativity) : eff_scope.
Notation "' p <- c ;; k" := (bind c (fun x => let 'p := x in k))
  (at level 61, p pattern, c at next level, right associativity) : eff_scope.

End Eff.

(** ** The item scan with the interpreter's limit on [int()]

    [int(s)] raises ValueError when [s] has more digits than
    [sys.get_int_max_str_digits()]: 4300 unless the interpreter was
    configured otherwise, never less than 640, and no limit at all when it is
    set to 0 or the interpreter is older than the limit.  Every digit
    counts, leading zeros and non-ASCII digits included.  The functions of
    [TenderParser] give what the scan computes when every [int(item_no)] is
    accepted; here the loop of [extract_items] is written again with the
    refusal, which leaves the loop and the function. *)

Module Checked.
Import Eff TenderParser.

(** [sys.int_info.default_max_str_digits] *)
Definition DEFAULT_MAX_STR_DIGITS : nat := 4300.

(** The text of the ValueError. *)
Definition int_limit_message (limit digits : nat) : str :=
  lit "Exceeds the limit (" ++ str_of_N (N.of_nat limit) ++
  lit " digits) for integer string conversion: value has " ++
  str_of_N (N.of_nat digits) ++
  lit " digits; use sys.set_int_max_str_digits() to increase the limit".

Section Scan.
Variable max_str_digits : option nat.
Variable U : Unicode.

(** [int(s)] on a string of decimal digits. *)
Definition int (s : str) : exn + N :=
  match max_str_digits with
  | Some limit =>
      if Nat.ltb limit (length s)
      then inl (Exception (int_limit_message limit (length s)))
      else inr (int_of_str U s)
  | None => inr (int_of_str U s)
  end.

(** The loop over [item_patterns] on one line: the item is appended, then
    [current_item_number = int(item_no)]; the item number of the appended
    item is [item_no] itself. *)
Definition structural_step (st : scan_state) (line : str)
    : exn + scan_state :=
  match structural_item U line with
  | Some (it, _) =>
      match int (item_number it) with
      | inr n =>
          inr {| st_items := st_items st ++ [it]; current_item_number := n |}
      | inl e => inl e
      end
  | None => inr st
  end.

(** One iteration of [for line in lines]. *)
Definition scan_line (st : scan_state) (raw : str) : exn + scan_state :=
  let line := strip raw in
  if is_garbage_line U line then inr st
  else if Nat.ltb (length line) 5 then inr st
  else match structural_step st line with
       | inr st' => inr (fallback_step U st' line)
       | inl e => inl e
       end.

Fixpoint scan_lines (st : scan_state) (lines : list str)
    : exn + scan_state :=
  match lines with
  | [] => inr st
  | raw :: rest =>
      match scan_line st raw with
      | inr st' => scan_lines st' rest
      | inl e => inl e
      end
  end.

Definition extract_items (text : str) : exn + list TenderItem :=
  match scan_lines scan_init (split_on 10 text) with
  | inr st => inr (remove_duplicates U (st_items st))
  | inl e => inl e
  end.
End Scan.
End Checked.

(** ** OCREngine *)

Module OCRConfig.
Definition DEFAULT_LANGUAGES : list str := [lit "eng"; lit "ara"].
Definition DEFAULT_DPI : Z := 300.
Definition MAX_PAGES : Z := 10.
End OCRConfig.

(** [x or default] on an optional integer argument. *)
Definition or_default (x : option Z) (d : Z) : Z :=
  match x with
  | Some v => if (v =? 0)%Z then d else v
  | None => d
  end.

Module OCREngine.
Import Eff.
Local Open Scope eff_scope.

(** A confidence cell of the recognizer's table: an integer, or a value
    that [int()] rejects. *)
Inductive conf_value : Type := ConfInt (z : Z) | ConfBad.

(** The table returned by [pytesseract.image_to_data]. *)
Record ocr_data : Type := { od_text : list str; od_conf : list conf_value }.

Section Engine.
Variable image : Type.

(** The external collaborators: the file system, the rasterizer
    ([pdf2image]), the image library (the chain of calls in
    [preprocess_image]), the recognizer, the clock, what the engine's
    constructor does ([os.makedirs], locating the binary), and the
    interpreter's limit on the digits of [int()] ([None]: no limit). *)
Record World : Type := {
  path_exists : str -> bool;
  convert_from_path : str -> Z -> Z -> Z -> exn + list image;
  pil_preprocess : image -> exn + image;
  image_to_data : image -> str -> exn + ocr_data;
  now_isoformat : str;
  engine_setup : exn + unit;
  dependencies_ready : bool;
  int_max_str_digits : option nat
}.

Inductive ext_call : Type :=
| CallExists (path : str)
| CallConvert (path : str) (dpi first_page last_page : Z)
| CallPreprocess (img : image)
| CallRecognize (img : image) (lang : str)
| CallNow
| CallSetup
| CallCheckDeps.

Definition Run (A : Type) : Type := M (list ext_call) A.

Variable W : World.

(** The attributes set by [__init__]. *)
Record engine : Type := { languages : list str; dpi : Z; lang_str : str }.

Definition engine_of (langs : option (list str)) (d : option Z) : engine :=
  let languages := match langs with
                   | Some (l :: r) => l :: r
                   | _ => OCRConfig.DEFAULT_LANGUAGES
                   end in
  {| languages := languages;
     dpi := or_default d OCRConfig.DEFAULT_DPI;
     lang_str := join (lit "+") languages |}.

(** [__init__]: the set-up calls, then the attributes. *)
Definition make_engine (langs : option (list str)) (d : option Z)
    : Run engine :=
  _ <- call CallSetup (engine_setup W) ;;
  ret (engine_of langs d).

Definition preprocess_image (img : image) : Run image :=
  call (CallPreprocess img) (pil_preprocess W img).

(** [int(ocr_data['conf'][j])] *)
Definition conf_at (d : ocr_data) (j : nat) : exn + Z :=
  match nth_error (od_conf d) j with
  | Some (ConfInt z) => inr z
  | Some ConfBad => inl (Exception (lit "invalid literal for int()"))
  | None => inl (Exception (lit "list index out of range"))
  end.

(** The loop over the words of one page. *)
Fixpoint page_words (d : ocr_data) (j : nat) (words : list str)
    (page_text : list str) (page_confidences : list Z)
    : exn + (list str * list Z) :=
  match words with
  | [] => inr (page_text, page_confidences)
  | word :: rest =>
      match conf_at d j with
      | inl e => inl e
      | inr conf =>
          if (0 <? conf)%Z && match strip word with [] => false | _ => true end
          then page_words d (S j) rest (page_text ++ [word])
                          (page_confidences ++ [conf])
          else page_words d (S j) rest page_text page_confidences
      end
  end.

(** [sum(l) / len(l)] *)
Definition mean_Z (l : list Z) : Q :=
  (inject_Z (fold_right Z.add 0%Z l) / inject_Z (Z.of_nat (length l)))%Q.
Definition mean_Q (l : list Q) : Q :=
  (fold_right Qplus 0%Q l / inject_Z (Z.of_nat (length l)))%Q.

(** The loop over the rasterized pages. *)
Fixpoint pages_loop (self : engine) (images : list image)
    (all_text : list str) (confidences : list Q)
    : Run (list str * list Q) :=
  match images with
  | [] => ret (all_text, confidences)
  | img :: rest =>
      processed_image <- preprocess_image img ;;
      data <- call (CallRecognize processed_image (lang_str self))
                   (image_to_data W processed_image (lang_str self)) ;;
      ' (page_text, page_confidences) <-
          lift (page_words data 0 (od_text data) [] []) ;;
      let confidences :=
        match page_confidences with
        | [] => confidences
        | _ => confidences ++ [mean_Z page_confidences]
        end in
      pages_loop self rest (all_text ++ [join (lit " ") page_text])
                 confidences
  end.

Definition PAGE_BREAK : str :=
  [10; 10] ++ lit "--- PAGE BREAK ---" ++ [10; 10].

(** The body of the [try] block. *)
Definition ocr_body (self : engine) (pdf_path : str) (max_pages : Z)
    : Run (str * Q) :=
  images <- call (CallConvert pdf_path (dpi self) 1 max_pages)
                 (convert_from_path W pdf_path (dpi self) 1 max_pages) ;;
  ' (all_text, confidences) <- pages_loop self images [] [] ;;
  let full_text := join PAGE_BREAK all_text in
  let avg_confidence :=
    match confidences with [] => 0%Q | _ => mean_Q confidences end in
  ret (full_text, avg_confidence).

Definition extract_text_from_pdf (self : engine) (pdf_path : str)
    (max_pages : option Z) : Run (str * Q) :=
  let max_pages := or_default max_pages OCRConfig.MAX_PAGES in
  found <- call (CallExists pdf_path) (inr (path_exists W pdf_path)) ;;
  if negb found then ret ([], 0%Q)
  else catch (ocr_body self pdf_path max_pages)
             (fun _ => ret ([], 0%Q)).

(** Processing the page raises: in the preprocessing, in the recognizer or in
    reading its table. *)
Definition page_raises (self : engine) (img : image) : Prop :=
  match pil_preprocess W img with
  | inl _ => True
  | inr processed =>
      match image_to_data W processed (lang_str self) with
      | inl _ => True
      | inr data =>
          match page_words data 0 (od_text data) [] [] with
          | inl _ => True
          | inr _ => False
          end
      end
  end.
End Engine.
End OCREngine.

(** ** TenderExtractor and the command line entry point *)

(** [os.path.basename]: what follows the last slash. *)
Definition basename (path : str) : str := last (split_on 47 path) [].

Module TenderExtractor.
Import Eff OCREngine.
Local Open Scope eff_scope.

Section Extractor.
Variable U : Unicode.
Variable image : Type.
Variable W : World image.

Definition FAILED_TO_EXTRACT : str := lit "Failed to extract text from PDF".

Definition process_pdf (self : engine) (pdf_path department : str)
    (max_pages : option Z) (include_raw_text : bool)
    : Run image TenderData :=
  let filename := basename pdf_path in
  ' (text, confidence) <- extract_text_from_pdf W self pdf_path max_pages ;;
  match text with
  | [] =>
      now <- call (CallNow image) (inr (now_isoformat W)) ;;
      ret {| reference_number :=
               TenderParser.extract_reference_number U [] filename;
             title := title default_data;
             closing_date := closing_date default_data;
             posting_date := posting_date default_data;
             department := department;
             items := items default_data;
             specifications_text := specifications_text default_data;
             items_count := items_count default_data;
             ocr_confidence := ocr_confidence default_data;
             source_files := [filename];
             extraction_timestamp := now;
             extraction_method := extraction_method default_data;
             td_language := td_language default_data;
             has_arabic_content := has_arabic_content default_data;
             raw_text := raw_text default_data;
             errors := [FAILED_TO_EXTRACT] |}
  | _ =>
      let lang_info := TenderParser.detect_language U text in
      its <- lift (Checked.extract_items (int_max_str_digits W) U text) ;;
      now <- call (CallNow image) (inr (now_isoformat W)) ;;
      ret {| reference_number :=
               TenderParser.extract_reference_number U text filename;
             title := title default_data;
             closing_date := TenderParser.extract_closing_date U text;
             posting_date := TenderParser.extract_posting_date U text;
             department := department;
             items := its;
             specifications_text :=
               TenderParser.extract_specifications U text;
             items_count := length its;
             ocr_confidence := confidence;
             source_files := [filename];
             extraction_timestamp := now;
             extraction_method := extraction_method default_data;
             td_language := TenderParser.li_language lang_info;
             has_arabic_content := TenderParser.li_has_arabic lang_info;
             raw_text := if include_raw_text then text else [];
             errors := errors default_data |}
  end.

(** The parsed command line. *)
Record cli_args : Type := {
  arg_file : option str;
  arg_department : str;
  arg_languages : str;
  arg_dpi : Z;
  arg_max_pages : Z;
  arg_include_text : bool;
  arg_check : bool
}.

(** The JSON object printed by [main]. *)
Inductive output : Type :=
| OutDeps (ready : bool)             (* the dependency report of --check *)
| OutFailure (error : str)           (* success false, with an error text *)
| OutSuccess (data : TenderData).    (* success true, with the record *)

(** The success key of the printed object, when it has one. *)
Definition success_flag (o : output) : option bool :=
  match o with
  | OutDeps _ => None
  | OutFailure _ => Some false
  | OutSuccess _ => Some true
  end.

(** [check_dependencies()['ready']], for a check that returns; the checks
    themselves are in [Dependencies]. *)
Definition check_dependencies : Run image bool :=
  call (CallCheckDeps image) (inr (dependencies_ready W)).

(** The engine [main] builds from the command line. *)
Definition cli_engine (args : cli_args) : engine :=
  engine_of (Some (split_on 44 (arg_languages args))) (Some (arg_dpi args)).

(** The [try] block of [main]; printing the object is taken not to fail. *)
Definition main_process (args : cli_args) (file : str)
    : Run image (output * Z) :=
  let langs := split_on 44 (arg_languages args) in
  extractor <- make_engine W (Some langs) (Some (arg_dpi args)) ;;
  result <- process_pdf extractor file (arg_department args)
                        (Some (arg_max_pages args)) (arg_include_text args) ;;
  ret (OutSuccess result, 0%Z).

(** [main] from the parsed command line on: the printed object and the
    exit code.  [CommandLine.main] follows the function from its first
    line. *)
Definition main (args : cli_args) : Run image (output * Z) :=
  if arg_check args then
    ready <- check_dependencies ;;
    ret (OutDeps ready, if ready then 0%Z else 1%Z)
  else
    ready <- check_dependencies ;;
    if negb ready then ret (OutFailure (lit "Missing dependencies"), 1%Z)
    else
      match arg_file args with
      | None | Some [] =>
          ret (OutFailure
                 (lit "No file specified. Use --file /path/to/pdf.pdf"), 1%Z)
      | Some file =>
          found <- call (CallExists image file) (inr (path_exists W file)) ;;
          if negb found
          then ret (OutFailure (lit "File not found: " ++ file), 1%Z)
          else catch (main_process args file)
                     (fun e => ret (OutFailure (message_of e), 1%Z))
      end.
End Extractor.
End TenderExtractor.

(** ** Dependency checks *)

Module Dependencies.
Import Eff.

(** How a [subprocess.run] ends. *)
Inductive run_outcome : Type :=
| Completed (returncode : Z)
| FileNotFound                  (* FileNotFoundError *)
| SubprocessFailed              (* subprocess.SubprocessError *)
| OtherFailure (e : exn).       (* any other exception *)

Section Checks.
(** The environment: the configured path, running a binary with its version
    flag, running pdftoppm, and whether the imports succeeded. *)
Record Env : Type := {
  TESSERACT_PATH : str;
  run_version : str -> run_outcome;
  run_pdftoppm : run_outcome;
  DEPENDENCIES_AVAILABLE : bool;
  MISSING_DEPENDENCY : str
}.

Variable E : Env.

Definition candidate_paths : list str :=
  [TESSERACT_PATH E;
   lit "/opt/homebrew/bin/tesseract";
   lit "/usr/local/bin/tesseract";
   lit "/usr/bin/tesseract";
   lit "tesseract"].

(** The loop of [find_tesseract]. *)
Fixpoint find_in (paths : list str) : exn + option str :=
  match paths with
  | [] => inr None
  | path :: rest =>
      match run_version E path with
      | Completed code => if (code =? 0)%Z then inr (Some path) else find_in rest
      | FileNotFound | SubprocessFailed => find_in rest
      | OtherFailure e => inl e
      end
  end.

Definition find_tesseract : exn + option str := find_in candidate_paths.

Definition check_poppler : exn + bool :=
  match run_pdftoppm E with
  | Completed _ => inr true
  | FileNotFound => inr false
  | SubprocessFailed => inl (Exception (lit "SubprocessError"))
  | OtherFailure e => inl e
  end.

(** The dictionary returned by [check_dependencies]. *)
Record report : Type := {
  python_packages : bool;
  missing_package : option str;
  tesseract_available : bool;
  tesseract_path : option str;
  poppler_available : bool;
  ready : bool
}.

Definition check_dependencies : exn + report :=
  match find_tesseract with
  | inl e => inl e
  | inr found =>
      let has_tesseract := match found with Some _ => true | None => false end in
      match check_poppler with
      | inl e => inl e
      | inr poppler =>
          (* the second call of check_poppler, made only when reached *)
          match (if DEPENDENCIES_AVAILABLE E && has_tesseract
                 then check_poppler else inr false) with
          | inl e => inl e
          | inr poppler_again =>
              inr {| python_packages := DEPENDENCIES_AVAILABLE E;
                     missing_package :=
                       if DEPENDENCIES_AVAILABLE E then None
                       else Some (MISSING_DEPENDENCY E);
                     tesseract_available := has_tesseract;
                     tesseract_path := found;
                     poppler_available := poppler;
                     ready := DEPENDENCIES_AVAILABLE E && has_tesseract
                              && poppler_again |}
          end
      end
  end.
End Checks.
End Dependencies.

(** ** The command line entry point, from its first line

    [TenderExtractor.main] is [main] from the parsed command line on, for a
    dependency check that returns and a standard output that takes every
    object.  Here [main] is followed from [parse_args]: parsing may leave the
    program, [check_dependencies] may raise, and so may [print]. *)

Module CommandLine.
Import Eff OCREngine TenderExtractor.
Local Open Scope eff_scope.

(** How [parser.parse_args()] ends: with the arguments, or by leaving the
    program, with status 0 after the help text and with status 2 after a
    command line it refuses. *)
Inductive parse_outcome : Type :=
| Parsed (args : cli_args)
| HelpShown
| UsageError.

(** The JSON objects [main] prints. *)
Inductive printed : Type :=
| Report (deps : Dependencies.report)               (* --check *)
| MissingDependencies (details : Dependencies.report)
| Failure (error : str)
| Success (data : TenderData).

(** How the program ends: [main] returns, [sys.exit(code)] is reached, or an
    exception leaves [main]. *)
Inductive ending : Type :=
| Returned
| Exited (code : Z)
| Uncaught (e : exn).

(** The exit status of the interpreter. *)
Definition exit_status (fin : ending) : Z :=
  match fin with
  | Returned => 0
  | Exited code => code
  | Uncaught _ => 1
  end.


(** The object as [TenderExtractor.main] tells it. *)
Definition summary (o : printed) : output :=
  match o with
  | Report deps => OutDeps (Dependencies.ready deps)
  | MissingDependencies _ => OutFailure (lit "Missing dependencies")
  | Failure error => OutFailure error
  | Success data => OutSuccess data
  end.

Section Main.
Variable U : Unicode.
Variable image : Type.
Variable W : World image.
Variable E : Dependencies.Env.
(** [print(json.dumps(o))]: the object is written, or an exception is
    raised and nothing counts as written. *)
Variable print : printed -> exn + unit.

Definition outcome : Type := (list printed * ending)%type.

(** [print(json.dumps(o))] outside the [try], then the end [fin]. *)
Definition print_then (o : printed) (fin : ending) : outcome :=
  match print o with
  | inr _ => ([o], fin)
  | inl e => ([], Uncaught e)
  end.

(** [deps = check_dependencies()], outside the [try]. *)
Definition with_dependencies (log : list (ext_call image))
    (k : list (ext_call image) -> Dependencies.report ->
         list (ext_call image) * outcome)
    : list (ext_call image) * outcome :=
  let log := log ++ [CallCheckDeps image] in
  match Dependencies.check_dependencies E with
  | inr deps => k log deps
  | inl e => (log, ([], Uncaught e))
  end.

(** The [try] block up to its [print]. *)
Definition process (args : cli_args) (file : str) : Run image TenderData :=
  let langs := split_on 44 (arg_languages args) in
  extractor <- make_engine W (Some langs) (Some (arg_dpi args)) ;;
  process_pdf U W extractor file (arg_department args)
              (Some (arg_max_pages args)) (arg_include_text args).

Definition main (argv : parse_outcome) (log : list (ext_call image))
    : list (ext_call image) * outcome :=
  match argv with
  | HelpShown => (log, ([], Exited 0))
  | UsageError => (log, ([], Exited 2))
  | Parsed args =>
      if arg_check args then
        with_dependencies log (fun log deps =>
          (log,
           print_then (Report deps)
                      (Exited (if Dependencies.ready deps then 0 else 1))))
      else
        with_dependencies log (fun log deps =>
          if negb (Dependencies.ready deps) then
            (log, print_then (MissingDependencies deps) (Exited 1))
          else
            match arg_file args with
            | None | Some [] =>
                (log,
                 print_then
                   (Failure
                      (lit "No file specified. Use --file /path/to/pdf.pdf"))
                   (Exited 1))
            | Some file =>
                let log := log ++ [CallExists image file] in
                if negb (path_exists W file) then
                  (log,
                   print_then (Failure (lit "File not found: " ++ file))
                              (Exited 1))
                else
                  match process args file log with
                  | (log, inr result) =>
                      match print (Success result) with
                      | inr _ => (log, ([Success result], Returned))
                      | inl e =>
                          (log,
                           print_then (Failure (message_of e)) (Exited 1))
                      end
                  | (log, inl e) =>
                      (log, print_then (Failure (message_of e)) (Exited 1))
                  end
            end)
  end.
End Main.
End CommandLine.

(** ** The image text service (rapidocr_service.py) *)

Module RapidOCR.
Import Eff.
Local Open Scope eff_scope.

Section Service.
Variables image bytes box elapse : Type.

(** An entry of the boxes list: text, confidence and box. *)
Record box_entry : Type := {
  be_text : str;
  be_confidence : Q;
  be_box : box
}.

(** The values stored in the returned dictionary. *)
Inductive jvalue : Type :=
| JBool (b : bool)
| JStr (s : str)
| JBoxes (l : list box_entry)
| JElapse (e : elapse).

(** A dictionary, in insertion order. *)
Definition dict : Type := list (string * jvalue).

Fixpoint dict_get (d : dict) (key : string) : option jvalue :=
  match d with
  | [] => None
  | (k, v) :: r => if String.eqb k key then Some v else dict_get r key
  end.

(** The external collaborators: base64, the image library and the
    recognizer, which returns [(result, elapse)] with [result] absent or
    a list of [(box, text, confidence)]. *)
Record World : Type := {
  b64decode : str -> exn + bytes;
  image_open : bytes -> exn + image;
  image_mode : image -> str;
  image_width : image -> Z;
  image_height : image -> Z;
  image_convert : image -> str -> exn + image;
  image_crop : image -> Z * Z * Z * Z -> exn + image;
  ocr_engine : image -> exn + (option (list (box * str * Q)) * elapse)
}.

Variable W : World.

Definition Run (A : Type) : Type := M unit A.

(** [region.get(key, default)] *)
Fixpoint region_get (region : list (string * Z)) (key : string) (d : Z) : Z :=
  match region with
  | [] => d
  | (k, v) :: r => if String.eqb k key then v else region_get r key d
  end.

(** Everything before the recognizer is called. *)
Definition prepare_image (image_data_base64 : str)
    (region : option (list (string * Z))) : Run image :=
  image_bytes <- lift (b64decode W image_data_base64) ;;
  img <- lift (image_open W image_bytes) ;;
  img <- (if str_eqb (image_mode W img) (lit "RGB") then ret img
          else lift (image_convert W img (lit "RGB"))) ;;
  match region with
  | Some ((k0, v0) :: r0) =>
      let region := (k0, v0) :: r0 in
      let x := region_get region "x" 0%Z in
      let y := region_get region "y" 0%Z in
      let width := region_get region "width" (image_width W img) in
      let height := region_get region "height" (image_height W img) in
      lift (image_crop W img (x, y, x + width, y + height)%Z)
  | _ => ret img
  end.

Definition make_box (item : box * str * Q) : box_entry :=
  let '(b, text, confidence) := item in
  {| be_text := text; be_confidence := confidence; be_box := b |}.

Definition failure (error : str) : dict :=
  [("success"%string, JBool false);
   ("text"%string, JStr []);
   ("boxes"%string, JBoxes []);
   ("error"%string, JStr error)].

Definition extract_text_from_image (image_data_base64 : str)
    (region : option (list (string * Z))) : Run dict :=
  catch
    (img <- prepare_image image_data_base64 region ;;
     ' (result, elapsed) <- lift (ocr_engine W img) ;;
     match result with
     | None | Some [] => ret (failure (lit "No text detected"))
     | Some res =>
         let full_text := map (fun it => snd (fst it)) res in
         let boxes := map make_box res in
         ret [("success"%string, JBool true);
              ("text"%string, JStr (join [10] full_text));
              ("boxes"%string, JBoxes boxes);
              ("processing_time_ms"%string, JElapse elapsed)]
     end)
    (fun e => ret (failure (message_of e))).

(** What [main] reads from standard input: the parsed object's image and
    region entries (absent entries are [None]). *)
Record request : Type := {
  req_image : option str;
  req_region : option (list (string * Z))
}.

(** What [main] prints: the dictionary of [extract_text_from_image], or an
    error object with success false. *)
Inductive main_output : Type :=
| PrintedResult (d : dict)
| PrintedError (error : str).

(** [main]: the printed object and the exit code.  [stdin_json] is the
    outcome of reading and parsing the input, [dumps] tells whether a
    dictionary can be serialized. *)
Definition service_main (stdin_json : exn + request)
    (dumps : dict -> exn + unit) : main_output * Z :=
  match stdin_json with
  | inl e => (PrintedError (message_of e), 1%Z)
  | inr input_data =>
      match req_image input_data with
      | None | Some [] => (PrintedError (lit "No image data provided"), 1%Z)
      | Some image_data =>
          match extract_text_from_image image_data (req_region input_data) tt
          with
          | (_, inl e) => (PrintedError (message_of e), 1%Z)
          | (_, inr result) =>
              match dumps result with
              | inl e => (PrintedError (message_of e), 1%Z)
              | inr _ => (PrintedResult result, 0%Z)
              end
          end
      end
  end.
End Service.
End RapidOCR.

(** ** Notions used in the statements *)

(** Tables that know nothing beyond ASCII: enough to run the parser on
    ASCII text, where no table is consulted. *)
Definition ascii_tables : Unicode :=
  {| uni_decimal := fun _ => false;
     uni_digit_val := fun _ => 0;
     uni_alnum := fun _ => false;
     uni_variants := fun _ => [];
     uni_lower := fun s => s;
     uni_upper := fun s => s |}.

(** A character of one of the five Arabic blocks. *)
Definition is_arabic (c : N) : bool :=
  in_range 0x0600 0x06FF c || in_range 0x0750 0x077F c
  || in_range 0x08A0 0x08FF c || in_range 0xFB50 0xFDFF c
  || in_range 0xFE70 0xFEFF c.

Definition non_space (c : N) : bool := negb (is_space c).

Definition count (p : N -> bool) (s : str) : nat := length (filter p s).

(** The number of leading characters of [s] that satisfy [p]. *)
Fixpoint run_length (p : N -> bool) (s : str) : nat :=
  match s with
  | c :: r => if p c then S (run_length p r) else O
  | [] => O
  end.

(** [sub] is obtained from [l] by dropping elements, order kept. *)
Inductive subseq {A : Type} : list A -> list A -> Prop :=
| subseq_nil : subseq [] []
| subseq_drop x sub l : subseq sub l -> subseq sub (x :: l)
| subseq_keep x sub l : subseq sub l -> subseq (x :: sub) (x :: l).


(** The first non-empty list of a sequence of lists. *)
Fixpoint first_nonempty {A : Type} (ls : list (list A)) : option (list A) :=
  match ls with
  | [] => None
  | [] :: r => first_nonempty r
  | l :: _ => Some l
  end.

(** What the line scan of [extract_items] appends, line by line, told
    without the loop's variables: from the items appended so far and what the
    patterns find on the line. *)
Module Trace.
Import TenderParser.






Section Scan.
Variable U : Unicode.

(** The line reaches the patterns (it is not skipped). *)
Definition line_active (raw : str) : bool :=
  let line := strip raw in
  negb (is_garbage_line U line) && negb (Nat.ltb (length line) 5).








(** The first 100 characters of the lower-cased description of an item. *)
Definition lowercase_prefix (it : TenderItem) : str :=
  firstn 100 (lower U (description it)).

(** The first item of [its] whose lower-cased description prefix is [k]. *)
Definition first_with_prefix (k : str) (its : list TenderItem)
    : option TenderItem :=
  find (fun it => str_eqb (lowercase_prefix it) k) its.

(** The dedup pass as a recursion: keep an item unless its key was seen. *)
Fixpoint keep_first (seen : list str) (its : list TenderItem)
    : list TenderItem :=
  match its with
  | [] => []
  | it :: r =>
      if seen_mem (dedup_key U it) seen then keep_first seen r
      else it :: keep_first (dedup_key U it :: seen) r
  end.

Definition has_key (k : str) (it : TenderItem) : bool :=
  str_eqb (dedup_key U it) k.
End Scan.
End Trace.

(** Inputs of the examples. *)
Module Examples.
Definition nl : str := [10].

Definition end_to_end_text : str :=
  lit "1. Surgical Gloves - 500 pieces" ++ nl ++
  lit "2. Syringes 10ml - 1000 units" ++ nl ++
  lit "Page 1 of 3" ++ nl.

Definition end_to_end_joined : str :=
  lit "1. Surgical Gloves - 500 pieces" ++ nl ++
  lit "2. Syringes 10ml - 1000 units" ++ nl ++
  lit "Page 1 of 3".

Definition english_item (number description quantity unit : string)
    : TenderItem :=
  {| item_number := lit number; description := lit description;
     quantity := lit quantity; unit_ := lit unit;
     specifications := []; language := English; has_arabic := false |}.

(** The four fields the end-to-end example lists for an item. *)
Definition listed_fields (it : TenderItem) : str * str * str * str :=
  (item_number it, description it, quantity it, unit_ it).



Definition two_closing_dates : str :=
  lit "Closing Date: 15/03/2025" ++ nl ++ lit "Closing Date: 20/03/2025".

Definition three_closing_dates : str :=
  two_closing_dates ++ nl ++ lit "Closing Date: 25/03/2025".

(** One date under the first label, then two under the second. *)
Definition mixed_labels : str :=
  lit "Closing Date: 15/03/2025" ++ nl ++ lit "closes on 20/03/2025" ++ nl ++
  lit "closes on 25/03/2025".


(** Two numbered lines whose descriptions agree on their first 100
    characters, case apart, and differ after them; and two whose
    descriptions differ in their character number 100. *)
Definition same_prefix_text : str :=
  lit "1. " ++ repeat 97 100 ++ lit " bandage - 5" ++ nl ++
  lit "2. " ++ repeat 65 100 ++ lit " plaster - 7".

Definition other_prefix_text : str :=
  lit "1. " ++ repeat 97 99 ++ lit "b bandage - 5" ++ nl ++
  lit "2. " ++ repeat 65 99 ++ lit "C plaster - 7".

Definition listed_items : list (str * str * str * str) :=
  [(lit "1", lit "Surgical Gloves", lit "500", lit "pieces");
   (lit "2", lit "Syringes 10ml", lit "1000", lit "units")].

Definition mostly_latin : str :=
  lit "The quick brown fox jumps" ++ [0x0627].
End Examples.

(** The record for a file whose text could not be extracted, and the same
    record with the timestamp left at its default. *)
Module ErrorRecord.

Definition error_record (U : Unicode) (now filename department : str)
    : TenderData :=
  {| reference_number :=
       match TenderParser.filename_reference U filename with
       | Some r => r
       | None => []
       end;
     title := title default_data;
     closing_date := closing_date default_data;
     posting_date := posting_date default_data;
     department := department;
     items := [];
     specifications_text := specifications_text default_data;
     items_count := 0;
     ocr_confidence := ocr_confidence default_data;
     source_files := [filename];
     extraction_timestamp := now;
     extraction_method := extraction_method default_data;
     td_language := td_language default_data;
     has_arabic_content := has_arabic_content default_data;
     raw_text := raw_text default_data;
     errors := [lit "Failed to extract text from PDF"] |}.

Definition untimed_error_record (U : Unicode) (filename department : str)
    : TenderData :=
  error_record U (extraction_timestamp default_data) filename department.

End ErrorRecord.

(** Worlds for the examples. *)
Module Worlds.
Import Eff.

Definition sample_path : str := lit "/data/25MS1234_tender.pdf".
Definition sample_time : str := lit "2025-03-01T10:00:00".

Definition empty_table : OCREngine.ocr_data :=
  {| OCREngine.od_text := []; OCREngine.od_conf := [] |}.

(** The file exists and the rasterizer raises. *)
Definition broken_pdf : OCREngine.World unit :=
  {| OCREngine.path_exists := fun _ => true;
     OCREngine.convert_from_path :=
       fun _ _ _ _ => inl (Exception (lit "Unable to get page count"));
     OCREngine.pil_preprocess := fun i => inr i;
     OCREngine.image_to_data := fun _ _ => inr empty_table;
     OCREngine.now_isoformat := sample_time;
     OCREngine.engine_setup := inr tt;
     OCREngine.dependencies_ready := true;
     OCREngine.int_max_str_digits := Some Checked.DEFAULT_MAX_STR_DIGITS |}.

(** The file does not exist. *)
Definition missing_pdf : OCREngine.World unit :=
  {| OCREngine.path_exists := fun _ => false;
     OCREngine.convert_from_path := fun _ _ _ _ => inr [tt];
     OCREngine.pil_preprocess := fun i => inr i;
     OCREngine.image_to_data := fun _ _ => inr empty_table;
     OCREngine.now_isoformat := sample_time;
     OCREngine.engine_setup := inr tt;
     OCREngine.dependencies_ready := true;
     OCREngine.int_max_str_digits := Some Checked.DEFAULT_MAX_STR_DIGITS |}.

(** One page is rasterized and the recognizer raises on it. *)
Definition broken_recognizer : OCREngine.World unit :=
  {| OCREngine.path_exists := fun _ => true;
     OCREngine.convert_from_path := fun _ _ _ _ => inr [tt];
     OCREngine.pil_preprocess := fun i => inr i;
     OCREngine.image_to_data :=
       fun _ _ => inl (Exception (lit "tesseract is not installed"));
     OCREngine.now_isoformat := sample_time;
     OCREngine.engine_setup := inr tt;
     OCREngine.dependencies_ready := true;
     OCREngine.int_max_str_digits := Some Checked.DEFAULT_MAX_STR_DIGITS |}.

Definition sample_engine : OCREngine.engine :=
  {| OCREngine.languages := OCRConfig.DEFAULT_LANGUAGES;
     OCREngine.dpi := 300;
     OCREngine.lang_str := lit "eng+ara" |}.

Definition sample_args : TenderExtractor.cli_args :=
  {| TenderExtractor.arg_file := Some sample_path;
     TenderExtractor.arg_department := lit "Biomedical Engineering";
     TenderExtractor.arg_languages := lit "eng,ara";
     TenderExtractor.arg_dpi := 300;
     TenderExtractor.arg_max_pages := 10;
     TenderExtractor.arg_include_text := false;
     TenderExtractor.arg_check := false |}.

(** An image on which the recognizer finds nothing. *)
Definition blank_image : RapidOCR.World unit unit unit unit :=
  {| RapidOCR.b64decode := fun _ => inr tt;
     RapidOCR.image_open := fun _ => inr tt;
     RapidOCR.image_mode := fun _ => lit "RGB";
     RapidOCR.image_width := fun _ => 100%Z;
     RapidOCR.image_height := fun _ => 50%Z;
     RapidOCR.image_convert := fun i _ => inr i;
     RapidOCR.image_crop := fun i _ => inr i;
     RapidOCR.ocr_engine := fun _ => inr (None, tt) |}.

End Worlds.

(** What a pattern can match, read off its syntax (anchors constrain the
    position, not the matched text), and what its groups can capture. *)
Module ReSemantics.
Import Re.

Section Denotation.
Variable U : Unicode.
Variable ic : bool.

Fixpoint denotes (r : regex) (w : str) : Prop :=
  match r with
  | Eps | Bol | Eol | Eos | WordB => w = []
  | Chr cs => exists x, w = [x] /\ cset_mem U ic cs x = true
  | Seq a b => exists w1 w2, w = w1 ++ w2 /\ denotes a w1 /\ denotes b w2
  | Alt a b => denotes a w \/ denotes b w
  | Rep _ lo hi a =>
      exists ws, w = concat ws /\ Forall (denotes a) ws /\
                 (lo <= length ws)%nat /\
                 match hi with
                 | Some h => (length ws <= h)%nat
                 | None => True
                 end
  | Grp _ a => denotes a w
  end.

(** [GL j] bounds what group [j] may hold. *)
Variable GL : nat -> str -> Prop.

Fixpoint groups_ok (r : regex) : Prop :=
  match r with
  | Seq a b | Alt a b => groups_ok a /\ groups_ok b
  | Rep _ _ _ a => groups_ok a
  | Grp j a => groups_ok a /\ (forall w, denotes a w -> GL j w)
  | _ => True
  end.

Definition caps_ok (c : caps) : Prop := forall j v, In (j, v) c -> GL j v.

(** What a sound matcher for [a] guarantees: the continuation is entered
    after a text that [a] denotes, with the groups within their bounds. *)
Definition sound_at (a : regex)
    (body : input -> caps -> cont -> option mres) : Prop :=
  forall s c k res,
    body s c k = Some res -> caps_ok c ->
    exists s' c' w,
      k s' c' = Some res /\ caps_ok c' /\
      after s = w ++ after s' /\ denotes a w.
End Denotation.

(** The position and the captures lie within [n] characters of the end of
    the subject, and what a matcher that keeps them there guarantees. *)
Definition within (n : nat) (s : input) (c : caps) : Prop :=
  (length (after s) <= n)%nat /\
  forall j v, In (j, v) c -> (length v <= n)%nat.

Definition bounded_at (n : nat)
    (body : input -> caps -> cont -> option mres) : Prop :=
  forall s c k res,
    body s c k = Some res -> within n s c ->
    exists s' c', k s' c' = Some res /\ within n s' c'.

(** The groups of a pattern, each with its body. *)
Fixpoint groups_in (r : regex) : list (nat * regex) :=
  match r with
  | Seq a b | Alt a b => groups_in a ++ groups_in b
  | Rep _ _ _ a => groups_in a
  | Grp j a => (j, a) :: groups_in a
  | _ => []
  end.
End ReSemantics.

(** Notions for the further properties. *)
Module Notions.
Import OCREngine.

(** A digit, a whitespace character, a hyphen, a dot or a comma. *)
Definition digits_punct_char (U : Unicode) (c : N) : bool :=
  is_digit U c || is_space c || (c =? 45) || (c =? 46) || (c =? 44).

(** Every integer cell of the recognizer's table is at most 100. *)
Definition cells_at_most_100 (d : ocr_data) : Prop :=
  forall z, In (ConfInt z) (od_conf d) -> (z <= 100)%Z.

(** The recognizer only returns such tables. *)
Definition recognizer_bounded (image : Type) (W : World image) : Prop :=
  forall img lang d, image_to_data W img lang = inr d -> cells_at_most_100 d.

(** The language the thresholds select for [a] Arabic characters among [t]
    non-whitespace characters, in integer arithmetic. *)
Definition language_by_counts (a t : nat) : language_tag :=
  if Nat.eqb t 0 then Unknown
  else if Nat.ltb (3 * t) (10 * a) then Arabic
  else if Nat.ltb t (20 * a) then Mixed
  else English.

(** The bounds of an emitted description. *)
Definition description_ok (it : TenderItem) : Prop :=
  (3 < length (description it) <= 500)%nat.

(** The scan holds no item yet, or exactly one with a non-zero counter. *)
Definition at_most_one (st : TenderParser.scan_state) : Prop :=
  st = TenderParser.scan_init \/
  (length (TenderParser.st_items st) = 1%nat /\
   TenderParser.current_item_number st <> 0).

(** The invariant of the page loop: a confidence has been recorded only if
    some page text is non-empty. *)
Definition text_behind_confidence (A : Type) (texts : list str) (cs : list A)
    : Prop :=
  cs <> [] -> exists t, In t texts /\ t <> [].

Definition conf_in_range (z : Z) : Prop := (0 < z <= 100)%Z.

(** The characters of a cleaned quantity; a digit or a slash; a digit or a
    capital ASCII letter. *)
Definition quantity_char (U : Unicode) (c : N) : bool :=
  is_digit U c || (c =? 46) || (c =? 44).
Definition date_char (U : Unicode) (c : N) : bool :=
  is_digit U c || (c =? 47).

(** A table whose case equivalents never include a slash, a hyphen or a
    dot (no character is a case variant of a punctuation mark). *)
Definition variants_skip_separators (U : Unicode) : Prop :=
  forall c v, In v (uni_variants U c) -> v <> 47 /\ v <> 45 /\ v <> 46.

(** A digit, a slash, a hyphen or a dot. *)
Definition raw_date_char (U : Unicode) (c : N) : bool :=
  is_digit U c || (c =? 47) || (c =? 45) || (c =? 46).

(** Bounds on what the groups of the source's patterns hold. *)
Definition digits_in (U : Unicode) (g : nat) (j : nat) (w : str) : Prop :=
  j = g -> forallb (is_digit U) w = true.
Definition date_in (U : Unicode) (j : nat) (w : str) : Prop :=
  j = 1%nat ->
  forallb (raw_date_char U) w = true /\ (6 <= length w <= 10)%nat.

(** The shape of an emitted item number and quantity. *)
Definition numbers_ok (U : Unicode) (it : TenderItem) : Prop :=
  forallb (is_digit U) (item_number it) = true /\
  forallb (quantity_char U) (quantity it) = true.
Definition mean_in_range (q : Q) : Prop := (0 <= q)%Q /\ (q <= 100)%Q.

(** A digit string with more digits than the limit. *)
Definition too_long (limit : option nat) (s : str) : bool :=
  match limit with
  | Some l => Nat.ltb l (length s)
  | None => false
  end.

(** The line is scanned and a structural pattern appends an item whose
    number has more digits than the limit. *)
Definition over_limit (limit : option nat) (U : Unicode) (raw : str) : bool :=
  Trace.line_active U raw &&
  match TenderParser.structural_item U (strip raw) with
  | Some (it, _) => too_long limit (item_number it)
  | None => false
  end.

(** The ValueError of [int()] for a limit of the interpreter. *)
Definition limit_error (limit : option nat) (e : Eff.exn) : Prop :=
  exists l digits,
    limit = Some l /\ (l < digits)%nat /\
    e = Eff.Exception (Checked.int_limit_message l digits).

(** The properties every returned record has. *)
Definition record_of (image : Type) (W : World image) (pdf_path dept : str)
    (include_raw_text : bool) (d : TenderData) : Prop :=
  department d = dept /\
  source_files d = [basename pdf_path] /\
  extraction_timestamp d = now_isoformat W /\
  items_count d = length (items d) /\
  (include_raw_text = false -> raw_text d = []) /\
  (errors d = [] \/
   (errors d = [TenderExtractor.FAILED_TO_EXTRACT] /\ items d = [] /\
    raw_text d = [])).
End Notions.

(** Inputs of the further examples. *)
Module MoreExamples.
Definition posted_text : str := lit "Posted: 01-02-2025, closes soon".

Definition unnumbered_text : str :=
  lit "Sterile cotton wool 200 pieces" ++ [10] ++
  lit "Sterile cotton balls 300 pieces".

(** One page on which the recognizer reads two words and a blank cell. *)
Definition two_words_table : OCREngine.ocr_data :=
  {| OCREngine.od_text := [lit "Tender"; lit "25MS1234"; []];
     OCREngine.od_conf := [OCREngine.ConfInt 90; OCREngine.ConfInt 80;
                           OCREngine.ConfInt (-1)] |}.

Definition two_words : OCREngine.World unit :=
  {| OCREngine.path_exists := fun _ => true;
     OCREngine.convert_from_path := fun _ _ _ _ => inr [tt];
     OCREngine.pil_preprocess := fun i => inr i;
     OCREngine.image_to_data := fun _ _ => inr two_words_table;
     OCREngine.now_isoformat := Worlds.sample_time;
     OCREngine.engine_setup := inr tt;
     OCREngine.dependencies_ready := true;
     OCREngine.int_max_str_digits := Some Checked.DEFAULT_MAX_STR_DIGITS |}.

(** One page on which the recognizer reads nothing. *)
Definition blank_page : OCREngine.World unit :=
  {| OCREngine.path_exists := fun _ => true;
     OCREngine.convert_from_path := fun _ _ _ _ => inr [tt];
     OCREngine.pil_preprocess := fun i => inr i;
     OCREngine.image_to_data := fun _ _ => inr Worlds.empty_table;
     OCREngine.now_isoformat := Worlds.sample_time;
     OCREngine.engine_setup := inr tt;
     OCREngine.dependencies_ready := true;
     OCREngine.int_max_str_digits := Some Checked.DEFAULT_MAX_STR_DIGITS |}.

(** A machine where only /usr/bin/tesseract answers, with poppler and the
    Python packages installed. *)
Definition linux_env : Dependencies.Env :=
  {| Dependencies.TESSERACT_PATH := lit "/opt/homebrew/bin/tesseract";
     Dependencies.run_version :=
       fun path => if str_eqb path (lit "/usr/bin/tesseract")
                   then Dependencies.Completed 0
                   else Dependencies.FileNotFound;
     Dependencies.run_pdftoppm := Dependencies.Completed 0;
     Dependencies.DEPENDENCIES_AVAILABLE := true;
     Dependencies.MISSING_DEPENDENCY := [] |}.

Definition linux_report : Dependencies.report :=
  {| Dependencies.python_packages := true;
     Dependencies.missing_package := None;
     Dependencies.tesseract_available := true;
     Dependencies.tesseract_path := Some (lit "/usr/bin/tesseract");
     Dependencies.poppler_available := true;
     Dependencies.ready := true |}.

(** A machine where the configured binary exists and may not be run. *)
Definition permission_denied : Eff.exn :=
  Eff.Exception
    (lit "[Errno 13] Permission denied: '/opt/homebrew/bin/tesseract'").

Definition locked_env : Dependencies.Env :=
  {| Dependencies.TESSERACT_PATH := lit "/opt/homebrew/bin/tesseract";
     Dependencies.run_version :=
       fun path => if str_eqb path (lit "/opt/homebrew/bin/tesseract")
                   then Dependencies.OtherFailure permission_denied
                   else Dependencies.FileNotFound;
     Dependencies.run_pdftoppm := Dependencies.Completed 0;
     Dependencies.DEPENDENCIES_AVAILABLE := true;
     Dependencies.MISSING_DEPENDENCY := [] |}.

(** One page whose only line starts with an item number of 4301 digits. *)
Definition long_number_table : OCREngine.ocr_data :=
  {| OCREngine.od_text :=
       [repeat 49 4301 ++ lit "."; lit "Surgical"; lit "Gloves"; lit "-";
        lit "500"];
     OCREngine.od_conf := repeat (OCREngine.ConfInt 90) 5 |}.

Definition long_number_page : OCREngine.World unit :=
  {| OCREngine.path_exists := fun _ => true;
     OCREngine.convert_from_path := fun _ _ _ _ => inr [tt];
     OCREngine.pil_preprocess := fun i => inr i;
     OCREngine.image_to_data := fun _ _ => inr long_number_table;
     OCREngine.now_isoformat := Worlds.sample_time;
     OCREngine.engine_setup := inr tt;
     OCREngine.dependencies_ready := true;
     OCREngine.int_max_str_digits := Some Checked.DEFAULT_MAX_STR_DIGITS |}.

(** A standard output that takes every object. *)
Definition stdout_open : CommandLine.printed -> Eff.exn + unit :=
  fun _ => inr tt.
End MoreExamples.

(** ** Facts about strings and the matcher *)

Lemma str_eqb_eq (a b : str) : str_eqb a b = true <-> a = b.
Proof.
  unfold str_eqb. destruct (list_eq_dec N.eq_dec a b); split; congruence.
Qed.

Lemma str_eqb_refl (a : str) : str_eqb a a = true.
Proof. now apply str_eqb_eq. Qed.

Lemma run_length_le p s : (run_length p s <= length s)%nat.
Proof. induction s as [|c r IH]; simpl; [lia|]. destruct (p c); simpl; lia. Qed.

Lemma run_length_all p s :
  forallb p (firstn (run_length p s) s) = true.
Proof.
  induction s as [|c r IH]; simpl; [reflexivity|].
  destruct (p c) eqn:E; simpl; [now rewrite E|reflexivity].
Qed.

Lemma count_le_count (p q : N -> bool) (s : str) :
  (forall c, p c = true -> q c = true) -> (count p s <= count q s)%nat.
Proof.
  intros H. unfold count. induction s as [|c r IH]; simpl; [lia|].
  destruct (p c) eqn:E.
  - rewrite (H c E). simpl. lia.
  - destruct (q c); simpl; lia.
Qed.

Lemma count_le_length p s : (count p s <= length s)%nat.
Proof.
  unfold count. induction s as [|c r IH]; simpl; [lia|].
  destruct (p c); simpl; lia.
Qed.

Lemma count_zero_forallb p s :
  count p s = O <-> forallb (fun c => negb (p c)) s = true.
Proof.
  unfold count. induction s as [|c r IH]; simpl; [tauto|].
  destruct (p c); simpl; [split; discriminate|exact IH].
Qed.

Module ReFacts.
Import Re.

Section Facts.
Variable U : Unicode.
Variable ic : bool.

Lemma between_suffix pre pre' (l1 l2 : str) :
  between {| before := pre; after := l1 ++ l2 |}
          {| before := pre'; after := l2 |} = l1.
Proof.
  unfold between; simpl. rewrite length_app.
  replace (length l1 + length l2 - length l2)%nat with (length l1) by lia.
  rewrite firstn_app, firstn_all, Nat.sub_diag. simpl. apply app_nil_r.
Qed.

(** A one-character pattern matches exactly the members of its class. *)
Lemma match_at_chr cs pre x xs :
  match_at U ic (Chr cs) {| before := pre; after := x :: xs |} =
  if cset_mem U ic cs x
  then Some {| m_text := [x]; m_caps := [];
               m_end := {| before := x :: pre; after := xs |} |}
  else None.
Proof.
  unfold match_at; simpl. destruct (cset_mem U ic cs x); [|reflexivity].
  unfold accept. f_equal. f_equal.
  exact (between_suffix pre (x :: pre) [x] xs).
Qed.

Lemma match_at_chr_nil cs pre :
  match_at U ic (Chr cs) {| before := pre; after := [] |} = None.
Proof. reflexivity. Qed.

(** [findall] of a one-character pattern finds every member of the class. *)
Lemma finditer_chr cs rest : forall pre,
  length (finditer_from U ic (Chr cs) pre rest O) =
  count (cset_mem U ic cs) rest.
Proof.
  unfold count. induction rest as [|x xs IH]; intros pre.
  - reflexivity.
  - cbn [finditer_from]. rewrite match_at_chr. simpl filter.
    destruct (cset_mem U ic cs x); simpl; rewrite IH; reflexivity.
Qed.

(** A greedy repetition of a one-character class takes the whole run of
    members (the fuel given by [rmatch] is enough for that). *)
Lemma rep_loop_chr cs lo k : forall fuel n s c,
  (length (after s) < fuel)%nat ->
  (forall s' c', k s' c' = Some (s', c')) ->
  rep_loop (rmatch U ic (Chr cs)) true lo None k fuel n s c =
  let r := run_length (cset_mem U ic cs) (after s) in
  if Nat.leb lo (n + r)
  then Some ({| before := rev (firstn r (after s)) ++ before s;
                after := skipn r (after s) |}, c)
  else None.
Proof.
  induction fuel as [|f IH]; intros n s c Hf Hk; [lia|].
  destruct s as [pre rest]. simpl in Hf. cbn [rep_loop].
  destruct rest as [|x xs].
  - simpl. rewrite Nat.add_0_r. rewrite Hk. reflexivity.
  - cbn [rmatch after before run_length].
    destruct (cset_mem U ic cs x) eqn:E.
    + replace (Nat.ltb (length xs) (length (x :: xs))) with true
        by (symmetry; apply Nat.ltb_lt; simpl; lia).
      rewrite IH by (simpl in *; trivial; lia). cbn [after before].
      replace (n + S (run_length (cset_mem U ic cs) xs))%nat
        with (S n + run_length (cset_mem U ic cs) xs)%nat by lia.
      destruct (Nat.leb lo (S n + run_length (cset_mem U ic cs) xs)) eqn:L.
      * simpl. rewrite <- app_assoc. reflexivity.
      * replace (Nat.leb lo n) with false; [reflexivity|].
        symmetry. apply Nat.leb_gt. apply Nat.leb_gt in L. lia.
    + rewrite Nat.add_0_r. rewrite Hk. reflexivity.
Qed.

Lemma rmatch_rep g lo hi a s c k :
  rmatch U ic (Rep g lo hi a) s c k =
  rep_loop (rmatch U ic a) g lo hi k (S (length (after s))) 0 s c.
Proof. reflexivity. Qed.

(** The result of a match does not depend on the continuation beyond its
    values, nor on the fuel of a repetition once it exceeds the length of
    the rest of the subject. *)
Lemma rep_loop_ext body g lo hi :
  (forall s c k1 k2, (forall s' c', k1 s' c' = k2 s' c') ->
                     body s c k1 = body s c k2) ->
  forall f1 f2 n s c k1 k2,
  (forall s' c', k1 s' c' = k2 s' c') ->
  (length (after s) < f1)%nat -> (length (after s) < f2)%nat ->
  rep_loop body g lo hi k1 f1 n s c = rep_loop body g lo hi k2 f2 n s c.
Proof.
  intros Hb. induction f1 as [|f1 IH]; intros f2 n s c k1 k2 Hk H1 H2; [lia|].
  destruct f2 as [|f2]; [lia|]. cbn [rep_loop]. cbv zeta.
  rewrite (Hk s c).
  assert (Hm :
    body s c (fun s' c' =>
      if Nat.ltb (length (after s')) (length (after s))
      then rep_loop body g lo hi k1 f1 (S n) s' c' else None) =
    body s c (fun s' c' =>
      if Nat.ltb (length (after s')) (length (after s))
      then rep_loop body g lo hi k2 f2 (S n) s' c' else None)).
  { apply Hb. intros s' c'.
    destruct (Nat.ltb (length (after s')) (length (after s))) eqn:L;
      [|reflexivity].
    apply Nat.ltb_lt in L. apply IH; [exact Hk|lia|lia]. }
  rewrite Hm. reflexivity.
Qed.

Lemma rmatch_ext r : forall s c k1 k2,
  (forall s' c', k1 s' c' = k2 s' c') ->
  rmatch U ic r s c k1 = rmatch U ic r s c k2.
Proof.
  induction r as [|cs|a IHa b IHb|a IHa b IHb|g lo hi a IHa|i a IHa| | | | ];
    intros s c k1 k2 Hk; cbn [rmatch].
  - apply Hk.
  - destruct (after s) as [|x xs]; [reflexivity|].
    destruct (cset_mem U ic cs x); [apply Hk|reflexivity].
  - apply IHa. intros s' c'. now apply IHb.
  - rewrite (IHa s c k1 k2 Hk), (IHb s c k1 k2 Hk). reflexivity.
  - apply rep_loop_ext; [exact IHa|exact Hk|lia|lia].
  - apply IHa. intros s' c'. apply Hk.
  - destruct (before s); [apply Hk|reflexivity].
  - destruct (after s) as [|x [|y r]]; [apply Hk| |reflexivity].
    destruct (x =? 10); [apply Hk|reflexivity].
  - destruct (after s); [apply Hk|reflexivity].
  - match goal with |- (if ?b then _ else _) = _ => destruct b end;
      [apply Hk|reflexivity].
Qed.

(** More fuel than [rmatch] gives a repetition changes nothing. *)
Lemma rep_fuel_enough g lo hi a s c k extra :
  rep_loop (rmatch U ic a) g lo hi k (S (length (after s)) + extra) 0 s c =
  rmatch U ic (Rep g lo hi a) s c k.
Proof.
  cbn [rmatch]. apply rep_loop_ext; [apply rmatch_ext|reflexivity|lia|lia].
Qed.

(** [cs+] at a position: no match unless the next character is in the
    class; otherwise the whole run is matched. *)
Lemma match_at_plus_chr cs pre rest :
  match_at U ic (plus (Chr cs)) {| before := pre; after := rest |} =
  let r := run_length (cset_mem U ic cs) rest in
  match r with
  | O => None
  | S _ =>
      Some {| m_text := firstn r rest; m_caps := [];
              m_end := {| before := rev (firstn r rest) ++ pre;
                          after := skipn r rest |} |}
  end.
Proof.
  unfold match_at, plus. rewrite rmatch_rep.
  rewrite rep_loop_chr by (simpl; trivial; lia).
  cbn [after before]. simpl Nat.add.
  destruct (run_length (cset_mem U ic cs) rest) as [|r] eqn:R;
    [reflexivity|].
  cbn [Nat.leb]. cbv zeta. f_equal. f_equal.
  rewrite <- (firstn_skipn (S r) rest) at 1.
  apply between_suffix.
Qed.

(** Deleting every [cs+] keeps exactly the characters outside [cs]. *)
Lemma sub_plus_chr_length cs rest : forall pre skip,
  forallb (cset_mem U ic cs) (firstn skip rest) = true ->
  length (sub_from U ic (plus (Chr cs)) [] pre rest skip) =
  count (fun c => negb (cset_mem U ic cs c)) rest.
Proof.
  unfold count. induction rest as [|x xs IH]; intros pre skip Hs.
  - destruct skip; reflexivity.
  - destruct skip as [|n].
    + cbn [sub_from]. rewrite match_at_plus_chr. cbv zeta.
      cbn [run_length filter].
      destruct (cset_mem U ic cs x) eqn:E; cbn [negb].
      * cbn [m_text]. rewrite length_firstn.
        pose proof (run_length_le (cset_mem U ic cs) xs) as Hle.
        replace (Nat.min (S (run_length (cset_mem U ic cs) xs))
                         (length (x :: xs)))
          with (S (run_length (cset_mem U ic cs) xs))
          by (simpl; lia).
        simpl app. apply IH. apply run_length_all.
      * simpl. f_equal. apply IH. reflexivity.
    + cbn [sub_from]. simpl in Hs. apply andb_prop in Hs as [Hx Hn].
      cbn [filter]. rewrite Hx. cbn [negb]. apply IH. exact Hn.
Qed.
End Facts.
End ReFacts.

(** ** Language detection *)

Module LanguageFacts.
Import Re TenderParser.

Ltac range_arith :=
  unfold is_arabic, non_space, is_space, in_range in *;
  repeat match goal with
         | H : _ || _ = true |- _ => apply orb_prop in H; destruct H
         | H : _ && _ = true |- _ => apply andb_prop in H; destruct H
         | H : (_ <=? _) = true |- _ => apply N.leb_le in H
         | H : (_ =? _) = true |- _ => apply N.eqb_eq in H
         end.

(** No whitespace character lies in an Arabic block. *)
Lemma arabic_not_space c : is_arabic c = true -> non_space c = true.
Proof.
  intros H. unfold non_space. destruct (is_space c) eqn:S; [|reflexivity].
  exfalso. range_arith; lia.
Qed.

Section Detect.
Variable U : Unicode.

Lemma arabic_mem c : cset_mem U false arabic_set c = is_arabic c.
Proof.
  unfold cset_mem, arabic_set, is_arabic, citem_mem_ci; simpl.
  rewrite !orb_false_r. now rewrite !orb_assoc.
Qed.

Lemma space_mem c :
  cset_mem U false {| cneg := false; citems := [CSpace] |} c = is_space c.
Proof. unfold cset_mem, citem_mem_ci; simpl. now rewrite !orb_false_r. Qed.

Lemma count_ext (p q : N -> bool) s :
  (forall c, p c = q c) -> count p s = count q s.
Proof.
  intros H. unfold count. induction s as [|c r IH]; simpl; [reflexivity|].
  rewrite H. destruct (q c); simpl; now rewrite IH.
Qed.

(** The two counts of [detect_language], without the matcher. *)
Lemma arabic_chars_count text :
  arabic_chars U text = count is_arabic text.
Proof.
  unfold arabic_chars, findall0, arabic_pattern.
  rewrite length_map, ReFacts.finditer_chr.
  apply count_ext, arabic_mem.
Qed.

Lemma total_chars_count text :
  total_chars U text = count non_space text.
Proof.
  unfold total_chars, re_sub, spaces, space, set.
  rewrite ReFacts.sub_plus_chr_length by reflexivity.
  apply count_ext. intros c. unfold non_space. now rewrite space_mem.
Qed.

Lemma arabic_le_total text :
  (count is_arabic text <= count non_space text)%nat.
Proof. apply count_le_count, arabic_not_space. Qed.

Lemma count_non_space_pos text :
  existsb non_space text = true -> count non_space text <> O.
Proof.
  unfold count. induction text as [|c r IH]; simpl; [discriminate|].
  destruct (non_space c); simpl; [discriminate|exact IH].
Qed.

Lemma count_non_space_zero text :
  forallb is_space text = true -> count non_space text = O.
Proof.
  unfold count, non_space. induction text as [|c r IH]; simpl;
    [reflexivity|].
  destruct (is_space c); simpl; [exact IH|discriminate].
Qed.

Lemma pos_of_nat_Z t : t <> O -> Z.pos (Pos.of_nat t) = Z.of_nat t.
Proof.
  intros H. rewrite <- positive_nat_Z. now rewrite Nat2Pos.id.
Qed.

Lemma ratio_bounds a t :
  t <> O -> (a <= t)%nat -> (0 <= ratio a t)%Q /\ (ratio a t <= 1)%Q.
Proof.
  intros Ht Hle. unfold ratio, Qle; simpl.
  rewrite (pos_of_nat_Z Ht). lia.
Qed.

Lemma ratio_pos a t : (0 < ratio a t)%Q -> (0 < a)%nat.
Proof. unfold ratio, Qlt; simpl. lia. Qed.

(** The record returned when there is a non-whitespace character. *)
Lemma detect_language_counts text :
  count non_space text <> O ->
  detect_language U text =
  let r := ratio (count is_arabic text) (count non_space text) in
  {| li_language := if Qgtb r (3 # 10) then Arabic
                    else if Qgtb r (5 # 100) then Mixed else English;
     li_arabic_ratio := r;
     li_has_arabic := Nat.ltb 0 (count is_arabic text) |}.
Proof.
  intros H. unfold detect_language.
  rewrite arabic_chars_count, total_chars_count.
  destruct (Nat.eqb (count non_space text) 0) eqn:E; [|reflexivity].
  apply Nat.eqb_eq in E. contradiction.
Qed.

Lemma detect_language_blank text :
  count non_space text = O ->
  detect_language U text =
  {| li_language := Unknown; li_arabic_ratio := 0; li_has_arabic := false |}.
Proof.
  intros H. unfold detect_language. rewrite total_chars_count, H.
  reflexivity.
Qed.

Lemma Qgtb_false x y : (x <= y)%Q -> Qgtb x y = false.
Proof.
  intros H. unfold Qgtb. apply Qle_bool_iff in H. now rewrite H.
Qed.
End Detect.

(** C8: for a text with a non-whitespace character, [has_arabic] is true
    exactly when the text has an Arabic character, whatever the language
    the ratio thresholds select; when the ratio of Arabic characters to
    non-whitespace characters is positive and at most 0.05 the language is
    english while [has_arabic] is true. *)
Theorem has_arabic_ignores_thresholds (U : Unicode) (text : str) :
  existsb non_space text = true ->
  let info := detect_language U text in
  li_has_arabic info = Nat.ltb 0 (count is_arabic text) /\
  li_arabic_ratio info =
    ratio (count is_arabic text) (count non_space text) /\
  ((0 < li_arabic_ratio info)%Q -> (li_arabic_ratio info <= 5 # 100)%Q ->
   li_language info = English /\ li_has_arabic info = true).
Proof.
  intros Hne info. subst info.
  rewrite (detect_language_counts U text (count_non_space_pos text Hne)).
  cbv zeta. cbn [li_has_arabic li_arabic_ratio li_language].
  split; [reflexivity|]. split; [reflexivity|].
  intros Hpos Hle. split.
  - rewrite (Qgtb_false Hle).
    rewrite Qgtb_false; [reflexivity|].
    eapply Qle_trans; [exact Hle|]. unfold Qle; simpl; lia.
  - apply Nat.ltb_lt. exact (ratio_pos Hpos).
Qed.

(** C9: [detect_language] returns a record for every text; the returned
    ratio lies between 0 and 1, because every Arabic character is a
    non-whitespace character; a text without a non-whitespace character
    (the empty string among them) is classified unknown. *)
Theorem detect_language_total_bounded (U : Unicode) (text : str) :
  (exists info, detect_language U text = info /\
     (0 <= li_arabic_ratio info)%Q /\ (li_arabic_ratio info <= 1)%Q) /\
  (count is_arabic text <= count non_space text)%nat /\
  (forallb is_space text = true ->
   detect_language U text =
   {| li_language := Unknown; li_arabic_ratio := 0; li_has_arabic := false |}).
Proof.
  split; [|split].
  - eexists; split; [reflexivity|].
    destruct (Nat.eq_dec (count non_space text) O) as [Z|NZ].
    + rewrite (detect_language_blank U text Z). simpl.
      split; unfold Qle; simpl; lia.
    + rewrite (detect_language_counts U text NZ). cbv zeta.
      cbn [li_arabic_ratio].
      apply ratio_bounds; [exact NZ|apply arabic_le_total].
  - apply arabic_le_total.
  - intros H. apply detect_language_blank, count_non_space_zero, H.
Qed.

Lemma has_arabic_ignores_thresholds_witness :
  li_language (detect_language ascii_tables Examples.mostly_latin) = English /\
  li_has_arabic (detect_language ascii_tables Examples.mostly_latin) = true.
Proof.
  destruct (has_arabic_ignores_thresholds ascii_tables Examples.mostly_latin)
    as (_ & Hr & H); [reflexivity|].
  apply H; rewrite Hr; vm_compute; [reflexivity|discriminate].
Defined.

Lemma detect_language_total_bounded_witness :
  detect_language ascii_tables (lit "  " ++ [9; 10]) =
  {| li_language := Unknown; li_arabic_ratio := 0; li_has_arabic := false |}.
Proof.
  apply (detect_language_total_bounded ascii_tables (lit "  " ++ [9; 10])).
  reflexivity.
Defined.
End LanguageFacts.

(** ** Item extraction *)

Module ItemFacts.
Import Re TenderParser Trace Examples.

Section Dedup.
Variable U : Unicode.

Lemma seen_mem_cons k k' seen :
  seen_mem k (k' :: seen) = str_eqb k k' || seen_mem k seen.
Proof. reflexivity. Qed.

Lemma str_eqb_sym a b : str_eqb a b = str_eqb b a.
Proof.
  destruct (str_eqb a b) eqn:E, (str_eqb b a) eqn:F; trivial.
  - apply str_eqb_eq in E. subst. now rewrite str_eqb_refl in F.
  - apply str_eqb_eq in F. subst. now rewrite str_eqb_refl in E.
Qed.

(** The loop over [(unique_items, seen)] computes [keep_first]. *)
Lemma fold_dedup its : forall unique seen,
  fst (fold_left (dedup_step U) its (unique, seen)) =
  unique ++ keep_first U seen its.
Proof.
  induction its as [|it r IH]; intros unique seen; simpl.
  - now rewrite app_nil_r.
  - destruct (seen_mem (dedup_key U it) seen).
    + apply IH.
    + rewrite IH, <- app_assoc. reflexivity.
Qed.

Lemma remove_duplicates_keep_first its :
  remove_duplicates U its = keep_first U [] its.
Proof. unfold remove_duplicates. now rewrite fold_dedup. Qed.

Lemma keep_first_unseen its : forall seen x,
  In x (keep_first U seen its) -> seen_mem (dedup_key U x) seen = false.
Proof.
  induction its as [|it r IH]; intros seen x Hin; simpl in Hin; [easy|].
  destruct (seen_mem (dedup_key U it) seen) eqn:E.
  - now apply IH.
  - destruct Hin as [<-|Hin]; [exact E|].
    apply IH in Hin. rewrite seen_mem_cons in Hin.
    now apply orb_false_elim in Hin.
Qed.

Lemma keep_first_nodup its : forall seen,
  NoDup (map (dedup_key U) (keep_first U seen its)).
Proof.
  induction its as [|it r IH]; intros seen; simpl; [constructor|].
  destruct (seen_mem (dedup_key U it) seen); [apply IH|].
  simpl. constructor; [|apply IH].
  intros Hin. apply in_map_iff in Hin as (x & Hk & Hx).
  apply keep_first_unseen in Hx. rewrite seen_mem_cons in Hx.
  apply orb_false_elim in Hx as [Hx _].
  rewrite Hk, str_eqb_refl in Hx. discriminate.
Qed.

Lemma keep_first_subseq its : forall seen,
  subseq (keep_first U seen its) its.
Proof.
  induction its as [|it r IH]; intros seen; simpl; [constructor|].
  destruct (seen_mem (dedup_key U it) seen); constructor; apply IH.
Qed.

Lemma keep_first_find k its : forall seen,
  find (has_key U k) (keep_first U seen its) =
  if seen_mem k seen then None else find (has_key U k) its.
Proof.
  induction its as [|it r IH]; intros seen; simpl.
  - now destruct (seen_mem k seen).
  - unfold has_key at 2.
    destruct (seen_mem (dedup_key U it) seen) eqn:E.
    + rewrite IH. destruct (seen_mem k seen) eqn:F; [reflexivity|].
      destruct (str_eqb (dedup_key U it) k) eqn:G; [|reflexivity].
      apply str_eqb_eq in G. congruence.
    + simpl. unfold has_key at 1.
      destruct (str_eqb (dedup_key U it) k) eqn:G.
      * apply str_eqb_eq in G. subst k. now rewrite E.
      * rewrite IH, seen_mem_cons, str_eqb_sym, G. reflexivity.
Qed.
End Dedup.

(** C3: no two items of the result of [extract_items] have the same first
    100 characters of their lower-cased descriptions; the result is the list
    of scanned items with items dropped and the order kept; and among the
    scanned items that share such a prefix, the result holds the first one:
    for every scanned item, the first scanned item with its prefix is in the
    result, and it is the item the result holds for that prefix.  On two
    numbered lines whose descriptions agree, case apart, on their first 100
    characters and differ after them, only the first item is returned; with
    a difference in character number 100 both are. *)
Theorem extract_items_keeps_first_of_each_key (U : Unicode) (text : str) :
  let scanned := scanned_items U text in
  let out := extract_items U text in
  NoDup (map (lowercase_prefix U) out) /\
  subseq out scanned /\
  (forall it, In it scanned ->
     exists first,
       first_with_prefix U (lowercase_prefix U it) scanned = Some first /\
       first_with_prefix U (lowercase_prefix U it) out = Some first /\
       In first out) /\
  (forall k, first_with_prefix U k out = first_with_prefix U k scanned) /\
  map item_number (scanned_items U same_prefix_text) = [lit "1"; lit "2"] /\
  map item_number (extract_items U same_prefix_text) = [lit "1"] /\
  map item_number (extract_items U other_prefix_text) = [lit "1"; lit "2"].
Proof.
  cbv zeta.
  assert (R : extract_items U text = keep_first U [] (scanned_items U text))
    by apply remove_duplicates_keep_first.
  rewrite R.
  split; [apply (keep_first_nodup U)|].
  split; [apply keep_first_subseq|].
  assert (F : forall k, first_with_prefix U k (keep_first U [] (scanned_items U text))
                        = first_with_prefix U k (scanned_items U text)).
  { intros k. apply (keep_first_find U k (scanned_items U text) []). }
  split; [|split; [exact F|repeat split; vm_compute; reflexivity]].
  intros it Hin.
  destruct (first_with_prefix U (lowercase_prefix U it) (scanned_items U text))
    as [first|] eqn:E.
  - exists first. split; [reflexivity|]. split; [now rewrite F|].
    rewrite <- F in E. unfold first_with_prefix in E.
    now apply find_some in E.
  - unfold first_with_prefix in E.
    apply (find_none _ _ E) in Hin. now rewrite str_eqb_refl in Hin.
Qed.

Section Guard.
Variable U : Unicode.













End Guard.

End ItemFacts.


(** ** Examples of the line scan *)

Module ItemExamples.
Import Re TenderParser Trace Examples.

(** The first structural pattern does not match the second line of the
    example: its description group takes no digit.  The third one does, and
    its description group runs up to the blank before the quantity. *)
Lemma second_line_patterns (U : Unicode) :
  let line := lit "2. Syringes 10ml - 1000 units" in
  re_match U true (fst (nth 0 item_patterns (Eps, O))) line = None /\
  re_match U true (fst (nth 1 item_patterns (Eps, O))) line = None /\
  first_item_match U item_patterns line =
    Some [Some (lit "2"); Some (lit "Syringes 10ml -"); Some (lit "1000");
          Some (lit "units")].
Proof. cbv zeta. repeat split; vm_compute; reflexivity. Qed.

(** C1: what [extract_items] returns on the three-line example, with or
    without a final newline: two items, number 1, Surgical Gloves, 500,
    pieces; then number 2, quantity 1000, unit units, with the description
    Syringes 10ml followed by a blank and the dash, which the claim does not
    have.  The line Page 1 of 3 is rejected by the garbage filter. *)
Theorem end_to_end_items (U : Unicode) :
  extract_items U end_to_end_text =
    [english_item "1" "Surgical Gloves" "500" "pieces";
     english_item "2" "Syringes 10ml -" "1000" "units"] /\
  extract_items U end_to_end_joined =
    [english_item "1" "Surgical Gloves" "500" "pieces";
     english_item "2" "Syringes 10ml -" "1000" "units"] /\
  is_garbage_line U (lit "Page 1 of 3") = true.
Proof. repeat split; vm_compute; reflexivity. Qed.

(** C1, as stated, fails: the items returned for the example are not the
    listed ones. *)
Lemma end_to_end_not_as_listed :
  map listed_fields (extract_items ascii_tables end_to_end_text) =
    [(lit "1", lit "Surgical Gloves", lit "500", lit "pieces");
     (lit "2", lit "Syringes 10ml -", lit "1000", lit "units")] /\
  map listed_fields (extract_items ascii_tables end_to_end_text)
    <> listed_items.
Proof.
  split; [vm_compute; reflexivity|].
  vm_compute. intros H. discriminate H.
Qed.

End ItemExamples.

(** ** Field extractors *)

Module FieldFacts.
Import Re TenderParser Examples.

Section Closing.
Variable U : Unicode.

Lemma pick_date_last (m : str) (ms : list str) :
  pick_date (m :: ms) = last (m :: ms) [].
Proof. unfold pick_date. destruct ms; reflexivity. Qed.

Lemma closing_loop_first_nonempty text ps :
  closing_loop U ps text =
  match first_nonempty (map (fun p => findall1 U true p text) ps) with
  | Some ms => normalize_date (last ms [])
  | None => []
  end.
Proof.
  induction ps as [|p r IH]; [reflexivity|].
  cbn [closing_loop map first_nonempty].
  destruct (findall1 U true p text) as [|m ms] eqn:E; [exact IH|].
  now rewrite pick_date_last.
Qed.
End Closing.

(** C4 (as amended): [extract_closing_date] returns, with its separators
    normalised, the last match of the first pattern in order that matches at
    all, and the empty string when none does.  So when the first labeled
    pattern matches, once or more, its last match is returned whatever the
    later patterns find; the last match of the second labeled pattern is
    returned when the first finds nothing; and for the text made of the two
    lines Closing Date: 15/03/2025 and Closing Date: 20/03/2025 the result
    is 20/03/2025. *)
Theorem closing_date_last_match (U : Unicode) (text : str) :
  let found := fun i => findall1 U true (nth i closing_patterns Eps) text in
  extract_closing_date U text =
    match first_nonempty
            (map (fun p => findall1 U true p text) closing_patterns) with
    | Some ms => normalize_date (last ms [])
    | None => []
    end /\
  (forall m ms, found 0%nat = m :: ms ->
     extract_closing_date U text = normalize_date (last (m :: ms) [])) /\
  (forall m ms, found 0%nat = [] -> found 1%nat = m :: ms ->
     extract_closing_date U text = normalize_date (last (m :: ms) [])) /\
  extract_closing_date U two_closing_dates = lit "20/03/2025".
Proof.
  cbv zeta. split; [apply closing_loop_first_nonempty|].
  unfold extract_closing_date. rewrite closing_loop_first_nonempty.
  unfold closing_patterns. cbn [map nth first_nonempty].
  split; [|split].
  - intros m ms ->. reflexivity.
  - intros m ms -> ->. reflexivity.
  - vm_compute. reflexivity.
Qed.

Lemma closing_date_last_match_witness :
  findall1 ascii_tables true (nth 0 closing_patterns Eps) two_closing_dates =
    [lit "15/03/2025"; lit "20/03/2025"] /\
  extract_closing_date ascii_tables two_closing_dates =
    normalize_date (last [lit "15/03/2025"; lit "20/03/2025"] []).
Proof.
  split; [vm_compute; reflexivity|].
  destruct (closing_date_last_match ascii_tables two_closing_dates)
    as (_ & H & _).
  apply H. vm_compute. reflexivity.
Defined.

(** C4, as stated, fails.  In a text with one date under the first label
    followed by two dates under the second, the second labeled pattern finds
    two matches and the result is not the last of them, nor the last labeled
    date of the text.  And a text that contains the two dates of the example
    in their order, followed by a third under the same label, does not
    return 20/03/2025. *)
Lemma closing_date_not_last_occurrence :
  findall1 ascii_tables true (nth 1 closing_patterns Eps) mixed_labels =
    [lit "20/03/2025"; lit "25/03/2025"] /\
  extract_closing_date ascii_tables mixed_labels = lit "15/03/2025" /\
  extract_closing_date ascii_tables mixed_labels <> lit "25/03/2025" /\
  extract_closing_date ascii_tables three_closing_dates = lit "25/03/2025" /\
  extract_closing_date ascii_tables three_closing_dates <> lit "20/03/2025".
Proof.
  repeat split; try (vm_compute; reflexivity);
    vm_compute; intros H; discriminate H.
Qed.


End FieldFacts.

(** ** The OCR adapter and the orchestrator *)

Module PipelineFacts.
Import Eff OCREngine TenderExtractor ErrorRecord Worlds.

Section Adapter.
Variable image : Type.
Variable W : World image.
Variable self : engine.

(** The run of [extract_text_from_pdf], by whether the file exists. *)
Lemma extract_text_missing pdf_path max_pages log :
  path_exists W pdf_path = false ->
  extract_text_from_pdf W self pdf_path max_pages log =
  (log ++ [CallExists image pdf_path], inr ([], 0%Q)).
Proof.
  intros H. unfold extract_text_from_pdf, bind, call. now rewrite H.
Qed.

Lemma extract_text_present pdf_path max_pages log :
  path_exists W pdf_path = true ->
  extract_text_from_pdf W self pdf_path max_pages log =
  catch (ocr_body W self pdf_path (or_default max_pages OCRConfig.MAX_PAGES))
        (fun _ => ret ([], 0%Q)) (log ++ [CallExists image pdf_path]).
Proof.
  intros H. unfold extract_text_from_pdf, bind, call. now rewrite H.
Qed.

Lemma catch_returns (A : Type) (m : Run image A) (d : A) log :
  exists r, snd (catch m (fun _ => ret d) log) = inr r.
Proof.
  unfold catch, ret. destruct (m log) as [log' [e|a]]; eexists; reflexivity.
Qed.

Lemma catch_raised (A : Type) (m : Run image A) (d : A) log e :
  snd (m log) = inl e -> snd (catch m (fun _ => ret d) log) = inr d.
Proof.
  unfold catch, ret. destruct (m log) as [log' [e'|a]]; simpl; congruence.
Qed.

(** A page that raises makes the page loop raise. *)
Lemma pages_loop_raises images : forall img all_text confidences log,
  In img images -> page_raises W self img ->
  exists e, snd (pages_loop W self images all_text confidences log) = inl e.
Proof.
  induction images as [|i rest IH]; intros img all_text confidences log Hin Hr;
    [destruct Hin|].
  cbn [pages_loop]. unfold bind at 1, preprocess_image, call.
  destruct (pil_preprocess W i) as [e|processed] eqn:P;
    [eexists; reflexivity|].
  unfold bind at 1.
  destruct (image_to_data W processed (lang_str self)) as [e|data] eqn:R;
    [eexists; reflexivity|].
  unfold bind at 1, lift.
  destruct (page_words data 0 (od_text data) [] []) as [e|[pt pc]] eqn:Pw;
    [eexists; reflexivity|].
  destruct Hin as [->|Hin].
  - unfold page_raises in Hr. rewrite P, R, Pw in Hr. destruct Hr.
  - eapply IH; eassumption.
Qed.

Lemma ocr_body_rasterizer_raises pdf_path max_pages log e :
  convert_from_path W pdf_path (dpi self) 1 max_pages = inl e ->
  snd (ocr_body W self pdf_path max_pages log) = inl e.
Proof. intros H. unfold ocr_body, bind, call. now rewrite H. Qed.

Lemma ocr_body_page_raises pdf_path max_pages log images img :
  convert_from_path W pdf_path (dpi self) 1 max_pages = inr images ->
  In img images -> page_raises W self img ->
  exists e, snd (ocr_body W self pdf_path max_pages log) = inl e.
Proof.
  intros H Hin Hr. unfold ocr_body. unfold bind at 1, call. rewrite H.
  destruct (@pages_loop_raises images img [] []
              (log ++ [CallConvert image pdf_path (dpi self) 1 max_pages]) Hin Hr)
    as [e He].
  exists e. unfold bind.
  destruct (pages_loop W self images [] [] _) as [log' [e'|[a c]]];
    simpl in *; congruence.
Qed.
End Adapter.

(** C7: [extract_text_from_pdf] always returns a pair and never raises.  When
    the file does not exist it returns the empty text with confidence 0 and
    the only external call made is the existence check.  When the rasterizer
    raises, or the processing of one of the rasterized pages raises, it
    returns the empty text with confidence 0. *)
Theorem extract_text_never_raises (image : Type) (W : World image)
    (self : engine) (pdf_path : str) (max_pages : option Z)
    (log : list (ext_call image)) :
  let pages := or_default max_pages OCRConfig.MAX_PAGES in
  let out := extract_text_from_pdf W self pdf_path max_pages log in
  (exists r, snd out = inr r) /\
  (path_exists W pdf_path = false ->
   out = (log ++ [CallExists image pdf_path], inr ([], 0%Q))) /\
  (path_exists W pdf_path = true ->
   forall e, convert_from_path W pdf_path (dpi self) 1 pages = inl e ->
   snd out = inr ([], 0%Q)) /\
  (path_exists W pdf_path = true ->
   forall images img,
   convert_from_path W pdf_path (dpi self) 1 pages = inr images ->
   In img images -> page_raises W self img ->
   snd out = inr ([], 0%Q)).
Proof.
  cbv zeta. repeat split.
  - destruct (path_exists W pdf_path) eqn:E.
    + rewrite extract_text_present by exact E. apply catch_returns.
    + rewrite extract_text_missing by exact E. eexists; reflexivity.
  - apply extract_text_missing.
  - intros E e H. rewrite extract_text_present by exact E.
    eapply catch_raised. apply ocr_body_rasterizer_raises. exact H.
  - intros E images img H Hin Hr. rewrite extract_text_present by exact E.
    destruct (@ocr_body_page_raises image W self pdf_path _
                (log ++ [CallExists image pdf_path]) images img H Hin Hr)
      as [e He].
    eapply catch_raised. exact He.
Qed.

Lemma extract_text_never_raises_witness :
  extract_text_from_pdf missing_pdf sample_engine sample_path None [] =
    ([CallExists unit sample_path], inr ([], 0%Q)) /\
  snd (extract_text_from_pdf broken_pdf sample_engine sample_path None []) =
    inr ([], 0%Q) /\
  snd (extract_text_from_pdf broken_recognizer sample_engine sample_path
         None []) = inr ([], 0%Q).
Proof.
  split; [|split].
  - apply (extract_text_never_raises missing_pdf sample_engine sample_path
             None []). reflexivity.
  - apply (extract_text_never_raises broken_pdf sample_engine sample_path
             None []) with (e := Exception (lit "Unable to get page count"));
      reflexivity.
  - apply (extract_text_never_raises broken_recognizer sample_engine
             sample_path None []) with (images := [tt]) (img := tt).
    + reflexivity.
    + reflexivity.
    + left. reflexivity.
    + exact I.
Defined.

Section Orchestrator.
Variable U : Unicode.
Variable image : Type.
Variable W : World image.

(** With an empty text no text pattern gives a reference number. *)
Lemma text_reference_empty : TenderParser.text_reference U [] = [].
Proof. vm_compute. reflexivity. Qed.

Lemma reference_of_filename_alone filename :
  TenderParser.extract_reference_number U [] filename =
  match TenderParser.filename_reference U filename with
  | Some r => r
  | None => []
  end.
Proof.
  unfold TenderParser.extract_reference_number.
  destruct (TenderParser.filename_reference U filename);
    [reflexivity|apply text_reference_empty].
Qed.

Lemma process_pdf_empty_text self pdf_path department max_pages
    include_raw_text log log' confidence :
  extract_text_from_pdf W self pdf_path max_pages log =
    (log', inr ([], confidence)) ->
  process_pdf U W self pdf_path department max_pages include_raw_text log =
  (log' ++ [CallNow image],
   inr (error_record U (now_isoformat W) (basename pdf_path) department)).
Proof.
  intros H. unfold process_pdf. unfold bind at 1. rewrite H.
  unfold bind, call, ret, error_record.
  now rewrite reference_of_filename_alone.
Qed.

Lemma main_empty_text args file log log' confidence :
  arg_check args = false -> dependencies_ready W = true ->
  arg_file args = Some file -> file <> [] -> path_exists W file = true ->
  engine_setup W = inr tt ->
  extract_text_from_pdf W (cli_engine args) file (Some (arg_max_pages args))
    (log ++ [CallCheckDeps image; CallExists image file; CallSetup image]) =
    (log', inr ([], confidence)) ->
  main U W args log =
  (log' ++ [CallNow image],
   inr (OutSuccess (error_record U (now_isoformat W) (basename file)
                                 (arg_department args)), 0%Z)).
Proof.
  intros Hc Hd Hf Hne He Hs Ho. unfold main. rewrite Hc.
  unfold check_dependencies. unfold bind at 1, call. rewrite Hd. cbn [negb].
  rewrite Hf. destruct file as [|c f]; [congruence|].
  unfold bind at 1, call. rewrite He. cbn [negb].
  unfold catch, main_process, make_engine.
  unfold bind at 1. unfold bind at 1, call. rewrite Hs. unfold ret at 1.
  unfold bind at 1. fold (cli_engine args).
  rewrite <- !app_assoc. cbn [app].
  erewrite process_pdf_empty_text; [reflexivity|exact Ho].
Qed.
End Orchestrator.

(** C6 (as amended): when the OCR stage returns the empty text,
    [process_pdf] returns the record whose reference number comes from the
    file name alone, with the department, the file name as only source file,
    the single error Failed to extract text from PDF, the current time as
    extraction timestamp, and every other field at its default (no items,
    items count 0); [main], once it reaches the processing, prints that
    record with success true and exit code 0. *)
Theorem empty_text_gives_error_record (U : Unicode) (image : Type)
    (W : World image) :
  (forall self pdf_path department max_pages include_raw_text log log'
          confidence,
     extract_text_from_pdf W self pdf_path max_pages log =
       (log', inr ([], confidence)) ->
     process_pdf U W self pdf_path department max_pages include_raw_text log =
       (log' ++ [CallNow image],
        inr (error_record U (now_isoformat W) (basename pdf_path) department)))
  /\
  (forall args file log log' confidence,
     arg_check args = false -> dependencies_ready W = true ->
     arg_file args = Some file -> file <> [] -> path_exists W file = true ->
     engine_setup W = inr tt ->
     extract_text_from_pdf W (cli_engine args) file
       (Some (arg_max_pages args))
       (log ++ [CallCheckDeps image; CallExists image file; CallSetup image]) =
       (log', inr ([], confidence)) ->
     exists data,
       main U W args log = (log' ++ [CallNow image], inr (OutSuccess data, 0%Z))
       /\ success_flag (OutSuccess data) = Some true
       /\ data = error_record U (now_isoformat W) (basename file)
                              (arg_department args)
       /\ items data = [] /\ items_count data = O
       /\ errors data = [lit "Failed to extract text from PDF"]).
Proof.
  split.
  - intros. now apply process_pdf_empty_text with (confidence := confidence).
  - intros args file log log' confidence Hc Hd Hf Hne He Hs Ho.
    eexists. split; [|repeat split].
    eapply main_empty_text; eassumption.
Qed.

Lemma empty_text_gives_error_record_witness :
  snd (process_pdf ascii_tables broken_pdf sample_engine sample_path
         (lit "Biomedical Engineering") None false []) =
    inr (error_record ascii_tables sample_time (lit "25MS1234_tender.pdf")
           (lit "Biomedical Engineering")) /\
  snd (main ascii_tables broken_pdf sample_args []) =
    inr (OutSuccess
           (error_record ascii_tables sample_time (lit "25MS1234_tender.pdf")
              (lit "Biomedical Engineering")), 0%Z).
Proof.
  destruct (empty_text_gives_error_record ascii_tables broken_pdf) as [Hp Hm].
  split.
  - erewrite Hp; reflexivity.
  - destruct (Hm sample_args sample_path []
                ([CallCheckDeps unit; CallExists unit sample_path;
                  CallSetup unit; CallExists unit sample_path;
                  CallConvert unit sample_path 300 1 10]) 0%Q)
      as (data & Hrun & _ & Hdata & _).
    + reflexivity.
    + reflexivity.
    + reflexivity.
    + discriminate.
    + reflexivity.
    + reflexivity.
    + reflexivity.
    + rewrite Hrun, Hdata. reflexivity.
Defined.

(** C6, as stated, fails: the extraction timestamp of the returned record is
    not at its default. *)
Lemma error_record_is_timestamped :
  snd (process_pdf ascii_tables broken_pdf sample_engine sample_path
         (lit "Biomedical Engineering") None false []) =
    inr (error_record ascii_tables sample_time (lit "25MS1234_tender.pdf")
           (lit "Biomedical Engineering")) /\
  snd (process_pdf ascii_tables broken_pdf sample_engine sample_path
         (lit "Biomedical Engineering") None false []) <>
    inr (untimed_error_record ascii_tables (lit "25MS1234_tender.pdf")
           (lit "Biomedical Engineering")).
Proof.
  split; [vm_compute; reflexivity|].
  vm_compute. intros H. discriminate H.
Qed.
End PipelineFacts.

(** ** The image text service *)

Module ServiceFacts.
Import Eff RapidOCR Worlds.

(** C10: when the recognizer returns no result for the prepared image (none,
    or an empty list), [extract_text_from_image] returns the dictionary with
    success false, the empty text, no boxes and the error No text detected;
    that dictionary has no processing time entry. *)
Theorem no_text_is_a_failure (image bytes box elapse : Type)
    (W : World image bytes box elapse) (image_data_base64 : str)
    (region : option (list (string * Z))) (img : image)
    (result : option (list (box * str * Q))) (elapsed : elapse) :
  prepare_image W image_data_base64 region tt = (tt, inr img) ->
  ocr_engine W img = inr (result, elapsed) ->
  result = None \/ result = Some [] ->
  let out := extract_text_from_image W image_data_base64 region tt in
  out = (tt, inr [("success"%string, JBool box elapse false);
                  ("text"%string, JStr box elapse []);
                  ("boxes"%string, JBoxes elapse []);
                  ("error"%string, JStr box elapse (lit "No text detected"))])
  /\ (forall d, snd out = inr d ->
      dict_get d "success" = Some (JBool box elapse false) /\
      dict_get d "processing_time_ms" = None).
Proof.
  intros Hp Ho Hr out.
  assert (E : out = (tt, inr (failure box elapse (lit "No text detected")))).
  { subst out. unfold extract_text_from_image, catch.
    unfold bind at 1. rewrite Hp. unfold bind at 1, lift. rewrite Ho.
    destruct Hr as [-> | ->]; reflexivity. }
  split; [exact E|].
  intros d Hd. rewrite E in Hd. simpl in Hd. injection Hd as <-.
  split; reflexivity.
Qed.

Lemma no_text_is_a_failure_witness :
  snd (extract_text_from_image blank_image (lit "aGVsbG8=") None tt) =
  inr (failure unit unit (lit "No text detected")).
Proof.
  destruct (@no_text_is_a_failure unit unit unit unit blank_image
              (lit "aGVsbG8=") None tt None tt) as [E _].
  - reflexivity.
  - reflexivity.
  - left. reflexivity.
  - rewrite E. reflexivity.
Defined.
End ServiceFacts.


(** ** Further properties of the parser *)

Module ParserFacts.
Import Re TenderParser Trace Notions.

Lemma in_range_point x c : in_range x x c = (c =? x).
Proof.
  unfold in_range. destruct (c =? x) eqn:E.
  - apply N.eqb_eq in E. subst. now rewrite N.leb_refl.
  - apply N.eqb_neq in E.
    destruct (x <=? c) eqn:A, (c <=? x) eqn:B; trivial.
    apply N.leb_le in A, B. lia.
Qed.

Section Garbage.
Variable U : Unicode.

(** A greedy repetition of a class hands the whole run to its continuation
    first. *)
Lemma rep_loop_chr_hit ic cs lo k res : forall fuel n s c,
  (length (after s) < fuel)%nat ->
  (lo <= n + run_length (cset_mem U ic cs) (after s))%nat ->
  k {| before := rev (firstn (run_length (cset_mem U ic cs) (after s))
                             (after s)) ++ before s;
       after := skipn (run_length (cset_mem U ic cs) (after s)) (after s) |}
    c = Some res ->
  rep_loop (rmatch U ic (Chr cs)) true lo None k fuel n s c = Some res.
Proof.
  induction fuel as [|f IH]; intros n s c Hf Hlo Hk; [lia|].
  destruct s as [pre rest]. cbn [after before] in *. cbn [rep_loop].
  destruct rest as [|x xs].
  - cbn [rmatch after run_length] in *. simpl in Hk.
    rewrite Nat.add_0_r in Hlo. apply Nat.leb_le in Hlo. now rewrite Hlo, Hk.
  - cbn [rmatch after before run_length] in *.
    destruct (cset_mem U ic cs x) eqn:E.
    + replace (Nat.ltb (length xs) (length (x :: xs))) with true
        by (symmetry; apply Nat.ltb_lt; simpl; lia).
      rewrite (IH (S n) {| before := x :: pre; after := xs |} c);
        [reflexivity|simpl in *; lia|simpl; lia|].
      cbn [after before]. simpl in Hk. now rewrite <- app_assoc in Hk.
    + simpl in Hk. rewrite Nat.add_0_r in Hlo. apply Nat.leb_le in Hlo.
      now rewrite Hlo, Hk.
Qed.

Lemma run_length_forallb p s :
  forallb p s = true -> run_length p s = length s.
Proof.
  induction s as [|c r IH]; simpl; [reflexivity|].
  intros H. apply andb_prop in H as [Hc Hr]. rewrite Hc. now rewrite IH.
Qed.

Lemma digits_punct_mem c :
  cset_mem U false
    {| cneg := false;
       citems := [CDigit; CSpace; chr "-"; chr "."; chr ","] |} c =
  digits_punct_char U c.
Proof.
  unfold cset_mem, citem_mem_ci, digits_punct_char. simpl.
  rewrite !orb_false_r, !in_range_point. now rewrite !orb_assoc.
Qed.

Lemma forallb_ext_mem (p q : N -> bool) l :
  (forall c, p c = q c) -> forallb p l = forallb q l.
Proof.
  intros H. induction l as [|c r IH]; cbn [forallb]; [reflexivity|].
  now rewrite H, IH.
Qed.

Lemma digits_punct_line_matches line :
  line <> [] -> forallb (digits_punct_char U) line = true ->
  re_match U false digits_punct_line line <> None.
Proof.
  intros Hne Hall. unfold re_match, match_at, digits_punct_line.
  cbn [seq rmatch before]. unfold plus, set. rewrite ReFacts.rmatch_rep.
  assert (Hrun : run_length
            (cset_mem U false
               {| cneg := false;
                  citems := [CDigit; CSpace; chr "-"; chr "."; chr ","] |})
            line = length line).
  { apply run_length_forallb.
    erewrite forallb_ext_mem; [exact Hall|]. apply digits_punct_mem. }
  match goal with
  | |- context [rep_loop ?b ?g ?lo ?hi ?k ?f ?n ?s ?c] =>
      assert (Hr : exists res, rep_loop b g lo hi k f n s c = Some res)
  end.
  { eexists. apply rep_loop_chr_hit.
    - simpl. lia.
    - cbn [after]. rewrite Hrun. destruct line; [congruence|simpl; lia].
    - cbn [after before]. rewrite Hrun, skipn_all. reflexivity. }
  destruct Hr as [[s' c'] ->]. discriminate.
Qed.

End Garbage.

(** X1: a line made only of digits, whitespace, hyphens, dots and commas is
    a garbage line. *)
Theorem digits_and_punctuation_are_garbage (U : Unicode) (line : str) :
  forallb (digits_punct_char U) line = true ->
  is_garbage_line U line = true.
Proof.
  intros Hall. unfold is_garbage_line. cbv zeta.
  destruct (existsb _ garbage_patterns); [reflexivity|].
  destruct (Nat.ltb (length (strip line)) 5) eqn:L; [reflexivity|].
  destruct line as [|x xs]; [discriminate L|].
  pose proof (@digits_punct_line_matches U (x :: xs)) as H.
  destruct (re_match U false digits_punct_line (x :: xs)); [reflexivity|].
  exfalso. apply H; [discriminate|exact Hall|reflexivity].
Qed.

Lemma digits_and_punctuation_are_garbage_witness :
  is_garbage_line ascii_tables (lit "12.500,00 - 3") = true.
Proof.
  apply (digits_and_punctuation_are_garbage ascii_tables (lit "12.500,00 - 3")).
  reflexivity.
Defined.

Section Fields.
Variable U : Unicode.

Lemma replace_char_absent a b s : a <> b -> ~ In a (replace_char a b s).
Proof.
  intros Hab Hin. unfold replace_char in Hin.
  apply in_map_iff in Hin as (c & Hc & _).
  destruct (c =? a) eqn:E; [congruence|].
  apply N.eqb_neq in E. congruence.
Qed.

Lemma replace_char_keeps_absent a b x s :
  x <> b -> ~ In x s -> ~ In x (replace_char a b s).
Proof.
  intros Hxb Hs Hin. unfold replace_char in Hin.
  apply in_map_iff in Hin as (c & Hc & Hcs).
  destruct (c =? a); [congruence|]. subst. contradiction.
Qed.

Lemma normalize_date_separators s :
  ~ In 45 (normalize_date s) /\ ~ In 46 (normalize_date s).
Proof.
  unfold normalize_date. split.
  - apply replace_char_keeps_absent; [discriminate|].
    apply replace_char_absent. discriminate.
  - apply replace_char_absent. discriminate.
Qed.

Lemma closing_loop_separators ps text :
  ~ In 45 (closing_loop U ps text) /\ ~ In 46 (closing_loop U ps text).
Proof.
  induction ps as [|p r IH]; cbn [closing_loop]; [split; intros []|].
  destruct (findall1 U true p text); [exact IH|].
  apply normalize_date_separators.
Qed.

Lemma spec_loop_length ps text :
  spec_loop U ps text = [] \/
  (50 < length (spec_loop U ps text) <= 2000)%nat.
Proof.
  induction ps as [|p r IH]; cbn [spec_loop]; [now left|].
  destruct (re_search U true p text) as [m|]; [|exact IH].
  cbv zeta.
  destruct (Nat.ltb 50 _) eqn:L; [|exact IH].
  right. apply Nat.ltb_lt in L. rewrite length_firstn. lia.
Qed.
End Fields.

(** X2: the closing date returned for any text contains neither a hyphen
    nor a dot: whatever separators the document uses, the result uses
    slashes. *)
Theorem closing_date_uses_slashes (U : Unicode) (text : str) :
  ~ In 45 (extract_closing_date U text) /\
  ~ In 46 (extract_closing_date U text).
Proof. apply closing_loop_separators. Qed.

(** X3: the specifications text returned for any text is either empty or has
    more than 50 and at most 2000 characters. *)
Theorem specifications_length_bounds (U : Unicode) (text : str) :
  extract_specifications U text = [] \/
  (50 < length (extract_specifications U text) <= 2000)%nat.
Proof. apply spec_loop_length. Qed.
End ParserFacts.


(** ** Further properties of language detection and of the item scan *)

Module ScanFacts.
Import Re TenderParser Trace Notions.

Section Language.
Variable U : Unicode.

(** [detect_language] is a function of the two character counts. *)
Lemma detect_language_of_counts text :
  detect_language U text =
  let a := count is_arabic text in
  let t := count non_space text in
  if Nat.eqb t 0 then
    {| li_language := Unknown; li_arabic_ratio := 0; li_has_arabic := false |}
  else
    {| li_language := if Qgtb (ratio a t) (3 # 10) then Arabic
                      else if Qgtb (ratio a t) (5 # 100) then Mixed
                      else English;
       li_arabic_ratio := ratio a t;
       li_has_arabic := Nat.ltb 0 a |}.
Proof.
  unfold detect_language.
  now rewrite LanguageFacts.arabic_chars_count, LanguageFacts.total_chars_count.
Qed.

Lemma Qgtb_ratio_3_10 a t :
  t <> O -> Qgtb (ratio a t) (3 # 10) = Nat.ltb (3 * t) (10 * a).
Proof.
  intros Ht. unfold Qgtb, Qle_bool, ratio. cbn [Qnum Qden].
  rewrite (LanguageFacts.pos_of_nat_Z Ht).
  destruct (Z.leb_spec (Z.of_nat a * 10) (3 * Z.of_nat t));
    destruct (Nat.ltb_spec (3 * t) (10 * a)); simpl; trivial; lia.
Qed.

Lemma Qgtb_ratio_5_100 a t :
  t <> O -> Qgtb (ratio a t) (5 # 100) = Nat.ltb t (20 * a).
Proof.
  intros Ht. unfold Qgtb, Qle_bool, ratio. cbn [Qnum Qden].
  rewrite (LanguageFacts.pos_of_nat_Z Ht).
  destruct (Z.leb_spec (Z.of_nat a * 100) (5 * Z.of_nat t));
    destruct (Nat.ltb_spec t (20 * a)); simpl; trivial; lia.
Qed.

Lemma count_filter_sub (p q : N -> bool) s :
  (forall c, p c = true -> q c = true) ->
  count p (filter q s) = count p s.
Proof.
  intros H. unfold count. induction s as [|c r IH]; simpl; [reflexivity|].
  destruct (q c) eqn:Q; simpl.
  - destruct (p c); simpl; now rewrite IH.
  - destruct (p c) eqn:P; [rewrite (H c P) in Q; discriminate|exact IH].
Qed.
End Language.

(** X4: the language [detect_language] returns is decided by integer
    comparisons of the number A of Arabic characters and the number T of
    non-whitespace characters: unknown when T = 0, arabic when 10 A > 3 T,
    mixed when that fails and 20 A > T, english otherwise. *)
Theorem language_decided_by_counts (U : Unicode) (text : str) :
  li_language (detect_language U text) =
  language_by_counts (count is_arabic text) (count non_space text).
Proof.
  rewrite detect_language_of_counts. cbv zeta. unfold language_by_counts.
  destruct (Nat.eqb (count non_space text) 0) eqn:E; [reflexivity|].
  apply Nat.eqb_neq in E. cbn [li_language].
  now rewrite (Qgtb_ratio_3_10 _ E), (Qgtb_ratio_5_100 _ E).
Qed.

(** X5: whitespace does not count: removing every whitespace character
    from a text leaves the whole result of [detect_language] unchanged. *)
Theorem detect_language_ignores_whitespace (U : Unicode) (text : str) :
  detect_language U (filter non_space text) = detect_language U text.
Proof.
  rewrite !detect_language_of_counts.
  rewrite (count_filter_sub is_arabic non_space text
             LanguageFacts.arabic_not_space).
  rewrite (count_filter_sub non_space non_space text (fun c H => H)).
  reflexivity.
Qed.

Section Dedup.
Variable U : Unicode.

Lemma keep_first_fixed its : forall seen,
  (forall x, In x its -> seen_mem (dedup_key U x) seen = false) ->
  NoDup (map (dedup_key U) its) ->
  keep_first U seen its = its.
Proof.
  induction its as [|it r IH]; intros seen Hs Hn; [reflexivity|].
  cbn [keep_first]. rewrite (Hs it (or_introl eq_refl)).
  f_equal. inversion Hn as [|k ks Hk Hr]; subst.
  apply IH; [|exact Hr].
  intros x Hx. rewrite ItemFacts.seen_mem_cons.
  rewrite (Hs x (or_intror Hx)), orb_false_r.
  destruct (str_eqb (dedup_key U x) (dedup_key U it)) eqn:E; [|reflexivity].
  apply str_eqb_eq in E. exfalso. apply Hk. rewrite <- E.
  now apply in_map.
Qed.

Lemma keep_first_length its : forall seen,
  (length (keep_first U seen its) <= length its)%nat.
Proof.
  induction its as [|it r IH]; intros seen; simpl; [lia|].
  destruct (seen_mem (dedup_key U it) seen); simpl.
  - specialize (IH seen). lia.
  - specialize (IH (dedup_key U it :: seen)). lia.
Qed.

Lemma keep_first_in its : forall seen x,
  In x (keep_first U seen its) -> In x its.
Proof.
  induction its as [|it r IH]; intros seen x H; simpl in *; [exact H|].
  destruct (seen_mem (dedup_key U it) seen).
  - right. eapply IH, H.
  - destruct H as [H|H]; [now left|right; eapply IH, H].
Qed.
End Dedup.

(** X6: the dedup pass never lengthens a list, and running it twice gives
    the same list as running it once. *)
Theorem remove_duplicates_idempotent (U : Unicode) (its : list TenderItem) :
  remove_duplicates U (remove_duplicates U its) = remove_duplicates U its /\
  (length (remove_duplicates U its) <= length its)%nat.
Proof.
  rewrite !ItemFacts.remove_duplicates_keep_first. split.
  - apply keep_first_fixed; [reflexivity|apply ItemFacts.keep_first_nodup].
  - apply keep_first_length.
Qed.

Section Scan.
Variable U : Unicode.

Lemma structural_item_ok line it n :
  structural_item U line = Some (it, n) -> description_ok it.
Proof.
  unfold structural_item.
  destruct (first_item_match U item_patterns line) as [gs|]; [|discriminate].
  cbv zeta. intros H.
  match type of H with
  | (if ?b then _ else _) = _ => destruct b eqn:L; [|discriminate]
  end.
  apply (f_equal (fun o => match o with
                           | Some (i, _) => description i
                           | None => []
                           end)) in H.
  cbv beta iota in H. cbn [description] in H.
  unfold description_ok. rewrite <- H.
  apply Nat.ltb_lt in L. rewrite length_firstn. lia.
Qed.

Lemma fallback_item_ok line parts n :
  fallback_parts U line = Some parts -> description_ok (fallback_item U n parts).
Proof.
  unfold fallback_parts.
  destruct (re_search U true fallback_pattern line) as [m|]; [|discriminate].
  cbv zeta. intros H.
  match type of H with
  | (if ?b then _ else _) = _ => destruct b eqn:L; [|discriminate]
  end.
  injection H as <-. apply andb_prop in L as [L _].
  unfold description_ok, fallback_item. cbn [description].
  apply Nat.ltb_lt in L. rewrite length_firstn. lia.
Qed.

Lemma scan_line_ok st raw :
  Forall description_ok (st_items st) ->
  Forall description_ok (st_items (scan_line U st raw)).
Proof.
  intros H. unfold scan_line. cbv zeta.
  destruct (is_garbage_line U (strip raw)); [exact H|].
  destruct (Nat.ltb (length (strip raw)) 5); [exact H|].
  assert (Hs : Forall description_ok
                 (st_items (structural_step U st (strip raw)))).
  { unfold structural_step.
    destruct (structural_item U (strip raw)) as [[it n]|] eqn:E; [|exact H].
    cbn [st_items]. apply Forall_app. split; [exact H|].
    constructor; [|constructor]. eapply structural_item_ok, E. }
  unfold fallback_step.
  destruct (fallback_guard _); [|exact Hs].
  destruct (fallback_parts U (strip raw)) as [parts|] eqn:E; [|exact Hs].
  cbn [st_items]. apply Forall_app. split; [exact Hs|].
  constructor; [|constructor]. eapply fallback_item_ok, E.
Qed.

Lemma scan_lines_ok lines : forall st,
  Forall description_ok (st_items st) ->
  Forall description_ok (st_items (scan_lines U st lines)).
Proof.
  induction lines as [|raw rest IH]; intros st H; [exact H|].
  apply IH, scan_line_ok, H.
Qed.

Lemma scan_line_inactive st raw :
  line_active U raw = false -> scan_line U st raw = st.
Proof.
  unfold line_active, scan_line. cbv zeta.
  destruct (is_garbage_line U (strip raw)); [reflexivity|].
  destruct (Nat.ltb (length (strip raw)) 5); [reflexivity|discriminate].
Qed.

Lemma scan_lines_active lines : forall st,
  scan_lines U st lines = scan_lines U st (filter (line_active U) lines).
Proof.
  induction lines as [|raw rest IH]; intros st; [reflexivity|].
  cbn [filter]. destruct (line_active U raw) eqn:A.
  - apply IH.
  - unfold scan_lines at 1. cbn [fold_left].
    rewrite (scan_line_inactive st raw A). apply IH.
Qed.

Lemma scan_line_at_most_one st raw :
  structural_item U (strip raw) = None ->
  at_most_one st -> at_most_one (scan_line U st raw).
Proof.
  intros Hn H. unfold scan_line. cbv zeta.
  destruct (is_garbage_line U (strip raw)); [exact H|].
  destruct (Nat.ltb (length (strip raw)) 5); [exact H|].
  unfold structural_step. rewrite Hn. unfold fallback_step.
  destruct H as [-> | [Hl Hc]].
  - cbn. destruct (fallback_parts U (strip raw)); [|now left].
    right. cbn. split; [reflexivity|discriminate].
  - unfold fallback_guard.
    destruct (st_items st) as [|x xs] eqn:Ei; [discriminate|].
    apply N.eqb_neq in Hc. rewrite Hc. cbn. right.
    split; [now rewrite Ei|now apply N.eqb_neq].
Qed.

Lemma scan_lines_at_most_one lines : forall st,
  (forall raw, In raw lines -> structural_item U (strip raw) = None) ->
  at_most_one st -> at_most_one (scan_lines U st lines).
Proof.
  induction lines as [|raw rest IH]; intros st Hn H; [exact H|].
  apply IH; [intros r Hr; apply Hn; now right|].
  apply scan_line_at_most_one; [apply Hn; now left|exact H].
Qed.
End Scan.

(** X7: every item returned by [extract_items] has a description of more
    than 3 and at most 500 characters. *)
Theorem item_description_bounds (U : Unicode) (text : str) (it : TenderItem) :
  In it (extract_items U text) ->
  (3 < length (description it) <= 500)%nat.
Proof.
  intros H. unfold extract_items in H.
  rewrite ItemFacts.remove_duplicates_keep_first in H.
  apply keep_first_in in H.
  assert (F : Forall (description_ok) (scanned_items U text)).
  { apply scan_lines_ok. constructor. }
  rewrite Forall_forall in F. exact (F it H).
Qed.

Lemma item_description_bounds_witness :
  (3 < length (lit "Surgical Gloves") <= 500)%nat.
Proof.
  apply (item_description_bounds ascii_tables Examples.end_to_end_text
           (Examples.english_item "1" "Surgical Gloves" "500" "pieces")).
  assert (E : extract_items ascii_tables Examples.end_to_end_text =
              [Examples.english_item "1" "Surgical Gloves" "500" "pieces";
               Examples.english_item "2" "Syringes 10ml -" "1000" "units"])
    by (vm_compute; reflexivity).
  rewrite E. left. reflexivity.
Defined.

(** X8: garbage lines and lines shorter than 5 characters have no effect:
    the items extracted from a text are those extracted from its remaining
    lines. *)
Theorem skipped_lines_have_no_effect (U : Unicode) (text : str) :
  extract_items U text =
  remove_duplicates U
    (st_items (scan_lines U scan_init
                 (filter (line_active U) (split_on 10 text)))).
Proof.
  unfold extract_items, scanned_items. now rewrite <- scan_lines_active.
Qed.

(** X9: when no line of the text gives a structural item, [extract_items]
    returns at most one item: the fallback emits once and is not tried
    again. *)
Theorem fallback_alone_emits_once (U : Unicode) (text : str) :
  (forall raw, In raw (split_on 10 text) ->
               structural_item U (strip raw) = None) ->
  (length (extract_items U text) <= 1)%nat.
Proof.
  intros Hn. unfold extract_items.
  rewrite ItemFacts.remove_duplicates_keep_first.
  eapply Nat.le_trans; [apply keep_first_length|].
  unfold scanned_items.
  destruct (@scan_lines_at_most_one U (split_on 10 text) scan_init Hn
              (or_introl eq_refl)) as [-> | [Hl _]].
  - simpl. lia.
  - lia.
Qed.

Lemma fallback_alone_emits_once_witness :
  (length (extract_items ascii_tables MoreExamples.unnumbered_text) <= 1)%nat.
Proof.
  apply (fallback_alone_emits_once ascii_tables MoreExamples.unnumbered_text).
  intros raw H. cbv in H.
  destruct H as [<- | [<- | []]]; vm_compute; reflexivity.
Defined.
End ScanFacts.


(** ** Further properties of the OCR adapter and the orchestrator *)

Module AdapterFacts.
Import Eff OCREngine TenderExtractor Notions.

Lemma join_nil sep parts :
  join sep parts = [] -> forall t, In t parts -> t = [].
Proof.
  induction parts as [|p [|q r] IH]; intros H t Hin.
  - destruct Hin.
  - destruct Hin as [<-|[]]. exact H.
  - cbn [join] in H. apply app_eq_nil in H as [Hp H].
    apply app_eq_nil in H as [_ H].
    destruct Hin as [<-|Hin]; [exact Hp|]. now apply IH.
Qed.

Lemma join_nonempty sep parts t :
  In t parts -> t <> [] -> join sep parts <> [].
Proof. intros Hin Hne H. apply Hne. eapply join_nil; eassumption. Qed.

Lemma strip_nil_of_nil w : w = [] -> strip w = [].
Proof. intros ->. reflexivity. Qed.

Section Pages.
Variable image : Type.
Variable W : World image.
Variable self : engine.

(** What one successful turn of the page loop did. *)
Lemma pages_loop_cons img rest all_text confidences log log' res :
  pages_loop W self (img :: rest) all_text confidences log = (log', inr res) ->
  exists processed data page_text page_confidences log1,
    image_to_data W processed (lang_str self) = inr data /\
    page_words data 0 (od_text data) [] [] = inr (page_text, page_confidences)
    /\ pages_loop W self rest (all_text ++ [join (lit " ") page_text])
         (match page_confidences with
          | [] => confidences
          | _ => confidences ++ [mean_Z page_confidences]
          end) log1 = (log', inr res).
Proof.
  cbn [pages_loop]. unfold bind at 1, preprocess_image, call.
  destruct (pil_preprocess W img) as [e|processed]; [discriminate|].
  unfold bind at 1.
  destruct (image_to_data W processed (lang_str self)) as [e|data] eqn:R;
    [discriminate|].
  unfold bind at 1, lift.
  destruct (page_words data 0 (od_text data) [] []) as [e|[pt pc]] eqn:Pw;
    [discriminate|].
  intros H. exists processed, data, pt, pc. eexists.
  split; [exact R|]. split; [exact Pw|]. exact H.
Qed.

Lemma page_words_kept d : forall words j pt pc pt' pc',
  page_words d j words pt pc = inr (pt', pc') ->
  cells_at_most_100 d ->
  Forall conf_in_range pc -> text_behind_confidence pt pc ->
  Forall conf_in_range pc' /\ text_behind_confidence pt' pc'.
Proof.
  induction words as [|word rest IH]; intros j pt pc pt' pc' H Hd Hc Ht.
  - cbn [page_words] in H. injection H as <- <-. now split.
  - cbn [page_words] in H. unfold conf_at in H.
    destruct (nth_error (od_conf d) j) as [[z|]|] eqn:E; try discriminate.
    destruct ((0 <? z)%Z && match strip word with [] => false | _ => true end)
      eqn:K.
    + apply andb_prop in K as [Kz Kw]. apply Z.ltb_lt in Kz.
      eapply IH; [exact H|exact Hd| |].
      * apply Forall_app. split; [exact Hc|]. constructor; [|constructor].
        split; [exact Kz|]. apply Hd. eapply nth_error_In, E.
      * intros _. exists word. split; [apply in_or_app; right; now left|].
        intros ->. discriminate Kw.
    + eapply IH; eassumption.
Qed.

Lemma sum_Z_bounds l :
  Forall conf_in_range l ->
  (Z.of_nat (length l) <= fold_right Z.add 0 l <= 100 * Z.of_nat (length l))%Z.
Proof.
  induction 1 as [|z r [Hz1 Hz2] _ IH]; [simpl; lia|].
  cbn [fold_right length]. rewrite Nat2Z.inj_succ. lia.
Qed.

Lemma mean_Z_in_range l :
  l <> [] -> Forall conf_in_range l -> mean_in_range (mean_Z l).
Proof.
  intros Hne Hl. pose proof (sum_Z_bounds Hl) as [Hlo Hhi].
  assert (Hn : (0 < Z.of_nat (length l))%Z) by (destruct l; [congruence|simpl; lia]).
  assert (HnQ : (0 < inject_Z (Z.of_nat (length l)))%Q)
    by (rewrite <- (Zlt_Qlt 0); exact Hn).
  unfold mean_in_range, mean_Z. split.
  - apply Qle_shift_div_l; [exact HnQ|].
    rewrite Qmult_0_l. rewrite <- (Zle_Qle 0). lia.
  - apply Qle_shift_div_r; [exact HnQ|].
    change 100%Q with (inject_Z 100). rewrite <- inject_Z_mult, <- Zle_Qle. lia.
Qed.

Lemma sum_Q_bounds l :
  Forall mean_in_range l ->
  (0 <= fold_right Qplus 0 l)%Q /\
  (fold_right Qplus 0 l <= inject_Z (100 * Z.of_nat (length l)))%Q.
Proof.
  induction 1 as [|q r [Hq1 Hq2] _ [IH1 IH2]].
  - split; simpl; apply Qle_refl.
  - cbn [fold_right length]. split.
    + change 0%Q with (0 + 0)%Q. now apply Qplus_le_compat.
    + replace (100 * Z.of_nat (S (length r)))%Z
        with (100 + 100 * Z.of_nat (length r))%Z by lia.
      rewrite inject_Z_plus. now apply Qplus_le_compat.
Qed.

Lemma mean_Q_in_range l :
  l <> [] -> Forall mean_in_range l -> mean_in_range (mean_Q l).
Proof.
  intros Hne Hl. pose proof (sum_Q_bounds Hl) as [Hlo Hhi].
  assert (Hn : (0 < Z.of_nat (length l))%Z) by (destruct l; [congruence|simpl; lia]).
  assert (HnQ : (0 < inject_Z (Z.of_nat (length l)))%Q)
    by (rewrite <- (Zlt_Qlt 0); exact Hn).
  unfold mean_in_range, mean_Q. split.
  - apply Qle_shift_div_l; [exact HnQ|]. now rewrite Qmult_0_l.
  - apply Qle_shift_div_r; [exact HnQ|].
    change 100%Q with (inject_Z 100). now rewrite <- inject_Z_mult.
Qed.

(** The page loop keeps both invariants. *)
Lemma pages_loop_kept images : forall all_text confidences log log' all' conf',
  pages_loop W self images all_text confidences log
    = (log', inr (all', conf')) ->
  text_behind_confidence all_text confidences ->
  text_behind_confidence all' conf' /\
  (recognizer_bounded W -> Forall mean_in_range confidences ->
   Forall mean_in_range conf').
Proof.
  induction images as [|img rest IH];
    intros all_text confidences log log' all' conf' H Ht.
  - cbn [pages_loop] in H. unfold ret in H. injection H as _ <- <-.
    now split.
  - apply pages_loop_cons in H
      as (processed & data & pt & pc & log1 & Hr & Hp & H).
    assert (Hpw : cells_at_most_100 data ->
                  Forall conf_in_range pc /\ text_behind_confidence pt pc).
    { intros Hd. eapply page_words_kept; [exact Hp|exact Hd|constructor|].
      intros Hne. congruence. }
    assert (Htext : text_behind_confidence pt pc).
    { (* the text invariant of the page does not need the bound *)
      clear -Hp.
      assert (G : forall words j a b a' b',
                 page_words data j words a b = inr (a', b') ->
                 text_behind_confidence a b -> text_behind_confidence a' b').
      { induction words as [|word r IHw]; intros j a b a' b' H Hab.
        - cbn [page_words] in H. now injection H as <- <-.
        - cbn [page_words] in H.
          destruct (conf_at data j) as [e|z]; [discriminate|].
          destruct ((0 <? z)%Z
                    && match strip word with [] => false | _ => true end)
            eqn:K; [|eapply IHw; eassumption].
          apply andb_prop in K as [_ Kw].
          eapply IHw; [exact H|]. intros _. exists word.
          split; [apply in_or_app; right; now left|].
          intros ->. discriminate Kw. }
      eapply G; [exact Hp|]. intros Hne. congruence. }
    apply IH in H.
    + destruct H as [H1 H2]. split; [exact H1|].
      intros Hb Hc. apply H2; [exact Hb|].
      destruct pc as [|z zs]; [exact Hc|].
      apply Forall_app. split; [exact Hc|]. constructor; [|constructor].
      apply mean_Z_in_range; [discriminate|].
      apply Hpw. eapply Hb, Hr.
    + intros Hne. destruct pc as [|z zs].
      * destruct (Ht Hne) as (t & Hin & Hnz). exists t.
        split; [apply in_or_app; now left|exact Hnz].
      * destruct (Htext ltac:(discriminate)) as (w & Hin & Hnz).
        exists (join (lit " ") pt).
        split; [apply in_or_app; right; now left|].
        eapply join_nonempty; eassumption.
Qed.

(** A value returned by [extract_text_from_pdf] is the pair of the empty
    text and 0, or comes from a completed page loop. *)
Lemma extract_text_result pdf_path max_pages log log' text conf :
  extract_text_from_pdf W self pdf_path max_pages log
    = (log', inr (text, conf)) ->
  (text = [] /\ conf = 0%Q) \/
  exists images log1 all_text confidences,
    pages_loop W self images [] [] log1 = (log', inr (all_text, confidences))
    /\ text = join PAGE_BREAK all_text
    /\ conf = match confidences with [] => 0%Q | _ => mean_Q confidences end.
Proof.
  unfold extract_text_from_pdf. unfold bind at 1, call.
  destruct (path_exists W pdf_path); cbn [negb].
  - unfold catch, ocr_body. unfold bind at 1, call.
    destruct (convert_from_path W pdf_path (dpi self) 1 _) as [e|images].
    + unfold ret. intros H. injection H as _ <- <-. now left.
    + unfold bind at 1.
      destruct (pages_loop W self images [] [] _) as [l [e|[a c]]] eqn:P.
      * unfold ret. intros H. injection H as _ <- <-. now left.
      * unfold ret. intros H. injection H as <- <- <-. right.
        exists images. eexists. exists a, c. split; [exact P|]. now split.
  - unfold ret. intros H. injection H as _ <- <-. now left.
Qed.
End Pages.

(** X10: when every integer confidence cell the recognizer returns is at
    most 100, the confidence returned by [extract_text_from_pdf] lies
    between 0 and 100. *)
Theorem ocr_confidence_in_range (image : Type) (W : World image)
    (self : engine) (pdf_path : str) (max_pages : option Z)
    (log log' : list (ext_call image)) (text : str) (conf : Q) :
  recognizer_bounded W ->
  extract_text_from_pdf W self pdf_path max_pages log
    = (log', inr (text, conf)) ->
  (0 <= conf)%Q /\ (conf <= 100)%Q.
Proof.
  intros Hb H. apply extract_text_result in H
    as [[_ ->] | (images & log1 & a & c & Hp & _ & ->)].
  - split; unfold Qle; simpl; lia.
  - destruct (pages_loop_kept _ _ _ _ Hp) as [_ Hc];
      [intros Hne; congruence|].
    specialize (Hc Hb (Forall_nil _)).
    destruct c as [|q r]; [split; unfold Qle; simpl; lia|].
    apply mean_Q_in_range; [discriminate|exact Hc].
Qed.

Lemma ocr_confidence_in_range_witness :
  (0 <= 170 # 2)%Q /\ (170 # 2 <= 100)%Q.
Proof.
  apply (@ocr_confidence_in_range unit MoreExamples.two_words
           Worlds.sample_engine Worlds.sample_path None []
           [CallExists unit Worlds.sample_path;
            CallConvert unit Worlds.sample_path 300 1 10;
            CallPreprocess tt; CallRecognize tt (lit "eng+ara")]
           (lit "Tender 25MS1234") (170 # 2)).
  - intros img lang d H. injection H as <-. intros z Hin.
    simpl in Hin. destruct Hin as [H|[H|[H|[]]]]; injection H as <-; lia.
  - reflexivity.
Defined.

(** X11: [extract_text_from_pdf] returns the empty text only together with
    confidence 0: a page with a kept word contributes a non-empty text. *)
Theorem empty_text_has_zero_confidence (image : Type) (W : World image)
    (self : engine) (pdf_path : str) (max_pages : option Z)
    (log log' : list (ext_call image)) (conf : Q) :
  extract_text_from_pdf W self pdf_path max_pages log
    = (log', inr ([], conf)) ->
  conf = 0%Q.
Proof.
  intros H. apply extract_text_result in H
    as [[_ ->] | (images & log1 & a & c & Hp & Ht & ->)]; [reflexivity|].
  destruct (pages_loop_kept _ _ _ _ Hp) as [Hc _];
    [intros Hne; congruence|].
  destruct c as [|q r]; [reflexivity|].
  destruct (Hc ltac:(discriminate)) as (t & Hin & Hne).
  exfalso. apply Hne. eapply join_nil; [symmetry; exact Ht|exact Hin].
Qed.

Lemma empty_text_has_zero_confidence_witness :
  snd (extract_text_from_pdf MoreExamples.blank_page Worlds.sample_engine
         Worlds.sample_path None []) = inr ([], 0%Q).
Proof.
  assert (E : extract_text_from_pdf MoreExamples.blank_page
                Worlds.sample_engine Worlds.sample_path None [] =
              ([CallExists unit Worlds.sample_path;
                CallConvert unit Worlds.sample_path 300 1 10;
                CallPreprocess tt; CallRecognize tt (lit "eng+ara")],
               inr ([], 0%Q))) by reflexivity.
  pose proof (@empty_text_has_zero_confidence unit MoreExamples.blank_page
                Worlds.sample_engine Worlds.sample_path None [] _ _ E) as Hz.
  rewrite E. cbn [snd]. revert Hz. intros _. reflexivity.
Defined.
End AdapterFacts.


(** ** The limit on [int()] in the item scan *)

Module LimitFacts.
Import Eff TenderParser Trace Notions.

Section Limit.
Variable limit : option nat.
Variable U : Unicode.

Lemma int_accepts s :
  too_long limit s = false -> Checked.int limit U s = inr (int_of_str U s).
Proof.
  unfold too_long, Checked.int. destruct limit as [l|]; [|reflexivity].
  now intros ->.
Qed.

Lemma int_refuses s :
  too_long limit s = true ->
  exists e, Checked.int limit U s = inl e /\ limit_error limit e.
Proof.
  unfold too_long, Checked.int. destruct limit as [l|]; [|discriminate].
  intros H. rewrite H. eexists. split; [reflexivity|].
  exists l, (length s). apply Nat.ltb_lt in H. now repeat split.
Qed.

(** The number a structural match leaves in the counter is that of the item
    number it appends. *)
Lemma structural_item_number line it n :
  structural_item U line = Some (it, n) -> n = int_of_str U (item_number it).
Proof.
  unfold structural_item.
  destruct (first_item_match U item_patterns line) as [gs|]; [|discriminate].
  cbv zeta. intros H.
  match type of H with
  | (if ?b then _ else _) = _ => destruct b eqn:L; [|discriminate]
  end.
  apply (f_equal (fun o => match o with
                           | Some (i, k) => (item_number i, k)
                           | None => ([], 0)
                           end)) in H.
  cbv beta iota in H. cbn [item_number] in H.
  injection H as Hi Hn. now rewrite <- Hi, <- Hn.
Qed.

Lemma scan_line_accepts raw st :
  over_limit limit U raw = false ->
  Checked.scan_line limit U st raw = inr (scan_line U st raw).
Proof.
  unfold over_limit, line_active, Checked.scan_line, scan_line. cbv zeta.
  destruct (is_garbage_line U (strip raw)); [reflexivity|].
  destruct (Nat.ltb (length (strip raw)) 5); [reflexivity|].
  cbn [negb andb]. unfold Checked.structural_step, structural_step.
  destruct (structural_item U (strip raw)) as [[it n]|] eqn:S;
    [|reflexivity].
  intros H. rewrite (int_accepts _ H).
  now rewrite (structural_item_number _ S).
Qed.

Lemma scan_line_refuses raw st :
  over_limit limit U raw = true ->
  exists e, Checked.scan_line limit U st raw = inl e /\ limit_error limit e.
Proof.
  unfold over_limit, line_active, Checked.scan_line. cbv zeta.
  destruct (is_garbage_line U (strip raw)); [discriminate|].
  destruct (Nat.ltb (length (strip raw)) 5); [discriminate|].
  cbn [negb andb]. unfold Checked.structural_step.
  destruct (structural_item U (strip raw)) as [[it n]|]; [|discriminate].
  intros H. destruct (int_refuses _ H) as (e & -> & He).
  now exists e.
Qed.

Lemma scan_lines_accepts lines : forall st,
  existsb (over_limit limit U) lines = false ->
  Checked.scan_lines limit U st lines = inr (scan_lines U st lines).
Proof.
  induction lines as [|raw rest IH]; intros st H; [reflexivity|].
  cbn [existsb] in H. apply orb_false_elim in H as [Hr Hrest].
  cbn [Checked.scan_lines]. rewrite (scan_line_accepts _ _ Hr).
  now apply IH.
Qed.

Lemma scan_lines_refuses lines : forall st,
  existsb (over_limit limit U) lines = true ->
  exists e, Checked.scan_lines limit U st lines = inl e /\ limit_error limit e.
Proof.
  induction lines as [|raw rest IH]; intros st H; [discriminate|].
  cbn [existsb] in H. cbn [Checked.scan_lines].
  destruct (over_limit limit U raw) eqn:Hr.
  - destruct (scan_line_refuses raw st Hr) as (e & -> & He). now exists e.
  - rewrite (scan_line_accepts _ _ Hr). now apply IH.
Qed.

Lemma extract_items_accepts text :
  existsb (over_limit limit U) (split_on 10 text) = false ->
  Checked.extract_items limit U text = inr (extract_items U text).
Proof.
  intros H. unfold Checked.extract_items.
  now rewrite (scan_lines_accepts _ _ H).
Qed.

Lemma extract_items_refuses text :
  existsb (over_limit limit U) (split_on 10 text) = true ->
  exists e, Checked.extract_items limit U text = inl e /\ limit_error limit e.
Proof.
  intros H. unfold Checked.extract_items.
  destruct (scan_lines_refuses _ scan_init H) as (e & -> & He). now exists e.
Qed.

Lemma empty_line_skipped : over_limit limit U [] = false.
Proof.
  unfold over_limit.
  assert (H : line_active U [] = false) by (vm_compute; reflexivity).
  now rewrite H.
Qed.
End Limit.

(** Without a limit the scan is the one of [TenderParser]. *)
Lemma no_limit_no_refusal (U : Unicode) (text : str) :
  Checked.extract_items None U text = inr (extract_items U text).
Proof.
  apply extract_items_accepts.
  induction (split_on 10 text) as [|raw rest IH]; [reflexivity|].
  cbn [existsb]. rewrite IH. unfold over_limit, too_long.
  destruct (line_active U raw); [|reflexivity].
  now destruct (structural_item U (strip raw)) as [[it n]|].
Qed.
End LimitFacts.

(** ** Captured groups are parts of the subject *)

Module CaptureFacts.
Import Re ReSemantics TenderParser.

Section Bounds.
Variable U : Unicode.
Variable ic : bool.
Variable n : nat.

Lemma between_length s s' : (length (between s s') <= length (after s))%nat.
Proof. unfold between. rewrite length_firstn. lia. Qed.

Lemma rep_loop_bounded body g lo hi k :
  bounded_at n body ->
  forall fuel cnt s c res,
    rep_loop body g lo hi k fuel cnt s c = Some res -> within n s c ->
    exists s' c', k s' c' = Some res /\ within n s' c'.
Proof.
  intros Hb. induction fuel as [|f IH]; intros cnt s c res H Hw;
    [discriminate|].
  cbn [rep_loop] in H. cbv zeta in H.
  assert (Hstop : (if Nat.leb lo cnt then k s c else None) = Some res ->
    exists s' c', k s' c' = Some res /\ within n s' c').
  { destruct (Nat.leb lo cnt); [|discriminate]. intros K. now exists s, c. }
  assert (Hmore :
    (if match hi with Some h => Nat.ltb cnt h | None => true end
     then body s c (fun s' c' =>
            if Nat.ltb (length (after s')) (length (after s))
            then rep_loop body g lo hi k f (S cnt) s' c' else None)
     else None) = Some res ->
    exists s' c', k s' c' = Some res /\ within n s' c').
  { destruct (match hi with Some h => Nat.ltb cnt h | None => true end);
      [|discriminate].
    intros K. destruct (Hb _ _ _ _ K Hw) as (s1 & c1 & K1 & Hw1).
    destruct (Nat.ltb (length (after s1)) (length (after s)));
      [|discriminate].
    exact (IH _ _ _ _ K1 Hw1). }
  destruct g.
  - destruct (if match hi with Some h => Nat.ltb cnt h | None => true end
              then _ else None) as [r|] eqn:M.
    + injection H as ->. apply Hmore. reflexivity.
    + apply Hstop. exact H.
  - destruct (if Nat.leb lo cnt then k s c else None) as [r|] eqn:St.
    + injection H as ->. apply Hstop. reflexivity.
    + apply Hmore. exact H.
Qed.

Lemma rmatch_bounded r : bounded_at n (rmatch U ic r).
Proof.
  induction r as [|cs|a IHa b IHb|a IHa b IHb|g lo hi a IHa|i a IHa| | | | ];
    intros s c k res H Hw; cbn [rmatch] in H.
  - now exists s, c.
  - destruct (after s) as [|x xs] eqn:A; [discriminate|].
    destruct (cset_mem U ic cs x); [|discriminate].
    eexists _, c. split; [exact H|].
    destruct Hw as [Hl Hc]. split; [|exact Hc].
    rewrite A in Hl. cbn [after length] in *. lia.
  - destruct (IHa _ _ _ _ H Hw) as (s1 & c1 & H1 & Hw1).
    exact (IHb _ _ _ _ H1 Hw1).
  - destruct (rmatch U ic a s c k) as [r|] eqn:A.
    + injection H as ->. exact (IHa _ _ _ _ A Hw).
    + exact (IHb _ _ _ _ H Hw).
  - exact (@rep_loop_bounded _ g lo hi k IHa _ _ _ _ _ H Hw).
  - destruct (IHa _ _ _ _ H Hw) as (s1 & c1 & H1 & Hl1 & Hc1).
    exists s1, ((i, between s s1) :: c1). split; [exact H1|].
    split; [exact Hl1|].
    intros j v [E|Hin]; [|exact (Hc1 j v Hin)].
    injection E as <- <-. pose proof (between_length s s1).
    destruct Hw as [Hl _]. lia.
  - destruct (before s); [|discriminate]. now exists s, c.
  - assert (K : k s c = Some res).
    { destruct (after s) as [|x [|y r]]; [exact H| |discriminate].
      destruct (x =? 10); [exact H|discriminate]. }
    now exists s, c.
  - assert (K : k s c = Some res).
    { destruct (after s); [exact H|discriminate]. }
    now exists s, c.
  - match type of H with (if ?b then _ else _) = _ => destruct b end;
      [|discriminate].
    now exists s, c.
Qed.
End Bounds.

Section Lines.
Variable U : Unicode.

(** A group of [re.match] is no longer than the subject. *)
Lemma re_match_group_length ic r text m i v :
  re_match U ic r text = Some m -> group m i = Some v ->
  (length v <= length text)%nat.
Proof.
  unfold re_match, match_at.
  destruct (rmatch U ic r _ [] accept) as [[s' c]|] eqn:M; [|discriminate].
  intros H. injection H as <-. unfold group. cbn [m_caps]. intros Hv.
  assert (W : within (length text) {| before := []; after := text |} []).
  { split; [reflexivity|intros j w []]. }
  destruct (@rmatch_bounded U ic (length text) r _ _ _ _ M W)
    as (s1 & c1 & K & _ & Hc).
  unfold accept in K. injection K as <- <-.
  apply (Hc i v). clear - Hv.
  induction c1 as [|[j u] rest IH]; cbn [cap_lookup] in Hv; [discriminate|].
  destruct (Nat.eqb i j) eqn:E.
  - injection Hv as ->. apply Nat.eqb_eq in E. subst. now left.
  - right. now apply IH.
Qed.

Lemma first_item_match_length ps line gs :
  first_item_match U ps line = Some gs ->
  (length (opt_str (nth 0 gs None)) <= length line)%nat.
Proof.
  induction ps as [|[p k] rest IH]; cbn [first_item_match]; [discriminate|].
  destruct (re_match U true p line) as [m|] eqn:M; [|exact IH].
  intros H. injection H as <-. unfold groups.
  destruct k as [|k]; [cbn; lia|]. cbn [List.seq map nth].
  destruct (group m 1) as [v|] eqn:G; [|cbn; lia].
  cbn [opt_str]. exact (re_match_group_length _ _ _ _ M G).
Qed.

(** The item number of a structural item is no longer than its line. *)
Lemma structural_item_number_length line it k :
  structural_item U line = Some (it, k) ->
  (length (item_number it) <= length line)%nat.
Proof.
  unfold structural_item.
  destruct (first_item_match U item_patterns line) as [gs|] eqn:F;
    [|discriminate].
  cbv zeta. intros H.
  match type of H with
  | (if ?b then _ else _) = _ => destruct b eqn:L; [|discriminate]
  end.
  apply (f_equal (fun o => match o with
                           | Some (i, _) => item_number i
                           | None => []
                           end)) in H.
  cbv beta iota in H. cbn [item_number] in H. rewrite <- H.
  exact (first_item_match_length _ _ F).
Qed.

Lemma lstrip_length s : (length (lstrip s) <= length s)%nat.
Proof.
  induction s as [|c r IH]; [reflexivity|]. cbn [lstrip].
  destruct (is_space c); cbn [length]; lia.
Qed.

Lemma strip_length s : (length (strip s) <= length s)%nat.
Proof.
  unfold strip, rstrip. rewrite length_rev.
  pose proof (lstrip_length (rev (lstrip s))) as H.
  rewrite length_rev in H. pose proof (lstrip_length s). lia.
Qed.

Lemma split_on_length sep text : forall raw,
  In raw (split_on sep text) -> (length raw <= length text)%nat.
Proof.
  induction text as [|c r IH]; intros raw Hin.
  - destruct Hin as [<-|[]]. reflexivity.
  - cbn [split_on] in Hin. destruct (c =? sep).
    + destruct Hin as [<-|Hin]; [cbn; lia|].
      apply IH in Hin. cbn [length]. lia.
    + destruct (split_on sep r) as [|w ws] eqn:S.
      * destruct Hin as [<-|[]]. cbn [length].
        specialize (IH []). cbn in *. lia.
      * destruct Hin as [<-|Hin].
        -- specialize (IH w (or_introl eq_refl)). cbn [length]. lia.
        -- specialize (IH raw (or_intror Hin)). cbn [length]. lia.
Qed.

(** A line within the limit is not refused. *)
Lemma short_line_accepted l raw :
  (length raw <= l)%nat -> Notions.over_limit (Some l) U raw = false.
Proof.
  intros H. unfold Notions.over_limit, Notions.too_long.
  destruct (Trace.line_active U raw); [|reflexivity]. cbn [andb].
  destruct (structural_item U (strip raw)) as [[it k]|] eqn:S;
    [|reflexivity].
  apply Nat.ltb_ge. pose proof (structural_item_number_length _ S).
  pose proof (strip_length raw). lia.
Qed.

Lemma short_lines_accepted l lines :
  Forall (fun raw => length raw <= l)%nat lines ->
  existsb (Notions.over_limit (Some l) U) lines = false.
Proof.
  induction 1 as [|raw rest Hr _ IH]; [reflexivity|].
  cbn [existsb]. now rewrite (short_line_accepted _ Hr), IH.
Qed.
End Lines.
End CaptureFacts.

(** ** Further properties of the entry points *)

Module EntryFacts.
Import Eff OCREngine TenderExtractor Notions.

Section Orchestrator.
Variable U : Unicode.
Variable image : Type.
Variable W : World image.

Lemma extract_text_returns self pdf_path max_pages log :
  exists log' text conf,
    extract_text_from_pdf W self pdf_path max_pages log
      = (log', inr (text, conf)).
Proof.
  unfold extract_text_from_pdf. unfold bind at 1, call.
  destruct (path_exists W pdf_path); cbn [negb].
  - unfold catch.
    destruct (ocr_body W self pdf_path _ _) as [l [e|[t c]]];
      repeat eexists.
  - repeat eexists.
Qed.
End Orchestrator.

(** X22: [extract_items] with the interpreter's limit on [int()].  It
    raises the ValueError of [int()] exactly when a scanned line gives a
    structural item whose number has more digits than the limit, and
    otherwise returns what the scan computes without a limit.  So it returns
    when there is no limit, when no line of the text is longer than the
    limit, and when the text itself is not. *)
Theorem extract_items_refusal (limit : option nat) (U : Unicode)
    (text : str) :
  let run := Checked.extract_items limit U text in
  let items := TenderParser.extract_items U text in
  (if existsb (over_limit limit U) (split_on 10 text)
   then exists e, run = inl e /\ limit_error limit e
   else run = inr items) /\
  (limit = None -> run = inr items) /\
  (forall l, limit = Some l ->
     Forall (fun raw => length raw <= l)%nat (split_on 10 text) ->
     run = inr items) /\
  (forall l, limit = Some l -> (length text <= l)%nat -> run = inr items).
Proof.
  cbv zeta. split; [|split; [|split]].
  - destruct (existsb _ _) eqn:X.
    + now apply LimitFacts.extract_items_refuses.
    + now apply LimitFacts.extract_items_accepts.
  - intros ->. apply LimitFacts.no_limit_no_refusal.
  - intros l -> H. apply LimitFacts.extract_items_accepts.
    now apply CaptureFacts.short_lines_accepted.
  - intros l -> H. apply LimitFacts.extract_items_accepts.
    apply CaptureFacts.short_lines_accepted. apply Forall_forall.
    intros raw Hin. apply CaptureFacts.split_on_length in Hin. lia.
Qed.

Lemma extract_items_refusal_witness :
  Checked.extract_items (Some Checked.DEFAULT_MAX_STR_DIGITS) ascii_tables
    Examples.end_to_end_text =
  inr (TenderParser.extract_items ascii_tables Examples.end_to_end_text).
Proof.
  destruct (extract_items_refusal (Some Checked.DEFAULT_MAX_STR_DIGITS)
              ascii_tables Examples.end_to_end_text) as (_ & _ & _ & H).
  apply (H Checked.DEFAULT_MAX_STR_DIGITS); [reflexivity|].
  vm_compute. repeat constructor.
Defined.

(** X12: [process_pdf] returns a record unless an [int(item_no)] of the item
    scan refuses its digits.  With the text the OCR adapter returns: when a
    scanned line gives a structural item whose number has more digits than
    the interpreter's limit, [process_pdf] raises the ValueError of [int()],
    before the clock is read; otherwise it returns a record with the given
    department, the base name of the path as its only source file, the
    current time, the items of [extract_items] (none for an empty text), an
    item count equal to their number, no raw text unless it was asked for,
    and either no error or the single error of a failed extraction.  It
    returns in particular when the interpreter has no limit and when no line
    of the text is longer than the limit. *)
Theorem process_pdf_returns_or_int_raises (U : Unicode) (image : Type)
    (W : World image) (self : engine) (pdf_path dept : str)
    (max_pages : option Z) (include_raw_text : bool)
    (log : list (ext_call image)) :
  let run :=
    process_pdf U W self pdf_path dept max_pages include_raw_text log in
  exists log1 text conf,
    extract_text_from_pdf W self pdf_path max_pages log
      = (log1, inr (text, conf)) /\
    (if existsb (over_limit (int_max_str_digits W) U) (split_on 10 text)
     then exists e, run = (log1, inl e) /\
                    limit_error (int_max_str_digits W) e
     else exists d, run = (log1 ++ [CallNow image], inr d) /\
                    record_of W pdf_path dept include_raw_text d /\
                    items d = match text with
                              | [] => []
                              | _ => TenderParser.extract_items U text
                              end) /\
    (int_max_str_digits W = None -> exists d, snd run = inr d) /\
    (forall l, int_max_str_digits W = Some l ->
       Forall (fun raw => length raw <= l)%nat (split_on 10 text) ->
       exists d, snd run = inr d).
Proof.
  cbv zeta.
  destruct (extract_text_returns W self pdf_path max_pages log)
    as (log1 & text & conf & E).
  exists log1, text, conf. split; [exact E|].
  assert (R : if existsb (over_limit (int_max_str_digits W) U)
                         (split_on 10 text)
     then exists e,
            process_pdf U W self pdf_path dept max_pages include_raw_text log
              = (log1, inl e) /\
            limit_error (int_max_str_digits W) e
     else exists d,
            process_pdf U W self pdf_path dept max_pages include_raw_text log
              = (log1 ++ [CallNow image], inr d) /\
            record_of W pdf_path dept include_raw_text d /\
            items d = match text with
                      | [] => []
                      | _ => TenderParser.extract_items U text
                      end).
  { destruct text as [|c t].
    - cbn [split_on existsb]. rewrite LimitFacts.empty_line_skipped.
      cbn [orb]. unfold process_pdf. unfold bind at 1. rewrite E.
      unfold bind, call, ret. eexists. split; [reflexivity|].
      split; [|reflexivity].
      unfold record_of. cbn. repeat split; auto.
    - destruct (existsb _ (split_on 10 (c :: t))) eqn:X.
      + destruct (LimitFacts.extract_items_refuses _ _ _ X) as (e & He & Hl).
        exists e. split; [|exact Hl].
        unfold process_pdf. unfold bind at 1. rewrite E.
        unfold bind at 1, lift. now rewrite He.
      + unfold process_pdf. unfold bind at 1. rewrite E.
        unfold bind at 1, lift.
        rewrite (LimitFacts.extract_items_accepts _ _ _ X).
        unfold bind, call, ret. eexists. split; [reflexivity|].
        split; [|reflexivity].
        unfold record_of. cbn. repeat split; auto.
        intros ->. reflexivity. }
  split; [exact R|]. split.
  - intros N. rewrite N in R.
    assert (X : existsb (over_limit None U) (split_on 10 text) = false).
    { clear. induction (split_on 10 text) as [|raw rest IH]; [reflexivity|].
      cbn [existsb]. rewrite IH. unfold over_limit, too_long.
      destruct (Trace.line_active U raw); [|reflexivity].
      now destruct (TenderParser.structural_item U (strip raw)) as [[it n]|]. }
    rewrite X in R. destruct R as (d & -> & _). now exists d.
  - intros l L H. rewrite L in R.
    rewrite (CaptureFacts.short_lines_accepted U H) in R.
    destruct R as (d & -> & _). now exists d.
Qed.

(** A page whose line starts with an item number of 4301 digits makes
    [process_pdf] raise under the default limit, and [main] print a failure
    and exit with status 1. *)
Lemma long_item_number_example :
  snd (process_pdf ascii_tables MoreExamples.long_number_page
         Worlds.sample_engine Worlds.sample_path
         (lit "Biomedical Engineering") None false []) =
    inl (Exception (Checked.int_limit_message 4300 4301)) /\
  snd (CommandLine.main ascii_tables MoreExamples.long_number_page
         MoreExamples.linux_env MoreExamples.stdout_open
         (CommandLine.Parsed Worlds.sample_args) []) =
    ([CommandLine.Failure (Checked.int_limit_message 4300 4301)],
     CommandLine.Exited 1).
Proof. split; vm_compute; reflexivity. Qed.





Section EntryPoint.
Import CommandLine.
Variable U : Unicode.
Variable image : Type.
Variable W : World image.
Variable E : Dependencies.Env.
Variable print : printed -> exn + unit.

(** What [print_then] gives, for an end with status 0 or 1. *)
Lemma print_then_cases o fin :
  (print o = inr tt /\ print_then print o fin = ([o], fin)) \/
  (exists e, print o = inl e /\ print_then print o fin = ([], Uncaught e)).
Proof.
  unfold print_then. destruct (print o) as [e|[]].
  - right. now exists e.
  - now left.
Qed.

(** The run of the [try] block in [TenderExtractor.main] and here. *)
Lemma main_process_process args file log :
  main_process U W args file log =
  match process U W args file log with
  | (log', inr result) => (log', inr (OutSuccess result, 0%Z))
  | (log', inl e) => (log', inl e)
  end.
Proof.
  cbv [main_process process bind make_engine call ret].
  destruct (engine_setup W) as [e|[]]; [reflexivity|].
  match goal with
  | |- context [process_pdf ?u ?w ?x ?f ?dp ?mp ?rt ?lg] =>
      now destruct (process_pdf u w x f dp mp rt lg) as [l [e|d]]
  end.
Qed.
End EntryPoint.


(** For a parsed command line, a dependency check that returns and a
    standard output that takes every object, [main] prints one object, and
    [TenderExtractor.main] tells that object and the exit status. *)
Lemma main_agrees (U : Unicode) (image : Type) (W : World image)
    (E : Dependencies.Env) (print : CommandLine.printed -> exn + unit)
    (args : cli_args) (log : list (ext_call image))
    (deps : Dependencies.report) :
  (forall o, print o = inr tt) ->
  Dependencies.check_dependencies E = inr deps ->
  dependencies_ready W = Dependencies.ready deps ->
  exists log' o fin,
    CommandLine.main U W E print (CommandLine.Parsed args) log =
      (log', ([o], fin)) /\
    TenderExtractor.main U W args log =
      (log', inr (CommandLine.summary o, CommandLine.exit_status fin)).
Proof.
  intros P D R.
  unfold CommandLine.main, CommandLine.with_dependencies,
    CommandLine.print_then, TenderExtractor.main, check_dependencies.
  rewrite D, R.
  destruct (arg_check args).
  - rewrite P. unfold bind, call, ret. do 3 eexists. split; reflexivity.
  - unfold bind at 1, call.
    destruct (Dependencies.ready deps); cbn [negb].
    + destruct (arg_file args) as [[|c f]|].
      * rewrite P. unfold ret. do 3 eexists. split; reflexivity.
      * unfold bind at 1, call.
        destruct (path_exists W (c :: f)); cbn [negb].
        -- unfold catch. rewrite main_process_process.
           destruct (CommandLine.process U W args (c :: f) _) as [l [e|d]];
             rewrite ?P; unfold ret; do 3 eexists; split; reflexivity.
        -- rewrite P. unfold ret. do 3 eexists. split; reflexivity.
      * rewrite P. unfold ret. do 3 eexists. split; reflexivity.
    + rewrite P. unfold ret. do 3 eexists. split; reflexivity.
Qed.

(** A configured binary that may not be run makes [check_dependencies]
    raise, and the exception leaves [main] with nothing printed; a refused
    command line ends [main] with status 2 before any call. *)
Lemma main_leaves_early_example :
  Dependencies.check_dependencies MoreExamples.locked_env =
    inl MoreExamples.permission_denied /\
  CommandLine.main ascii_tables Worlds.broken_pdf MoreExamples.locked_env
    MoreExamples.stdout_open (CommandLine.Parsed Worlds.sample_args) [] =
    ([CallCheckDeps unit],
     ([], CommandLine.Uncaught MoreExamples.permission_denied)) /\
  CommandLine.main ascii_tables Worlds.broken_pdf MoreExamples.linux_env
    MoreExamples.stdout_open CommandLine.UsageError [] =
    ([], ([], CommandLine.Exited 2)).
Proof. repeat split; vm_compute; reflexivity. Qed.

End EntryFacts.

(** ** Further properties of the image text service *)

Module ServiceMoreFacts.
Import Eff RapidOCR.

Section Keys.
Variables image bytes box elapse : Type.
Variable W : World image bytes box elapse.

(** The dictionaries [extract_text_from_image] can return. *)
Lemma extract_text_from_image_shape image_data_base64 region :
  exists d,
    extract_text_from_image W image_data_base64 region tt = (tt, inr d) /\
    ((exists error, d = failure box elapse error) \/
     (exists res elapsed,
        res <> [] /\
        d = [("success"%string, JBool box elapse true);
             ("text"%string,
              JStr box elapse (join [10] (map (fun it => snd (fst it)) res)));
             ("boxes"%string, JBoxes elapse (map (@make_box box) res));
             ("processing_time_ms"%string, JElapse box elapsed)])).
Proof.
  unfold extract_text_from_image, catch. unfold bind at 1.
  destruct (prepare_image W image_data_base64 region tt) as [[] [e|img]].
  - eexists. split; [reflexivity|]. left. eexists. reflexivity.
  - unfold bind at 1, lift.
    destruct (ocr_engine W img) as [e|[[[|r rs]|] el]].
    + eexists. split; [reflexivity|]. left. eexists. reflexivity.
    + eexists. split; [reflexivity|]. left. eexists. reflexivity.
    + eexists. split; [reflexivity|]. right. exists (r :: rs), el.
      split; [discriminate|reflexivity].
    + eexists. split; [reflexivity|]. left. eexists. reflexivity.
Qed.
End Keys.

(** X14: [extract_text_from_image] never raises.  The dictionary it returns
    always has the success, text and boxes entries; it has an error entry
    and no processing time when success is false, and a processing time, no
    error entry and as many boxes as recognized items when success is
    true. *)
Theorem service_dictionary_keys (image bytes box elapse : Type)
    (W : World image bytes box elapse) (image_data_base64 : str)
    (region : option (list (string * Z))) :
  exists d,
    extract_text_from_image W image_data_base64 region tt = (tt, inr d) /\
    (exists t, dict_get d "text" = Some (JStr box elapse t)) /\
    (exists bs, dict_get d "boxes" = Some (JBoxes elapse bs)) /\
    ((dict_get d "success" = Some (JBool box elapse false) /\
      dict_get d "boxes" = Some (JBoxes elapse []) /\
      (exists e, dict_get d "error" = Some (JStr box elapse e)) /\
      dict_get d "processing_time_ms" = None)
     \/
     (dict_get d "success" = Some (JBool box elapse true) /\
      dict_get d "error" = None /\
      (exists el, dict_get d "processing_time_ms" = Some (JElapse box el)) /\
      (exists bs, dict_get d "boxes" = Some (JBoxes elapse bs) /\ bs <> []))).
Proof.
  destruct (extract_text_from_image_shape W image_data_base64 region)
    as (d & E & [[err ->] | (res & el & Hne & ->)]).
  - eexists. split; [exact E|]. split; [eexists; reflexivity|].
    split; [eexists; reflexivity|]. left.
    repeat split. eexists; reflexivity.
  - eexists. split; [exact E|]. split; [eexists; reflexivity|].
    split; [eexists; reflexivity|]. right.
    repeat split; [eexists; reflexivity|].
    eexists. split; [reflexivity|]. destruct res; [congruence|discriminate].
Qed.

(** X15: the exit code of the service's [main] does not tell whether text
    was recognized: whenever the input carries image data, [main] exits with
    0 and prints the dictionary of [extract_text_from_image] if that
    dictionary can be serialized, whatever its success entry; it exits with
    1 when the input cannot be parsed, carries no image data, or the
    dictionary cannot be serialized. *)
Theorem service_main_exit_code (image bytes box elapse : Type)
    (W : World image bytes box elapse)
    (stdin_json : exn + request)
    (dumps : dict box elapse -> exn + unit) :
  let '(out, code) := service_main W stdin_json dumps in
  (code = 0%Z <->
   exists input_data image_data d,
     stdin_json = inr input_data /\
     req_image input_data = Some image_data /\ image_data <> [] /\
     extract_text_from_image W image_data (req_region input_data) tt
       = (tt, inr d) /\
     dumps d = inr tt /\ out = PrintedResult d) /\
  (code = 0%Z \/ code = 1%Z).
Proof.
  unfold service_main.
  destruct stdin_json as [e|input_data].
  - split; [|now right]. split; [discriminate|].
    intros (i & im & d & H & _). discriminate H.
  - destruct (req_image input_data) as [[|c im]|] eqn:Ri.
    + split; [|now right]. split; [discriminate|].
      intros (i & im & d & H & Hi & Hne & _).
      injection H as <-. rewrite Ri in Hi. injection Hi as <-. congruence.
    + destruct (extract_text_from_image_shape W (c :: im)
                  (req_region input_data)) as (d & E & _).
      rewrite E. destruct (dumps d) as [e|[]] eqn:D.
      * split; [|now right]. split; [discriminate|].
        intros (i & im' & d' & H & Hi & _ & E' & D' & _).
        injection H as <-. rewrite Ri in Hi. injection Hi as <-.
        rewrite E in E'. injection E' as <-. rewrite D in D'. discriminate.
      * split; [|now left]. split; [|reflexivity].
        intros _. exists input_data, (c :: im), d.
        repeat split; auto. discriminate.
    + split; [|now right]. split; [discriminate|].
      intros (i & im & d & H & Hi & _).
      injection H as <-. rewrite Ri in Hi. discriminate.
Qed.
End ServiceMoreFacts.

(** ** Properties of the dependency checks *)

Module DependencyFacts.
Import Eff Dependencies.

Section Find.
Variable E : Env.

Lemma find_in_some paths path :
  find_in E paths = inr (Some path) ->
  In path paths /\ run_version E path = Completed 0.
Proof.
  induction paths as [|p r IH]; cbn [find_in]; [discriminate|].
  destruct (run_version E p) as [code| | |e] eqn:R.
  - destruct (code =? 0)%Z eqn:C.
    + intros H. injection H as <-. apply Z.eqb_eq in C. subst.
      split; [now left|exact R].
    + intros H. destruct (IH H). split; [now right|assumption].
  - intros H. destruct (IH H). split; [now right|assumption].
  - intros H. destruct (IH H). split; [now right|assumption].
  - discriminate.
Qed.

Lemma find_in_none paths :
  find_in E paths = inr None ->
  forall path, In path paths -> run_version E path <> Completed 0.
Proof.
  induction paths as [|p r IH]; cbn [find_in]; intros H path Hin;
    [destruct Hin|].
  destruct (run_version E p) as [code| | |e] eqn:R; try discriminate.
  - destruct (code =? 0)%Z eqn:C; [discriminate|].
    destruct Hin as [<-|Hin]; [|now apply IH].
    rewrite R. intros K. injection K as ->. discriminate C.
  - destruct Hin as [<-|Hin]; [|now apply IH]. rewrite R. discriminate.
  - destruct Hin as [<-|Hin]; [|now apply IH]. rewrite R. discriminate.
Qed.
End Find.

(** X16: a path returned by [find_tesseract] is one of its five candidates
    and its version check ended with return code 0; when the configured path
    passes that check it is the one returned; when [find_tesseract] returns
    nothing, no candidate passes the check. *)
Theorem find_tesseract_sound (E : Env) :
  (forall path, find_tesseract E = inr (Some path) ->
     In path (candidate_paths E) /\ run_version E path = Completed 0) /\
  (run_version E (TESSERACT_PATH E) = Completed 0 ->
     find_tesseract E = inr (Some (TESSERACT_PATH E))) /\
  (find_tesseract E = inr None ->
     forall path, In path (candidate_paths E) ->
       run_version E path <> Completed 0).
Proof.
  split; [|split].
  - intros path. apply find_in_some.
  - intros H. unfold find_tesseract, candidate_paths. cbn [find_in].
    now rewrite H.
  - apply find_in_none.
Qed.

(** X17: when [check_dependencies] reports ready, the Python packages were
    imported, the reported tesseract path passed its version check, poppler
    is reported available, and no missing package is named. *)
Theorem ready_report_is_complete (E : Env) (r : report) :
  check_dependencies E = inr r -> ready r = true ->
  python_packages r = true /\ missing_package r = None /\
  tesseract_available r = true /\ poppler_available r = true /\
  exists path, tesseract_path r = Some path /\
               In path (candidate_paths E) /\
               run_version E path = Completed 0.
Proof.
  unfold check_dependencies.
  destruct (find_tesseract E) as [e|found] eqn:F; [discriminate|].
  destruct (check_poppler E) as [e|poppler] eqn:P; [discriminate|].
  destruct (DEPENDENCIES_AVAILABLE E) eqn:D; cbn [andb].
  - destruct found as [path|].
    + pose proof (find_in_some E _ F) as Hf.
      intros H. injection H as <-.
      cbn [ready python_packages missing_package tesseract_available
           poppler_available tesseract_path andb].
      intros ->. repeat split. exists path. split; [reflexivity|exact Hf].
    + intros H. injection H as <-. cbn. discriminate.
  - intros H. injection H as <-. cbn. discriminate.
Qed.

Lemma ready_report_is_complete_witness :
  python_packages MoreExamples.linux_report = true /\
  missing_package MoreExamples.linux_report = None /\
  tesseract_available MoreExamples.linux_report = true /\
  poppler_available MoreExamples.linux_report = true /\
  exists path, tesseract_path MoreExamples.linux_report = Some path /\
               In path (candidate_paths MoreExamples.linux_env) /\
               run_version MoreExamples.linux_env path = Completed 0.
Proof.
  apply (@ready_report_is_complete MoreExamples.linux_env
           MoreExamples.linux_report); reflexivity.
Defined.

Lemma find_tesseract_sound_witness :
  In (lit "/usr/bin/tesseract") (candidate_paths MoreExamples.linux_env) /\
  run_version MoreExamples.linux_env (lit "/usr/bin/tesseract") = Completed 0.
Proof.
  apply (find_tesseract_sound MoreExamples.linux_env). reflexivity.
Defined.
End DependencyFacts.


(** ** Soundness of the matcher *)

Module ReSound.
Import Re ReSemantics.

Section Sound.
Variable U : Unicode.
Variable ic : bool.
Variable GL : nat -> str -> Prop.

Lemma between_app s s' w : after s = w ++ after s' -> between s s' = w.
Proof.
  intros H. unfold between. rewrite H, length_app.
  replace (length w + length (after s') - length (after s'))%nat
    with (length w) by lia.
  rewrite firstn_app, firstn_all, Nat.sub_diag. simpl. apply app_nil_r.
Qed.

Lemma rep_loop_sound a body g lo hi k :
  sound_at U ic GL a body ->
  forall fuel n s c res,
    rep_loop body g lo hi k fuel n s c = Some res -> caps_ok GL c ->
    exists s' c' ws,
      k s' c' = Some res /\ caps_ok GL c' /\
      after s = concat ws ++ after s' /\ Forall (denotes U ic a) ws /\
      (lo <= n + length ws)%nat /\
      match hi with
      | Some h => length ws = O \/ (n + length ws <= h)%nat
      | None => True
      end.
Proof.
  intros Hb. induction fuel as [|f IH]; intros n s c res H Hc; [discriminate|].
  cbn [rep_loop] in H. cbv zeta in H.
  assert (Hstop : (if Nat.leb lo n then k s c else None) = Some res ->
    exists s' c' ws,
      k s' c' = Some res /\ caps_ok GL c' /\
      after s = concat ws ++ after s' /\ Forall (denotes U ic a) ws /\
      (lo <= n + length ws)%nat /\
      match hi with
      | Some h => length ws = O \/ (n + length ws <= h)%nat
      | None => True
      end).
  { destruct (Nat.leb lo n) eqn:L; [|discriminate]. intros K.
    apply Nat.leb_le in L. exists s, c, [].
    repeat split; auto; [simpl; lia|]. destruct hi; auto. }
  assert (Hmore :
    (if match hi with Some h => Nat.ltb n h | None => true end
     then body s c (fun s' c' =>
            if Nat.ltb (length (after s')) (length (after s))
            then rep_loop body g lo hi k f (S n) s' c' else None)
     else None) = Some res ->
    exists s' c' ws,
      k s' c' = Some res /\ caps_ok GL c' /\
      after s = concat ws ++ after s' /\ Forall (denotes U ic a) ws /\
      (lo <= n + length ws)%nat /\
      match hi with
      | Some h => length ws = O \/ (n + length ws <= h)%nat
      | None => True
      end).
  { destruct (match hi with Some h => Nat.ltb n h | None => true end) eqn:B;
      [|discriminate].
    intros K. pose proof (Hb _ _ _ _ K Hc) as Hsound; clear K.
    destruct Hsound as (s1 & c1 & w1 & K & Hc1 & Hs1 & Hw1).
    destruct (Nat.ltb (length (after s1)) (length (after s))); [|discriminate].
    pose proof (IH _ _ _ _ K Hc1) as Hsound; clear K.
    destruct Hsound as (s' & c' & ws & K & Hc' & Hs' & Hws & Hlo & Hhi).
    exists s', c', (w1 :: ws). split; [exact K|]. split; [exact Hc'|].
    split; [cbn [concat]; rewrite <- app_assoc, <- Hs'; exact Hs1|].
    split; [now constructor|]. cbn [length]. split; [lia|].
    destruct hi as [h|]; [|exact I]. right. apply Nat.ltb_lt in B.
    destruct Hhi as [Hz|Hle]; lia. }
  destruct g.
  - destruct (if match hi with Some h => Nat.ltb n h | None => true end
              then _ else None) as [r|] eqn:M.
    + injection H as ->. apply Hmore. reflexivity.
    + apply Hstop. exact H.
  - destruct (if Nat.leb lo n then k s c else None) as [r|] eqn:St.
    + injection H as ->. apply Hstop. reflexivity.
    + apply Hmore. exact H.
Qed.

(** A match lies in what the pattern denotes, and keeps the groups within
    their bounds. *)
Lemma rmatch_sound r :
  groups_ok U ic GL r -> sound_at U ic GL r (rmatch U ic r).
Proof.
  induction r as [|cs|a IHa b IHb|a IHa b IHb|g lo hi a IHa|i a IHa| | | | ];
    intros Hg s c k res H Hc; cbn [rmatch] in H.
  - exists s, c, []. repeat split; auto.
  - destruct (after s) as [|x xs] eqn:A; [discriminate|].
    destruct (cset_mem U ic cs x) eqn:M; [|discriminate].
    exists {| before := x :: before s; after := xs |}, c, [x].
    repeat split; auto. exists x. now split.
  - destruct Hg as [Ha Hb].
    pose proof ((IHa Ha) _ _ _ _ H Hc) as Hsound; clear H.
    destruct Hsound as (s1 & c1 & w1 & H & Hc1 & Hs1 & Hw1).
    pose proof ((IHb Hb) _ _ _ _ H Hc1) as Hsound; clear H.
    destruct Hsound as (s2 & c2 & w2 & H & Hc2 & Hs2 & Hw2).
    exists s2, c2, (w1 ++ w2). repeat split; auto.
    + now rewrite <- app_assoc, <- Hs2.
    + exists w1, w2. now repeat split.
  - destruct Hg as [Ha Hb].
    destruct (rmatch U ic a s c k) as [r|] eqn:A.
    + injection H as ->.
      pose proof ((IHa Ha) _ _ _ _ A Hc) as Hsound; clear A.
    destruct Hsound as (s1 & c1 & w1 & H & Hc1 & Hs1 & Hw1).
      exists s1, c1, w1. repeat split; auto. now left.
    + pose proof ((IHb Hb) _ _ _ _ H Hc) as Hsound; clear H.
    destruct Hsound as (s1 & c1 & w1 & H & Hc1 & Hs1 & Hw1).
      exists s1, c1, w1. repeat split; auto. now right.
  - cbn [groups_ok] in Hg.
    pose proof (@rep_loop_sound a _ g lo hi k (IHa Hg) _ _ _ _ _ H Hc)
      as Hsound; clear H.
    destruct Hsound as (s' & c' & ws & H & Hc' & Hs' & Hws & Hlo & Hhi).
    exists s', c', (concat ws). repeat split; auto.
    exists ws. repeat split; auto. destruct hi as [h|]; [|exact I].
    destruct Hhi as [Hz|Hle]; lia.
  - destruct Hg as [Ha Hi].
    pose proof ((IHa Ha) _ _ _ _ H Hc) as Hsound; clear H.
    destruct Hsound as (s1 & c1 & w1 & H & Hc1 & Hs1 & Hw1).
    exists s1, ((i, between s s1) :: c1), w1. repeat split; auto.
    intros j v [E|Hin]; [|now apply Hc1].
    injection E as <- <-. rewrite (@between_app s s1 w1 Hs1). now apply Hi.
  - destruct (before s); [|discriminate]. exists s, c, []. repeat split; auto.
  - assert (K : k s c = Some res).
    { destruct (after s) as [|x [|y r]]; [exact H| |discriminate].
      destruct (x =? 10); [exact H|discriminate]. }
    exists s, c, []. repeat split; auto.
  - assert (K : k s c = Some res).
    { destruct (after s); [exact H|discriminate]. }
    exists s, c, []. repeat split; auto.
  - match type of H with (if ?b then _ else _) = _ => destruct b end;
      [|discriminate].
    exists s, c, []. repeat split; auto.
Qed.

Lemma cap_lookup_in i c v : cap_lookup i c = Some v -> In (i, v) c.
Proof.
  induction c as [|[j u] r IH]; cbn [cap_lookup]; [discriminate|].
  destruct (Nat.eqb i j) eqn:E.
  - intros H. injection H as ->. apply Nat.eqb_eq in E. subst. now left.
  - intros H. right. now apply IH.
Qed.

Lemma match_at_sound r s m :
  groups_ok U ic GL r -> match_at U ic r s = Some m ->
  denotes U ic r (m_text m) /\ forall i v, group m i = Some v -> GL i v.
Proof.
  intros Hg. unfold match_at.
  destruct (rmatch U ic r s [] accept) as [[s' c]|] eqn:M; [|discriminate].
  intros H. injection H as <-.
  assert (H0 : caps_ok GL []) by (intros j v []).
  destruct (@rmatch_sound r Hg _ _ _ _ M H0) as (s1 & c1 & w & K & Hc & Hs & Hw).
  unfold accept in K. injection K as <- <-. cbn [m_text].
  rewrite (@between_app _ _ w Hs). split; [exact Hw|].
  intros i v Hv. apply Hc. now apply cap_lookup_in.
Qed.

Lemma search_from_sound r rest : forall pre m,
  groups_ok U ic GL r -> search_from U ic r pre rest = Some m ->
  denotes U ic r (m_text m) /\ forall i v, group m i = Some v -> GL i v.
Proof.
  induction rest as [|x xs IH]; intros pre m Hg; cbn [search_from].
  - destruct (match_at U ic r _) as [m'|] eqn:M; [|discriminate].
    intros H. injection H as <-. eapply match_at_sound; eassumption.
  - destruct (match_at U ic r _) as [m'|] eqn:M.
    + intros H. injection H as <-. eapply match_at_sound; eassumption.
    + now apply IH.
Qed.

Lemma finditer_from_sound r rest : forall pre skip m,
  groups_ok U ic GL r -> In m (finditer_from U ic r pre rest skip) ->
  denotes U ic r (m_text m) /\ forall i v, group m i = Some v -> GL i v.
Proof.
  induction rest as [|x xs IH]; intros pre skip m Hg Hin.
  - destruct skip; cbn [finditer_from] in Hin; [|destruct Hin].
    destruct (match_at U ic r _) as [m'|] eqn:M; [|destruct Hin].
    destruct Hin as [<-|[]]. eapply match_at_sound; eassumption.
  - destruct skip as [|n]; cbn [finditer_from] in Hin.
    + destruct (match_at U ic r _) as [m'|] eqn:M.
      * destruct Hin as [<-|Hin]; [eapply match_at_sound; eassumption|].
        eapply IH; eassumption.
      * eapply IH; eassumption.
    + eapply IH; eassumption.
Qed.

(** A repetition of a class denotes strings of members of the class, within
    the bounds of the repetition. *)
Lemma denotes_rep_chr g lo hi cs w :
  denotes U ic (Rep g lo hi (Chr cs)) w ->
  Forall (fun x => cset_mem U ic cs x = true) w /\
  (lo <= length w)%nat /\
  match hi with Some h => (length w <= h)%nat | None => True end.
Proof.
  cbn [denotes]. intros (ws & -> & Hws & Hlo & Hhi).
  assert (E : Forall (fun x => cset_mem U ic cs x = true) (concat ws) /\
              length (concat ws) = length ws).
  { clear Hlo Hhi. induction Hws as [|w r (x & -> & Hx) _ [IH1 IH2]].
    - split; [constructor|reflexivity].
    - cbn [concat app length]. split; [now constructor|now rewrite IH2]. }
  destruct E as [E1 E2]. rewrite E2. now repeat split.
Qed.
End Sound.
End ReSound.


(** ** Shapes of the extracted fields *)

Module ShapeFacts.
Import Re ReSemantics TenderParser Trace Notions.

Section Shapes.
Variable U : Unicode.

Lemma groups_in_ok ic GL r :
  (forall j a, In (j, a) (groups_in r) ->
               forall w, denotes U ic a w -> GL j w) ->
  groups_ok U ic GL r.
Proof.
  induction r as [|cs|a IHa b IHb|a IHa b IHb|g lo hi a IHa|i a IHa| | | | ];
    intros H; cbn [groups_ok groups_in] in *; auto.
  - split; [apply IHa|apply IHb]; intros j x Hin; apply H, in_or_app; auto.
  - split; [apply IHa|apply IHb]; intros j x Hin; apply H, in_or_app; auto.
  - split; [apply IHa; intros j x Hin; apply H; now right|].
    apply H. now left.
Qed.


Lemma Forall_forallb (p q : N -> bool) w :
  (forall x, p x = true -> q x = true) ->
  Forall (fun x => p x = true) w -> forallb q w = true.
Proof.
  intros H. induction 1 as [|x r Hx _ IH]; [reflexivity|].
  cbn [forallb]. now rewrite (H x Hx), IH.
Qed.

Lemma forallb_imp (p q : N -> bool) w :
  (forall x, p x = true -> q x = true) ->
  forallb p w = true -> forallb q w = true.
Proof.
  intros H. induction w as [|x r IH]; [reflexivity|]. cbn [forallb].
  intros K. apply andb_prop in K as [Kx Kr]. now rewrite (H x Kx), IH.
Qed.

Lemma forallb_app_true (p : N -> bool) a b :
  forallb p a = true -> forallb p b = true -> forallb p (a ++ b) = true.
Proof. intros Ha Hb. rewrite forallb_app. now rewrite Ha, Hb. Qed.

Lemma digit_mem ic x :
  cset_mem U ic {| cneg := false; citems := [CDigit] |} x = is_digit U x.
Proof. unfold cset_mem, citem_mem_ci. simpl. now rewrite !orb_false_r. Qed.

Lemma digits_denoted ic g lo hi w :
  denotes U ic (Rep g lo hi (Chr {| cneg := false; citems := [CDigit] |})) w ->
  forallb (is_digit U) w = true /\ (lo <= length w)%nat /\
  match hi with Some h => (length w <= h)%nat | None => True end.
Proof.
  intros H. apply ReSound.denotes_rep_chr in H as (Hf & Hlo & Hhi).
  split; [|now split].
  eapply Forall_forallb; [|exact Hf]. intros x. now rewrite digit_mem.
Qed.



(** *** Item numbers and quantities *)

Ltac each_group Hj :=
  vm_compute in Hj;
  repeat (destruct Hj as [Hj|Hj];
          [injection Hj as <- <-|]);
  try (destruct Hj).

Lemma item_patterns_ok p n :
  In (p, n) item_patterns ->
  groups_ok U true (digits_in U 1) p /\ (1 <= n)%nat.
Proof.
  unfold item_patterns. cbn [In].
  intros [E|[E|[E|[E|[]]]]]; injection E as <- <-; (split; [|lia]);
    apply groups_in_ok; intros j a Hj; each_group Hj;
    intros w Hw Ej; try discriminate Ej;
    now apply digits_denoted in Hw.
Qed.

Lemma fallback_pattern_ok : groups_ok U true (digits_in U 2) fallback_pattern.
Proof.
  apply groups_in_ok. intros j a Hj. each_group Hj;
    intros w Hw Ej; try discriminate Ej.
  now apply digits_denoted in Hw.
Qed.

Lemma first_item_match_number ps line gs :
  (forall p n, In (p, n) ps ->
     groups_ok U true (digits_in U 1) p /\ (1 <= n)%nat) ->
  first_item_match U ps line = Some gs ->
  forallb (is_digit U) (opt_str (nth 0 gs None)) = true.
Proof.
  induction ps as [|[p n] r IH]; intros Hok; cbn [first_item_match];
    [discriminate|].
  destruct (re_match U true p line) as [m|] eqn:M.
  - intros H. injection H as <-.
    destruct (Hok p n (or_introl eq_refl)) as [Hg Hn].
    destruct n as [|n]; [lia|]. unfold groups. cbn [List.seq map nth].
    destruct (group m 1) as [v|] eqn:G; [|reflexivity].
    destruct (@ReSound.match_at_sound U true _ p _ m Hg M) as [_ Hgl].
    cbn [opt_str]. now apply (Hgl 1%nat v G).
  - apply IH. intros q k Hin. apply Hok. now right.
Qed.

Lemma sub_delete ic cs rest : forall pre,
  sub_from U ic (Chr cs) [] pre rest O =
  filter (fun c => negb (cset_mem U ic cs c)) rest.
Proof.
  induction rest as [|x xs IH]; intros pre; [reflexivity|].
  cbn [sub_from filter]. rewrite ReFacts.match_at_chr.
  destruct (cset_mem U ic cs x); cbn [negb m_text length app].
  - apply IH.
  - now rewrite IH.
Qed.

Lemma not_quantity_mem c :
  negb (cset_mem U false
          {| cneg := true; citems := [CDigit; chr "."; chr ","] |} c) =
  quantity_char U c.
Proof.
  unfold cset_mem, citem_mem_ci, quantity_char. simpl.
  rewrite !orb_false_r, !ParserFacts.in_range_point.
  rewrite <- !orb_assoc.
  now destruct (is_digit U c || ((c =? 46) || (c =? 44))).
Qed.

Lemma forallb_filter (p q : N -> bool) l :
  (forall c, p c = true -> q c = true) -> forallb q (filter p l) = true.
Proof.
  intros H. induction l as [|x r IH]; [reflexivity|]. cbn [filter].
  destruct (p x) eqn:E; [cbn [forallb]; now rewrite (H x E)|exact IH].
Qed.

Lemma cleaned_quantity q :
  forallb (quantity_char U)
    (match q with
     | [] => []
     | _ => re_sub U false not_quantity_char [] q
     end) = true.
Proof.
  destruct q as [|x r]; [reflexivity|].
  unfold re_sub, not_quantity_char, nset. rewrite sub_delete.
  apply forallb_filter. intros c. now rewrite not_quantity_mem.
Qed.

Lemma structural_item_numbers line it n :
  structural_item U line = Some (it, n) -> numbers_ok U it.
Proof.
  unfold structural_item.
  destruct (first_item_match U item_patterns line) as [gs|] eqn:F;
    [|discriminate].
  cbv zeta. intros H.
  match type of H with
  | (if ?b then _ else _) = _ => destruct b; [|discriminate]
  end.
  pose proof (f_equal (fun o => match o with
                                | Some (i, _) => item_number i
                                | None => []
                                end) H) as Hn.
  pose proof (f_equal (fun o => match o with
                                | Some (i, _) => quantity i
                                | None => []
                                end) H) as Hq.
  cbv beta iota in Hn, Hq. cbn [item_number quantity] in Hn, Hq.
  unfold numbers_ok. rewrite <- Hn, <- Hq. split.
  - eapply first_item_match_number; [exact item_patterns_ok|exact F].
  - apply cleaned_quantity.
Qed.

Lemma uint_digits_ok d : forallb (is_digit U) (uint_digits d) = true.
Proof. induction d; cbn [uint_digits forallb]; auto. Qed.

Lemma digit_is_quantity c : is_digit U c = true -> quantity_char U c = true.
Proof. unfold quantity_char. now intros ->. Qed.

Lemma fallback_item_numbers line parts n :
  fallback_parts U line = Some parts -> numbers_ok U (fallback_item U n parts).
Proof.
  unfold fallback_parts, re_search.
  destruct (search_from U true fallback_pattern [] line) as [m|] eqn:S;
    [|discriminate].
  cbv zeta. intros H.
  match type of H with
  | (if ?b then _ else _) = _ => destruct b; [|discriminate]
  end.
  injection H as <-. unfold numbers_ok, fallback_item.
  cbn [item_number quantity]. split; [apply uint_digits_ok|].
  apply (@forallb_imp (is_digit U) (quantity_char U) _ digit_is_quantity).
  unfold group_str. destruct (group m 2) as [v|] eqn:G; [|reflexivity].
  destruct (@ReSound.search_from_sound U true _ fallback_pattern line [] m
              fallback_pattern_ok S) as [_ Hgl].
  now apply (Hgl 2%nat v G).
Qed.

(** A property of everything the two emitters produce holds of every
    returned item. *)
Lemma extract_items_invariant (P : TenderItem -> Prop) :
  (forall line it n, structural_item U line = Some (it, n) -> P it) ->
  (forall line parts n,
     fallback_parts U line = Some parts -> P (fallback_item U n parts)) ->
  forall text it, In it (extract_items U text) -> P it.
Proof.
  intros Hs Hf text it Hin. unfold extract_items in Hin.
  rewrite ItemFacts.remove_duplicates_keep_first in Hin.
  apply ScanFacts.keep_first_in in Hin.
  assert (L : forall lines st, Forall P (st_items st) ->
                Forall P (st_items (scan_lines U st lines))).
  { induction lines as [|raw rest IH]; intros st H; [exact H|].
    apply IH. unfold scan_line. cbv zeta.
    destruct (is_garbage_line U (strip raw)); [exact H|].
    destruct (Nat.ltb (length (strip raw)) 5); [exact H|].
    assert (H1 : Forall P (st_items (structural_step U st (strip raw)))).
    { unfold structural_step.
      destruct (structural_item U (strip raw)) as [[i n]|] eqn:E; [|exact H].
      cbn [st_items]. apply Forall_app. split; [exact H|].
      constructor; [eapply Hs, E|constructor]. }
    unfold fallback_step. destruct (fallback_guard _); [|exact H1].
    destruct (fallback_parts U (strip raw)) as [parts|] eqn:E; [|exact H1].
    cbn [st_items]. apply Forall_app. split; [exact H1|].
    constructor; [eapply Hf, E|constructor]. }
  specialize (L (split_on 10 text) scan_init (Forall_nil _)).
  rewrite Forall_forall in L. exact (L it Hin).
Qed.
End Shapes.

(** X18: every item returned by [extract_items] has an item number made of
    decimal digits only and a quantity made of decimal digits, dots and
    commas only. *)
Theorem item_numbers_are_numeric (U : Unicode) (text : str) (it : TenderItem) :
  In it (extract_items U text) ->
  forallb (is_digit U) (item_number it) = true /\
  forallb (quantity_char U) (quantity it) = true.
Proof.
  apply (@extract_items_invariant U (numbers_ok U)).
  - apply structural_item_numbers.
  - intros line parts n. apply fallback_item_numbers.
Qed.

Lemma item_numbers_are_numeric_witness :
  forallb (is_digit ascii_tables) (lit "2") = true /\
  forallb (quantity_char ascii_tables) (lit "1000") = true.
Proof.
  apply (item_numbers_are_numeric ascii_tables Examples.end_to_end_text
           (Examples.english_item "2" "Syringes 10ml -" "1000" "units")).
  assert (E : extract_items ascii_tables Examples.end_to_end_text =
              [Examples.english_item "1" "Surgical Gloves" "500" "pieces";
               Examples.english_item "2" "Syringes 10ml -" "1000" "units"])
    by (vm_compute; reflexivity).
  rewrite E. right. left. reflexivity.
Defined.

Section Dates.
Variable U : Unicode.
Hypothesis Hvar : variants_skip_separators U.

Lemma case_variant_not_separator x v :
  In v (case_variants U x) -> v <> 47 /\ v <> 45 /\ v <> 46.
Proof.
  unfold case_variants. destruct (is_ascii x); [|apply Hvar].
  unfold is_ascii_upper, is_ascii_lower, in_range.
  destruct ((65 <=? x) && (x <=? 90)) eqn:Up.
  - apply andb_prop in Up as [A B]. apply N.leb_le in A, B.
    intros [<-|[]]. lia.
  - destruct ((97 <=? x) && (x <=? 122)) eqn:Lo; [|intros []].
    apply andb_prop in Lo as [A B]. apply N.leb_le in A, B.
    intros [<-|[]]. lia.
Qed.

Lemma point_ci ic k x :
  (k = 47 \/ k = 45 \/ k = 46) ->
  citem_mem_ci U ic (CRange k k) x = (x =? k).
Proof.
  intros Hk. unfold citem_mem_ci, citem_mem.
  rewrite ParserFacts.in_range_point.
  destruct ic; cbn [andb]; [|apply orb_false_r].
  destruct (existsb (in_range k k) (case_variants U x)) eqn:E;
    [|apply orb_false_r].
  apply existsb_exists in E as (v & Hin & Hv).
  rewrite ParserFacts.in_range_point in Hv. apply N.eqb_eq in Hv. subst v.
  destruct (case_variant_not_separator x k Hin) as (A & B & C).
  destruct Hk as [-> | [-> | ->]]; congruence.
Qed.

Lemma separator_mem ic x :
  cset_mem U ic
    {| cneg := false; citems := [chr "/"; chr "-"; chr "."] |} x = true ->
  raw_date_char U x = true.
Proof.
  unfold cset_mem. cbn [cneg citems existsb xorb].
  change (chr "/") with (CRange 47 47). change (chr "-") with (CRange 45 45).
  change (chr ".") with (CRange 46 46).
  rewrite !point_ci by auto. unfold raw_date_char.
  intros H. rewrite orb_false_r in H.
  destruct (x =? 47), (x =? 45), (x =? 46); try discriminate;
    now rewrite ?orb_true_r.
Qed.

Lemma slash_mem ic x :
  cset_mem U ic {| cneg := false; citems := [chr "/"] |} x = true ->
  raw_date_char U x = true.
Proof.
  unfold cset_mem. cbn [cneg citems existsb xorb].
  change (chr "/") with (CRange 47 47).
  rewrite !point_ci by auto. unfold raw_date_char.
  intros H. rewrite orb_false_r in H. rewrite H. now rewrite ?orb_true_r.
Qed.

Lemma digit_is_raw_date x : is_digit U x = true -> raw_date_char U x = true.
Proof. unfold raw_date_char. now intros ->. Qed.

Lemma date_core_denoted ic w :
  denotes U ic date_core w ->
  forallb (raw_date_char U) w = true /\ (6 <= length w <= 10)%nat.
Proof.
  unfold date_core. cbv zeta. cbn [seq].
  intros (w1 & r1 & -> & H1 & (s1 & r2 & -> & (x1 & -> & Hx1)
          & (w2 & r3 & -> & H2 & (s2 & w3 & -> & (x2 & -> & Hx2) & H3)))).
  apply digits_denoted in H1 as (D1 & L1 & M1).
  apply digits_denoted in H2 as (D2 & L2 & M2).
  apply digits_denoted in H3 as (D3 & L3 & M3).
  split.
  - repeat apply forallb_app_true;
      try (eapply forallb_imp; [exact digit_is_raw_date|assumption]);
      cbn [forallb]; rewrite (separator_mem ic) by assumption; reflexivity.
  - rewrite !length_app. cbn [length]. lia.
Qed.

Lemma bare_date_denoted ic w :
  denotes U ic bare_date w ->
  forallb (raw_date_char U) w = true /\ (6 <= length w <= 10)%nat.
Proof.
  unfold bare_date. cbn [denotes seq].
  intros (w1 & r1 & -> & H1 & (s1 & r2 & -> & (x1 & -> & Hx1)
          & (w2 & r3 & -> & H2 & (s2 & w3 & -> & (x2 & -> & Hx2) & H3)))).
  apply (digits_denoted (ic := ic) (g := true) (lo := 2) (hi := Some 2%nat))
    in H1 as (D1 & L1 & M1).
  apply (digits_denoted (ic := ic) (g := true) (lo := 2) (hi := Some 2%nat))
    in H2 as (D2 & L2 & M2).
  apply (digits_denoted (ic := ic) (g := true) (lo := 4) (hi := Some 4%nat))
    in H3 as (D3 & L3 & M3).
  split.
  - repeat apply forallb_app_true;
      try (eapply forallb_imp; [exact digit_is_raw_date|assumption]);
      cbn [forallb]; rewrite (slash_mem ic) by assumption; reflexivity.
  - rewrite !length_app. cbn [length]. lia.
Qed.

Ltac one_group Hj body :=
  match type of Hj with
  | In _ (groups_in ?P) =>
      let G := fresh "G" in
      assert (G : groups_in P = [(1%nat, body)]) by (vm_compute; reflexivity);
      rewrite G in Hj; clear G
  end;
  destruct Hj as [Hj|[]]; injection Hj as <- <-.

Lemma closing_patterns_ok p :
  In p closing_patterns -> groups_ok U true (date_in U) p.
Proof.
  unfold closing_patterns. cbn [In].
  intros [<-|[<-|[<-|[]]]]; apply groups_in_ok; intros j a Hj.
  - one_group Hj date_core. intros w Hw _. exact (@date_core_denoted true w Hw).
  - one_group Hj date_core. intros w Hw _. exact (@date_core_denoted true w Hw).
  - one_group Hj (match bare_date with Grp _ b => b | _ => Eps end).
    intros w Hw _. exact (@bare_date_denoted true w Hw).
Qed.

Lemma posting_patterns_ok p :
  In p posting_patterns -> groups_ok U true (date_in U) p.
Proof.
  unfold posting_patterns. cbn [In].
  intros [<-|[]]; apply groups_in_ok; intros j a Hj.
  one_group Hj date_core. intros w Hw _. exact (@date_core_denoted true w Hw).
Qed.

Lemma bare_date_ok : groups_ok U false (date_in U) bare_date.
Proof.
  apply groups_in_ok; intros j a Hj.
  one_group Hj (match bare_date with Grp _ b => b | _ => Eps end).
  intros w Hw _. exact (@bare_date_denoted false w Hw).
Qed.

Lemma findall1_shape ic p text v :
  groups_ok U ic (date_in U) p -> In v (findall1 U ic p text) ->
  v = [] \/
  (forallb (raw_date_char U) v = true /\ (6 <= length v <= 10)%nat).
Proof.
  intros Hg Hin. unfold findall1 in Hin.
  apply in_map_iff in Hin as (m & <- & Hm).
  unfold group_str. destruct (group m 1) as [w|] eqn:G; [|now left].
  right.
  destruct (@ReSound.finditer_from_sound U ic _ p text [] O m Hg Hm)
    as [_ Hgl].
  now apply (Hgl 1%nat w G).
Qed.

Lemma first_search_shape ps text m :
  (forall p, In p ps -> groups_ok U true (date_in U) p) ->
  first_search U ps text = Some m ->
  group_str m 1 = [] \/
  (forallb (raw_date_char U) (group_str m 1) = true /\
   (6 <= length (group_str m 1) <= 10)%nat).
Proof.
  induction ps as [|p r IH]; intros Hok; cbn [first_search]; [discriminate|].
  destruct (re_search U true p text) as [m'|] eqn:S.
  - intros H. injection H as <-.
    unfold group_str. destruct (group m' 1) as [w|] eqn:G; [|now left].
    right.
    destruct (@ReSound.search_from_sound U true _ p text [] m'
                (Hok p (or_introl eq_refl)) S) as [_ Hgl].
    now apply (Hgl 1%nat w G).
  - apply IH. intros q Hq. apply Hok. now right.
Qed.

Lemma raw_date_without_marks v :
  forallb (raw_date_char U) v = true -> ~ In 45 v -> ~ In 46 v ->
  forallb (date_char U) v = true.
Proof.
  induction v as [|c r IH]; [reflexivity|]. cbn [forallb].
  intros H H45 H46. apply andb_prop in H as [Hc Hr].
  rewrite IH; [|exact Hr|intros K; apply H45; now right
                 |intros K; apply H46; now right].
  rewrite andb_true_r. unfold raw_date_char, date_char in *.
  destruct (c =? 45) eqn:E45;
    [apply N.eqb_eq in E45; exfalso; apply H45; now left|].
  destruct (c =? 46) eqn:E46;
    [apply N.eqb_eq in E46; exfalso; apply H46; now left|].
  now rewrite !orb_false_r in Hc.
Qed.

Lemma pick_date_in m ms : In (pick_date (m :: ms)) (m :: ms).
Proof.
  rewrite FieldFacts.pick_date_last.
  assert (L : forall (l : list str) x, In (last (x :: l) []) (x :: l)).
  { induction l as [|y r IH]; intros x; [now left|].
    right. exact (IH y). }
  apply L.
Qed.

Lemma normalize_date_shape v :
  forallb (raw_date_char U) v = true ->
  forallb (date_char U) (normalize_date v) = true /\
  length (normalize_date v) = length v.
Proof.
  intros H. unfold normalize_date, replace_char. rewrite !length_map.
  split; [|reflexivity]. rewrite map_map.
  induction v as [|c r IH]; [reflexivity|].
  cbn [forallb map] in *. apply andb_prop in H as [Hc Hr].
  rewrite (IH Hr), andb_true_r. unfold date_char, raw_date_char in *.
  destruct (c =? 45) eqn:E45.
  - destruct (47 =? 46); now rewrite ?orb_true_r.
  - destruct (c =? 46) eqn:E46; [now rewrite orb_true_r|].
    now rewrite !orb_false_r in Hc.
Qed.

Lemma closing_loop_shape ps text :
  (forall p, In p ps -> groups_ok U true (date_in U) p) ->
  closing_loop U ps text = [] \/
  (forallb (date_char U) (closing_loop U ps text) = true /\
   (6 <= length (closing_loop U ps text) <= 10)%nat).
Proof.
  induction ps as [|p r IH]; intros Hok; cbn [closing_loop]; [now left|].
  destruct (findall1 U true p text) as [|m ms] eqn:F.
  - apply IH. intros q Hq. apply Hok. now right.
  - pose proof (pick_date_in m ms) as Hin. rewrite <- F in Hin at 2.
    destruct (@findall1_shape true p text _ (Hok p (or_introl eq_refl)) Hin)
      as [-> | [Hc Hl]]; [now left|].
    right. destruct (normalize_date_shape _ Hc) as [Hd He].
    split; [exact Hd|]. now rewrite He.
Qed.

End Dates.

(** X19: with a case table in which no character is a case variant of a
    slash, a hyphen or a dot, the closing date returned for any text is
    empty or has 6 to 10 characters, each a decimal digit or a slash. *)
Theorem closing_date_shape (U : Unicode) (text : str) :
  variants_skip_separators U ->
  extract_closing_date U text = [] \/
  (forallb (date_char U) (extract_closing_date U text) = true /\
   (6 <= length (extract_closing_date U text) <= 10)%nat).
Proof.
  intros Hvar. apply closing_loop_shape.
  intros p Hp. now apply closing_patterns_ok.
Qed.

Lemma closing_date_shape_witness :
  extract_closing_date ascii_tables Examples.two_closing_dates = [] \/
  (forallb (date_char ascii_tables)
     (extract_closing_date ascii_tables Examples.two_closing_dates) = true /\
   (6 <= length (extract_closing_date ascii_tables Examples.two_closing_dates)
      <= 10)%nat).
Proof.
  apply (@closing_date_shape ascii_tables Examples.two_closing_dates).
  intros c v [].
Defined.

(** X21: with such a case table, the posting date returned for any text is
    empty or has 6 to 10 characters, each a decimal digit, a slash, a hyphen
    or a dot; when it comes from a Posted or Published label its hyphens
    and dots have become slashes. *)
Theorem posting_date_shape (U : Unicode) (text : str) :
  variants_skip_separators U ->
  extract_posting_date U text = [] \/
  (forallb (raw_date_char U) (extract_posting_date U text) = true /\
   (6 <= length (extract_posting_date U text) <= 10)%nat /\
   (first_search U posting_patterns text <> None ->
    forallb (date_char U) (extract_posting_date U text) = true)).
Proof.
  intros Hvar. unfold extract_posting_date.
  destruct (first_search U posting_patterns text) as [m|] eqn:F.
  - destruct (@first_search_shape U posting_patterns text m
                (fun p Hp => @posting_patterns_ok U Hvar p Hp) F)
      as [-> | [Hc Hl]]; [now left|].
    right. destruct (@normalize_date_shape U _ Hc) as [Hd He].
    split; [|split; [now rewrite He|intros _; exact Hd]].
    eapply forallb_imp; [|exact Hd]. unfold date_char, raw_date_char.
    intros x Hx. apply orb_prop in Hx as [-> | ->]; [reflexivity|].
    now rewrite !orb_true_r.
  - destruct (findall1 U false bare_date text) as [|v vs] eqn:E;
      [now left|].
    cbn [hd].
    destruct (@findall1_shape U false bare_date text v (@bare_date_ok U Hvar))
      as [-> | [Hc Hl]]; [rewrite E; now left|now left|].
    right. split; [exact Hc|]. split; [exact Hl|]. intros K. congruence.
Qed.

Lemma posting_date_shape_witness :
  extract_posting_date ascii_tables MoreExamples.posted_text = [] \/
  (forallb (raw_date_char ascii_tables)
     (extract_posting_date ascii_tables MoreExamples.posted_text) = true /\
   (6 <= length (extract_posting_date ascii_tables MoreExamples.posted_text)
      <= 10)%nat /\
   (first_search ascii_tables posting_patterns MoreExamples.posted_text
      <> None ->
    forallb (date_char ascii_tables)
      (extract_posting_date ascii_tables MoreExamples.posted_text) = true)).
Proof.
  apply (@posting_date_shape ascii_tables MoreExamples.posted_text).
  intros c v [].
Defined.


End ShapeFacts.
